(** * Qdrant vector database adapter and BM25 tokenizer

    A shallow embedding of [packages/core/src/vectordb/qdrant-vectordb.ts]
    (class [QdrantVectorDatabase]) and of the [BM25Tokenizer] class that
    follows it in the same source unit, with the properties the design
    document states about them.

    Conventions of the embedding.
    - A JavaScript string is a [string] holding its UTF-8 bytes.
    - Integral JavaScript numbers (limits, dimensions, vocabulary indices,
      term frequencies) are [Z]; numbers the code never computes with
      (vector components, scores, the quantile) are [Q].
    - An [async] method is a state transformer over the database object and
      the outside world; a rejected promise is the outcome [Raised].
    - The remote service, the file system, the clock and the wink-nlp
      pipeline are collaborators outside the repository: they are the
      fields of [Env], and every remote reply may depend on the whole
      history of events so far.
    - [console.log] progress notices do not influence control flow and are
      left out; [console.warn] and [console.error] are recorded as events. *)

From Stdlib Require Import ZArith QArith String Ascii List Bool Lia DecimalString.
From stdpp Require Import gmap strings list fin_maps.

Open Scope string_scope.
Open Scope list_scope.
Open Scope Z_scope.

(** ** JavaScript string and number helpers *)

(** [String.prototype.startsWith]. *)
Definition startsWith (s pre : string) : bool := String.prefix pre s.

(** [String.prototype.includes]: [needle] occurs somewhere in [s]. *)
Fixpoint includes (s needle : string) : bool :=
  String.prefix needle s ||
  match s with
  | EmptyString => false
  | String _ rest => includes rest needle
  end.

(** [String.prototype.split] on a one-character separator. *)
Fixpoint split (sep : ascii) (s : string) : list string :=
  match s with
  | EmptyString => [EmptyString]
  | String c rest =>
      if Ascii.eqb c sep then EmptyString :: split sep rest
      else match split sep rest with
           | h :: t => String c h :: t
           | [] => [String c EmptyString]
           end
  end.

(** Number of UTF-16 code units a UTF-8 byte stands for: continuation bytes
    count for nothing, the lead byte of a four-byte sequence for a surrogate
    pair. *)
Definition utf16Units (c : ascii) : nat :=
  let n := N_of_ascii c in
  if ((128 <=? n) && (n <? 192))%N then 0%nat
  else if (240 <=? n)%N then 2%nat else 1%nat.

(** The [length] property of a JavaScript string. *)
Fixpoint jsLength (s : string) : nat :=
  match s with
  | EmptyString => 0%nat
  | String c rest => (utf16Units c + jsLength rest)%nat
  end.

(** White space and line terminators of ECMAScript that fit one byte:
    TAB, LF, VT, FF, CR and SP. *)
Definition space1 (c : ascii) : bool :=
  let n := N_of_ascii c in
  (((9 <=? n) && (n <=? 13)) || (n =? 32))%N.

(** U+00A0 (bytes C2 A0). *)
Definition space2 (c1 c2 : ascii) : bool :=
  ((N_of_ascii c1 =? 194) && (N_of_ascii c2 =? 160))%N.

(** U+1680, U+2000 to U+200A, U+2028, U+2029, U+202F, U+205F, U+3000 and
    U+FEFF in their three-byte encodings. *)
Definition space3 (c1 c2 c3 : ascii) : bool :=
  let a := N_of_ascii c1 in
  let b := N_of_ascii c2 in
  let c := N_of_ascii c3 in
  (((a =? 225) && (b =? 154) && (c =? 128))
   || ((a =? 226) && (b =? 128) &&
       (((128 <=? c) && (c <=? 138)) || (c =? 168) || (c =? 169) || (c =? 175)))
   || ((a =? 226) && (b =? 129) && (c =? 159))
   || ((a =? 227) && (b =? 128) && (c =? 128))
   || ((a =? 239) && (b =? 187) && (c =? 191)))%N.

(** [text.trim().length === 0]: the text is made of white space only. *)
Fixpoint isBlank (s : string) : bool :=
  match s with
  | EmptyString => true
  | String c1 r1 =>
      if space1 c1 then isBlank r1
      else match r1 with
           | EmptyString => false
           | String c2 r2 =>
               if space2 c1 c2 then isBlank r2
               else match r2 with
                    | EmptyString => false
                    | String c3 r3 => space3 c1 c2 c3 && isBlank r3
                    end
           end
  end.

(** [x || d] on an optional number: [undefined] and [0] are falsy. *)
Definition orNumber (x : option Z) (d : Z) : Z :=
  match x with
  | Some n => if n =? 0 then d else n
  | None => d
  end.

(** [x || d] on an optional non-integral number. *)
Definition orRational (x : option Q) (d : Q) : Q :=
  match x with
  | Some q => if Qeq_bool q 0 then d else q
  | None => d
  end.

(** [x || false] on an optional boolean. *)
Definition orFalse (x : option bool) : bool :=
  match x with
  | Some b => b
  | None => false
  end.

(** [x ?? d]: only [undefined] and [null] give way to the default. *)
Definition nullish {A : Type} (x : option A) (d : A) : A :=
  match x with
  | Some a => a
  | None => d
  end.

(** [x || y] on optional strings: the empty string is falsy. *)
Definition orString (x : option string) (d : string) : string :=
  match x with
  | Some s => if String.eqb s "" then d else s
  | None => d
  end.

(** Decimal rendering of a number inside a template literal. *)
Definition showZ (z : Z) : string := NilZero.string_of_int (Z.to_int z).

(** ** Errors *)

(** An [Error] object; only its [message] is ever inspected. *)
Record Error := mkError { message : string }.

(** What a [throw] carries: an [Error], or the value [undefined] that
    [throw lastError!] would raise had no attempt been made. *)
Inductive Thrown :=
| ErrorObject (e : Error)
| UndefinedValue.

(** Outcome of awaiting a promise. *)
Inductive Outcome (A : Type) :=
| Returned (a : A)
| Raised (t : Thrown).
Arguments Returned {A} a.
Arguments Raised {A} t.

(** ** Configuration of the adapter ([QdrantConfig] and its parts) *)

Inductive QuantizationType := scalar | binary | product.

Record QdrantQuantizationConfig := {
  qq_type : QuantizationType;
  qq_quantile : option Q;
  qq_always_ram : option bool;
  qq_compression : option Z;
  qq_oversampling : option Q
}.

Record QdrantHNSWConfig := {
  qh_m : option Z;
  qh_ef_construct : option Z;
  qh_full_scan_threshold : option Z;
  qh_on_disk : option bool
}.

Inductive SparseDatatype := float32 | uint8.

Record QdrantSparseIndexConfig := {
  qs_on_disk : option bool;
  qs_datatype : option SparseDatatype
}.

Record QdrantBM25Config := {
  qb_k1 : option Q;
  qb_b : option Q;
  qb_min_word_len : option Z;
  qb_max_vocab_size : option Z
}.

Record QdrantIndexing := {
  ix_hnsw : option QdrantHNSWConfig;
  ix_sparse : option QdrantSparseIndexConfig
}.

Record QdrantConfig := {
  cfg_url : string;
  cfg_apiKey : option string;
  cfg_timeout : option Z;
  cfg_quantization : option QdrantQuantizationConfig;
  cfg_indexing : option QdrantIndexing;
  cfg_bm25 : option QdrantBM25Config;
  cfg_vocabularyPath : option string
}.

(** ** Payloads exchanged with the remote service *)

(** The [hnsw_config] block of a vector space. *)
Record HnswConfig := {
  hnsw_m : Z;
  hnsw_ef_construct : Z;
  hnsw_full_scan_threshold : Z;
  hnsw_on_disk : bool
}.

(** The [quantization_config] block: [{scalar: {type: 'int8', quantile,
    always_ram}}] or [{binary: {always_ram}}]. *)
Inductive QuantizationConfig :=
| ScalarInt8 (quantile : Q) (always_ram : bool)
| Binary (always_ram : bool).

(** A dense vector space: [{size, distance: 'Cosine', hnsw_config?,
    quantization_config?}]. *)
Record VectorParams := {
  vp_size : Z;
  vp_distance : string;
  vp_hnsw_config : option HnswConfig;
  vp_quantization_config : option QuantizationConfig
}.

(** A sparse vector space: [{modifier, index: {on_disk, datatype?}}]. *)
Record SparseVectorParams := {
  svp_modifier : string;
  svp_on_disk : bool;
  svp_datatype : option SparseDatatype
}.

(** The [vectors] member: one anonymous space, or spaces by name. *)
Inductive VectorsConfig :=
| SingleSpace (params : VectorParams)
| NamedSpaces (spaces : list (string * VectorParams)).

(** The payload of a create-collection call. *)
Record CollectionConfig := {
  cc_vectors : VectorsConfig;
  cc_sparse_vectors : option (list (string * SparseVectorParams));
  cc_shard_number : Z;
  cc_replication_factor : Z
}.

(** A value stored in a point's payload. *)
Inductive PayloadValue :=
| PString (s : string)
| PNumber (n : Z)
| PJson (text : string).

(** [{ indices, values }]: the result of [generateSparseVector]. *)
Record SparseVector := {
  sv_indices : list Z;
  sv_values : list Z
}.

(** The [vector] member of a point of a hybrid collection:
    [{dense, sparse: {indices, values}}]. *)
Record HybridVector := {
  hv_dense : list Q;
  hv_sparse : SparseVector
}.

Record PointStruct := {
  pt_id : string;
  pt_vector : HybridVector;
  pt_payload : gmap string PayloadValue
}.

(** Modelled from the spec: the filter predicates are declared in
    [vectordb/types], which is not among the sources; the design document
    calls them opaque structured objects in the remote engine's filter
    grammar (membership, equality), as [buildExtensionFilter] and
    [buildPathFilter] produce them. An object is truthy whatever it holds. *)
Inductive FilterCondition :=
| MatchAny (key : string) (any : list string)
| MatchValue (key : string) (value : string).

Record QdrantFilter := { must : list FilterCondition }.

(** The [vector] member of a search request. *)
Inductive SearchVector :=
| PlainVector (v : list Q)
| NamedVector (name : string) (v : list Q).

Record SearchRequest := {
  sr_vector : SearchVector;
  sr_limit : Z;
  sr_with_payload : bool;
  sr_filter : option QdrantFilter
}.

(** The [query] member of a prefetch: a dense vector or a sparse one. *)
Inductive PrefetchQuery :=
| DenseQuery (v : list Q)
| SparseQuery (indices values : list Z).

Record Prefetch := {
  pf_prefetch : list unit;
  pf_query : PrefetchQuery;
  pf_using : string;
  pf_limit : Z;
  pf_with_payload : bool
}.

(** The request of the Query API: [{prefetch, query: {fusion}, limit,
    with_payload, filter?}]. *)
Record QueryRequest := {
  qr_prefetch : list Prefetch;
  qr_fusion : string;
  qr_limit : Z;
  qr_with_payload : bool;
  qr_filter : option QdrantFilter
}.

(** What [getCollection] answers, as far as the adapter reads it: the key
    names of [config.params.sparse_vectors] and of [config.sparse_vectors]
    when those objects are there, and [points_count]. *)
Record CollectionParamsInfo := { cpi_sparse_vectors : option (list string) }.

Record CollectionConfigInfo := {
  cci_params : option CollectionParamsInfo;
  cci_sparse_vectors : option (list string)
}.

Record CollectionInfo := {
  ci_config : option CollectionConfigInfo;
  ci_points_count : option Z
}.

Record UpdateResult := { ur_status : string }.

Inductive PointId :=
| IdString (s : string)
| IdNumber (n : Z).

Record ScoredPoint := {
  sp_id : PointId;
  sp_score : option Q;
  sp_payload : option (gmap string PayloadValue)
}.

(** The answer of the Query API: an array of points, or an object that may
    have a [points] member. *)
Inductive QueryResponse :=
| PointArray (points : list ScoredPoint)
| PointsObject (points : option (list ScoredPoint)).

(** ** Documents, requests and results of the adapter's interface *)

(** [doc.vector] as [insertHybrid] finds it at run time: an array, or
    anything else (absent, a string, ...). *)
Inductive VectorField :=
| VectorArray (v : list Q)
| NotAnArray.

(** Modelled from the spec: [VectorDocument] is declared in
    [vectordb/types], which is not among the sources; the fields are the
    ones of the design document's Document and the ones the adapter reads. *)
Record VectorDocument := {
  doc_id : string;
  doc_vector : VectorField;
  doc_content : string;
  doc_relativePath : string;
  doc_startLine : Z;
  doc_endLine : Z;
  doc_fileExtension : string;
  doc_metadata : gmap string PayloadValue
}.

(** Modelled from the spec: [SearchOptions] of [vectordb/types], as far as
    [search] reads it. *)
Record SearchOptions := {
  so_topK : option Z;
  so_filterExpr : option QdrantFilter
}.

(** [request.data]: [number[] | string]. *)
Inductive RequestData :=
| VectorData (v : list Q)
| TextData (s : string).

(** Modelled from the spec: [HybridSearchRequest] of [vectordb/types], as
    far as [hybridSearch] reads it. *)
Record HybridSearchRequest := {
  hr_data : RequestData;
  hr_anns_field : string;
  hr_limit : Z
}.

(** Modelled from the spec: [HybridSearchOptions] of [vectordb/types], as
    far as [hybridSearch] reads it. *)
Record HybridSearchOptions := {
  ho_limit : option Z;
  ho_filterExpr : option QdrantFilter
}.

(** The document of a search result: the vector is left empty, the five
    well-known fields are read from the payload as they are, every other
    payload key is metadata. *)
Record ResultDocument := {
  rd_id : string;
  rd_vector : list Q;
  rd_content : option PayloadValue;
  rd_relativePath : option PayloadValue;
  rd_startLine : option PayloadValue;
  rd_endLine : option PayloadValue;
  rd_fileExtension : option PayloadValue;
  rd_metadata : gmap string PayloadValue
}.

Record VectorSearchResult := {
  res_document : ResultDocument;
  res_score : Q
}.

(** ** The outside world *)

(** What [JSON.parse] finds under [vocabulary] in a file that has no
    table there: nothing ([undefined] or [null], as also when the parsed
    value is [null] or has no members at all), on which [Object.entries]
    throws; or a number or a boolean, which has no entries. *)
Inductive VocabularyMember :=
| MissingMember
| ScalarMember.

(** What a path of the file system holds. A file is kept as what
    [fs.readFileSync] and [JSON.parse] make of it, as far as
    [loadVocabulary] looks: [UnreadableFile] cannot be read, [CorruptFile]
    is a text that is not JSON, [SnapshotFile] is JSON with a table of
    numbers under [vocabulary] and possibly a [nextIndex], and
    [PlainJson] is JSON with no table under [vocabulary], with its
    [nextIndex] if it has one. Tables whose values are not numbers, and
    counters that are not numbers, are left out. *)
Inductive DiskEntry :=
| Directory
| UnreadableFile
| CorruptFile
| SnapshotFile (vocabulary : gmap string Z) (nextIndex : option Z) (timestamp : string)
| PlainJson (vocabulary : VocabularyMember) (nextIndex : option Z).

(** Observable events, in the order they happen. *)
Inductive Event :=
| CallGetCollection (name : string)
| CallCreateCollection (name : string) (config : CollectionConfig)
| CallUpsert (name : string) (points : list PointStruct)
| CallSearch (name : string) (request : SearchRequest)
| CallQuery (name : string) (request : QueryRequest)
| SetTimeout (ms : Z)
| ReadDoc (text : string)
| ConsoleWarn (notice : string)
| ConsoleError (notice : string)
| MkdirSync (dir : string)
| WriteFileSync (path : string).

Record World := {
  history : list Event;
  disk : gmap string DiskEntry
}.

(** A token of a wink-nlp document: its type, its text and its normal form. *)
Record Token := {
  tok_type : string;
  tok_out : string;
  tok_normal : string
}.

(** The collaborators. A reply of the remote service or of the file system
    is a function of the history, so that any behaviour over time (a
    service that fails twice and then answers, a disk that fills up) is an
    instance. [None] in an [option Thrown] means the call went through. *)
Record Env := {
  env_readDoc : string -> list Token;
  env_homedir : string;
  env_now : list Event -> string;
  env_newClient : string -> option string -> option Thrown;
  env_getCollection : list Event -> string -> Thrown + CollectionInfo;
  env_createCollection : list Event -> string -> CollectionConfig -> option Thrown;
  env_upsert : list Event -> string -> list PointStruct -> Thrown + option UpdateResult;
  env_search : list Event -> string -> SearchRequest -> Thrown + list ScoredPoint;
  env_query : list Event -> string -> QueryRequest -> Thrown + QueryResponse;
  env_mkdirSync : list Event -> string -> option Thrown;
  env_writeFileSync : list Event -> string -> option Thrown
}.

Definition record (e : Event) (w : World) : World :=
  {| history := history w ++ [e]; disk := disk w |}.

Definition store (path : string) (entry : DiskEntry) (w : World) : World :=
  {| history := history w; disk := <[path := entry]> (disk w) |}.

(** [path.dirname] for paths with [/] separators. *)
Definition dirname (p : string) : string :=
  match rev (split "/" p) with
  | _ :: (_ :: _) as parents =>
      let d := String.concat "/" (rev parents) in
      if String.eqb d "" then "/" else d
  | _ => "."
  end.

(** ** BM25Tokenizer *)

(** The fields of a tokenizer object; [nlp] is the pipeline of [Env]. *)
Record BM25Tokenizer := {
  vocabulary : gmap string Z;
  nextIndex : Z;
  vocabularyPath : option string
}.

(** [tokenize]: the normal forms of the word tokens of at least two
    characters, in text order. Reading the document is an event. *)
Definition tokenize (env : Env) (text : string) (w : World) : list string * World :=
  (map tok_normal
     (List.filter (fun t => String.eqb (tok_type t) "word" && (2 <=? jsLength (tok_out t))%nat)
        (env_readDoc env text)),
   record (ReadDoc text) w).

(** [Map.prototype.get] on a [Map] kept as the list of its entries in
    insertion order. *)
Fixpoint mapGet (entries : list (string * Z)) (key : string) : option Z :=
  match entries with
  | [] => None
  | (k, v) :: rest => if String.eqb k key then Some v else mapGet rest key
  end.

(** [Map.prototype.set]: an existing key keeps its place, a new key goes
    last. *)
Fixpoint mapSet (entries : list (string * Z)) (key : string) (value : Z) : list (string * Z) :=
  match entries with
  | [] => [(key, value)]
  | (k, v) :: rest =>
      if String.eqb k key then (k, value) :: rest
      else (k, v) :: mapSet rest key value
  end.

(** The first loop of [generateSparseVector]:
    [termFreqs.set(token, (termFreqs.get(token) || 0) + 1)]. *)
Definition termFrequencies (tokens : list string) : list (string * Z) :=
  fold_left (fun termFreqs token => mapSet termFreqs token (orNumber (mapGet termFreqs token) 0 + 1))
    tokens [].

(** Get or assign the vocabulary index of [word]: an absent word takes
    [nextIndex], which is then incremented. *)
Definition indexOf (t : BM25Tokenizer) (word : string) : Z * BM25Tokenizer :=
  match vocabulary t !! word with
  | Some index => (index, t)
  | None =>
      (nextIndex t,
       {| vocabulary := <[word := nextIndex t]> (vocabulary t);
          nextIndex := nextIndex t + 1;
          vocabularyPath := vocabularyPath t |})
  end.

(** The second loop of [generateSparseVector], over the entries of
    [termFreqs]. *)
Fixpoint toSparse (entries : list (string * Z)) (t : BM25Tokenizer) (indices values : list Z)
  : SparseVector * BM25Tokenizer :=
  match entries with
  | [] => ({| sv_indices := indices; sv_values := values |}, t)
  | (word, tf) :: rest =>
      let (index, t') := indexOf t word in
      toSparse rest t' (indices ++ [index]) (values ++ [tf])
  end.

Definition emptySparse : SparseVector := {| sv_indices := []; sv_values := [] |}.

Definition generateSparseVector (env : Env) (text : string) (t : BM25Tokenizer) (w : World)
  : SparseVector * BM25Tokenizer * World :=
  if String.eqb text "" || isBlank text then (emptySparse, t, w)
  else
    let (tokens, w') := tokenize env text w in
    let termFreqs := termFrequencies tokens in
    if (length termFreqs =? 0)%nat then (emptySparse, t, w')
    else
      let (sparse, t') := toSparse termFreqs t [] [] in
      (sparse, t', w').

(** [loadVocabulary]. A path that is not there leaves the tokenizer as it
    is. Inside the [try], reading the file, parsing it and taking
    [Object.entries] of its [vocabulary] member may each throw, which
    resets the tokenizer with a warning. A number or a boolean under
    [vocabulary] has no entries and is loaded as the empty table, without
    a warning. The counter is [vocabData.nextIndex || this.vocabulary.size]. *)
Definition loadVocabulary (t : BM25Tokenizer) (w : World) : BM25Tokenizer * World :=
  match vocabularyPath t with
  | None => (t, w)
  | Some path =>
      if String.eqb path "" then (t, w)
      else match disk w !! path with
           | None => (t, w)
           | Some (SnapshotFile vocab next _) =>
               ({| vocabulary := vocab;
                   nextIndex := orNumber next (Z.of_nat (size vocab));
                   vocabularyPath := vocabularyPath t |}, w)
           | Some (PlainJson ScalarMember next) =>
               ({| vocabulary := ∅;
                   nextIndex := orNumber next 0;
                   vocabularyPath := vocabularyPath t |}, w)
           | Some _ =>
               ({| vocabulary := ∅; nextIndex := 0; vocabularyPath := vocabularyPath t |},
                record (ConsoleWarn "[BM25Tokenizer] Failed to load vocabulary") w)
           end
  end.

(** [new BM25Tokenizer(vocabularyPath)]; loading the wink-nlp model is
    taken to succeed. *)
Definition newBM25Tokenizer (path : option string) (w : World) : BM25Tokenizer * World :=
  let t := {| vocabulary := ∅; nextIndex := 0; vocabularyPath := path |} in
  match path with
  | Some p => if String.eqb p "" then (t, w) else loadVocabulary t w
  | None => (t, w)
  end.

(** [saveVocabulary]: every failure inside the [try] ends in
    [console.error] and a normal return. *)
Definition saveVocabulary (env : Env) (t : BM25Tokenizer) (w : World) : World :=
  let failed := ConsoleError "[BM25Tokenizer] Failed to save vocabulary" in
  match vocabularyPath t with
  | None => w
  | Some path =>
      if String.eqb path "" then w
      else
        let dir := dirname path in
        let made :=
          match disk w !! dir with
          | Some _ => inr w
          | None =>
              let w1 := record (MkdirSync dir) w in
              match env_mkdirSync env (history w) dir with
              | Some thrown => inl w1
              | None => inr (store dir Directory w1)
              end
          end in
        match made with
        | inl w1 => record failed w1
        | inr w1 =>
            let w2 := record (WriteFileSync path) w1 in
            match env_writeFileSync env (history w1) path with
            | Some thrown => record failed w2
            | None =>
                store path
                  (SnapshotFile (vocabulary t) (Some (nextIndex t)) (env_now env (history w1)))
                  w2
            end
        end
  end.

(** ** QdrantVectorDatabase: state and effects *)

Record QdrantClient := {
  client_url : string;
  client_apiKey : option string
}.

(** A settled promise of no value. *)
Inductive Settled :=
| Fulfilled
| Rejected (reason : Thrown).

Record QdrantVectorDatabase := {
  client : option QdrantClient;
  config : QdrantConfig;
  tokenizers : gmap string BM25Tokenizer;
  initializationPromise : Settled
}.

(** What a method runs on: the object and the world around it. *)
Record State := {
  this : QdrantVectorDatabase;
  world : World
}.

(** An asynchronous computation, awaited to its end. *)
Definition M (A : Type) : Type := State -> Outcome A * State.

Definition ret {A : Type} (a : A) : M A := fun s => (Returned a, s).

Definition throw {A : Type} (t : Thrown) : M A := fun s => (Raised t, s).

Definition bind {A B : Type} (m : M A) (k : A -> M B) : M B :=
  fun s =>
    match m s with
    | (Returned a, s') => k a s'
    | (Raised t, s') => (Raised t, s')
    end.

(** [try { body } catch (error) { handler }]. *)
Definition tryCatch {A : Type} (body : M A) (handler : Thrown -> M A) : M A :=
  fun s =>
    match body s with
    | (Returned a, s') => (Returned a, s')
    | (Raised t, s') => handler t s'
    end.

Declare Scope async_scope.
Delimit Scope async_scope with async.
Notation "x <- m ;; k" := (bind m (fun x => k))
  (at level 100, m at next level, right associativity) : async_scope.
Notation "m ;; k" := (bind m (fun _ => k))
  (at level 100, right associativity) : async_scope.
Open Scope async_scope.

Definition newError {A : Type} (msg : string) : M A := throw (ErrorObject (mkError msg)).

Definition setWorld (w : World) (s : State) : State := {| this := this s; world := w |}.

Definition setTokenizers (ts : gmap string BM25Tokenizer) (s : State) : State :=
  {| this := {| client := client (this s);
                config := config (this s);
                tokenizers := ts;
                initializationPromise := initializationPromise (this s) |};
     world := world s |}.

Definition emit (e : Event) : M unit :=
  fun s => (Returned tt, setWorld (record e (world s)) s).

(** The state once a timer of [ms] milliseconds has run out. *)
Definition asleep (ms : Z) (s : State) : State := snd (emit (SetTimeout ms) s).

(** A call through [this.client!]: the event is recorded and the reply is
    the one the service gives after the history so far. *)
Definition clientCall {A : Type} (e : Event) (reply : list Event -> Thrown + A) : M A :=
  fun s =>
    match client (this s) with
    | None => (Raised (ErrorObject (mkError "Cannot read properties of null")), s)
    | Some _ =>
        match reply (history (world s)) with
        | inl thrown => (Raised thrown, setWorld (record e (world s)) s)
        | inr a => (Returned a, setWorld (record e (world s)) s)
        end
    end.

(** [initialize], run by the constructor: the client is set unless its
    construction throws, which rejects the initialization promise. *)
Definition newQdrantVectorDatabase (env : Env) (cfg : QdrantConfig) : QdrantVectorDatabase :=
  match env_newClient env (cfg_url cfg) (cfg_apiKey cfg) with
  | None =>
      {| client := Some {| client_url := cfg_url cfg; client_apiKey := cfg_apiKey cfg |};
         config := cfg;
         tokenizers := ∅;
         initializationPromise := Fulfilled |}
  | Some thrown =>
      {| client := None;
         config := cfg;
         tokenizers := ∅;
         initializationPromise := Rejected thrown |}
  end.

Definition ensureInitialized : M unit :=
  fun s =>
    match initializationPromise (this s) with
    | Rejected reason => (Raised reason, s)
    | Fulfilled =>
        match client (this s) with
        | None => newError "QdrantClient is not initialized." s
        | Some _ => (Returned tt, s)
        end
    end.

(** ** withRetry *)

(** The errors [withRetry] does not retry. *)
Definition isTerminal (e : Error) : bool :=
  includes (message e) "already exists" || includes (message e) "not found".

(** The [for] loop of [withRetry]. [remaining] counts the iterations the
    loop condition [attempt <= maxRetries] still admits; when none is
    left the statement after the loop, [throw lastError!], runs. Reading
    [message] off a thrown [undefined] is a [TypeError]. *)
Fixpoint retryLoop {T : Type} (operation : M T) (maxRetries : Z) (remaining : nat)
  (attempt delay : Z) (lastError : Thrown) : M T :=
  match remaining with
  | O => throw lastError
  | S remaining' =>
      tryCatch operation (fun error =>
        match error with
        | UndefinedValue => newError "Cannot read properties of undefined (reading 'message')"
        | ErrorObject e =>
            if isTerminal e || (attempt =? maxRetries) then throw error
            else
              emit (SetTimeout delay) ;;
              retryLoop operation maxRetries remaining' (attempt + 1) (delay * 2) error
        end)
  end.

Definition withRetry {T : Type} (operation : M T) (operationName : string)
  (maxRetries initialDelay : option Z) : M T :=
  let maxRetries := nullish maxRetries 3 in
  let initialDelay := nullish initialDelay 1000 in
  retryLoop operation maxRetries (Z.to_nat maxRetries) 1 initialDelay UndefinedValue.

(** ** Collection configuration *)

(** The [hnsw_config] block built from the configured HNSW options. *)
Definition hnswBlock (h : QdrantHNSWConfig) : HnswConfig :=
  {| hnsw_m := orNumber (qh_m h) 16;
     hnsw_ef_construct := orNumber (qh_ef_construct h) 100;
     hnsw_full_scan_threshold := orNumber (qh_full_scan_threshold h) 10000;
     hnsw_on_disk := orFalse (qh_on_disk h) |}.

(** The [quantization_config] block; the type [product] adds none. *)
Definition quantizationBlock (q : QdrantQuantizationConfig) : option QuantizationConfig :=
  match qq_type q with
  | scalar => Some (ScalarInt8 (orRational (qq_quantile q) (99 # 100)) (orFalse (qq_always_ram q)))
  | binary => Some (Binary (orFalse (qq_always_ram q)))
  | product => None
  end.

(** [vectorConfig] of [createCollection] and [denseVectorConfig] of
    [createHybridCollection]: the optional blocks are added only when the
    configuration specifies them. *)
Definition vectorConfig (cfg : QdrantConfig) (dimension : Z) : VectorParams :=
  {| vp_size := dimension;
     vp_distance := "Cosine";
     vp_hnsw_config :=
       match cfg_indexing cfg with
       | Some ix =>
           match ix_hnsw ix with
           | Some h => Some (hnswBlock h)
           | None => None
           end
       | None => None
       end;
     vp_quantization_config :=
       match cfg_quantization cfg with
       | Some q => quantizationBlock q
       | None => None
       end |}.

(** [collectionConfig] of [createCollection]. *)
Definition collectionConfig (cfg : QdrantConfig) (dimension : Z) : CollectionConfig :=
  {| cc_vectors := SingleSpace (vectorConfig cfg dimension);
     cc_sparse_vectors := None;
     cc_shard_number := 1;
     cc_replication_factor := 1 |}.

(** [sparseVectorConfig] of [createHybridCollection]. *)
Definition sparseVectorConfig (cfg : QdrantConfig) : SparseVectorParams :=
  let sparse :=
    match cfg_indexing cfg with
    | Some ix => ix_sparse ix
    | None => None
    end in
  {| svp_modifier := "idf";
     svp_on_disk := nullish (match sparse with Some sp => qs_on_disk sp | None => None end) true;
     svp_datatype := match sparse with Some sp => qs_datatype sp | None => None end |}.

(** [collectionConfig] of [createHybridCollection]. *)
Definition hybridCollectionConfig (cfg : QdrantConfig) (dimension : Z) : CollectionConfig :=
  {| cc_vectors := NamedSpaces [("dense", vectorConfig cfg dimension)];
     cc_sparse_vectors := Some [("sparse", sparseVectorConfig cfg)];
     cc_shard_number := 1;
     cc_replication_factor := 1 |}.

Definition replyOfFailure (failure : option Thrown) : Thrown + unit :=
  match failure with
  | Some thrown => inl thrown
  | None => inr tt
  end.

(** [this.client!.createCollection(collectionName, collectionConfig)]. *)
Definition remoteCreate (env : Env) (collectionName : string) (cc : CollectionConfig) : M unit :=
  clientCall (CallCreateCollection collectionName cc)
    (fun h => replyOfFailure (env_createCollection env h collectionName cc)).

Definition createCollection (env : Env) (collectionName : string) (dimension : Z) : M unit :=
  ensureInitialized ;;
  tryCatch
    (fun s =>
       withRetry (remoteCreate env collectionName (collectionConfig (config (this s)) dimension))
         ("Create collection '" ++ collectionName ++ "'") None None s)
    (fun error =>
       emit (ConsoleError "[QdrantDB] Failed to create collection") ;;
       throw error).

Definition createHybridCollection (env : Env) (collectionName : string) (dimension : Z) : M unit :=
  ensureInitialized ;;
  tryCatch
    (fun s =>
       withRetry (remoteCreate env collectionName (hybridCollectionConfig (config (this s)) dimension))
         ("Create hybrid collection '" ++ collectionName ++ "'") None None s)
    (fun error =>
       emit (ConsoleError "[QdrantDB] Failed to create optimized hybrid collection") ;;
       throw error).

(** [this.client!.getCollection(collectionName)]. *)
Definition remoteGetCollection (env : Env) (collectionName : string) : M CollectionInfo :=
  clientCall (CallGetCollection collectionName) (fun h => env_getCollection env h collectionName).

Definition hasCollection (env : Env) (collectionName : string) : M bool :=
  ensureInitialized ;;
  tryCatch
    (remoteGetCollection env collectionName ;; ret true)
    (fun _ => ret false).

(** ** The tokenizer registry *)

(** [getVocabularyPathFromCollection]: the file
    [vocabulary-<hash>.json] under [<home>/.context/vocabulary], where
    [<hash>] is the last [_]-separated part of the collection name. *)
Definition getVocabularyPathFromCollection (env : Env) (collectionName : string) : string :=
  let vocabularyDir := (env_homedir env ++ "/.context/vocabulary")%string in
  let collectionHash := List.last (split "_" collectionName) "" in
  (vocabularyDir ++ "/" ++ "vocabulary-" ++ collectionHash ++ ".json")%string.

(** [getTokenizer]: the tokenizer registered for the collection, created
    (and its vocabulary loaded) on first use. *)
Definition getTokenizer (env : Env) (collectionName : string) : M BM25Tokenizer :=
  fun s =>
    match tokenizers (this s) !! collectionName with
    | Some t => (Returned t, s)
    | None =>
        let vocabularyPath :=
          orString (cfg_vocabularyPath (config (this s)))
            (getVocabularyPathFromCollection env collectionName) in
        let (t, w) := newBM25Tokenizer (Some vocabularyPath) (world s) in
        (Returned t, setTokenizers (<[collectionName := t]> (tokenizers (this s))) (setWorld w s))
    end.

(** [this.getTokenizer(collectionName).generateSparseVector(text)]: the
    tokenizer is an object shared through the registry, so what the call
    does to its vocabulary stays in the registry. *)
Definition tokenizerGenerate (env : Env) (collectionName text : string) : M SparseVector :=
  t <- getTokenizer env collectionName ;;
  fun s =>
    let '(sparse, t', w) := generateSparseVector env text t (world s) in
    (Returned sparse,
     setTokenizers (<[collectionName := t']> (tokenizers (this s))) (setWorld w s)).

(** [this.getTokenizer(collectionName).saveVocabulary()]. *)
Definition tokenizerSave (env : Env) (collectionName : string) : M unit :=
  t <- getTokenizer env collectionName ;;
  fun s => (Returned tt, setWorld (saveVocabulary env t (world s)) s).

(** ** insertHybrid *)

(** [hasSparseName]: the collection's sparse vector spaces, read from
    [config.params.sparse_vectors] or else [config.sparse_vectors], have a
    space called [sparse]. *)
Definition hasSparseName (info : CollectionInfo) : bool :=
  let sparseVectors :=
    match ci_config info with
    | None => None
    | Some c =>
        match (match cci_params c with
               | Some p => cpi_sparse_vectors p
               | None => None
               end) with
        | Some keys => Some keys
        | None => cci_sparse_vectors c
        end
    end in
  match sparseVectors with
  | Some keys => existsb (String.eqb "sparse") keys
  | None => false
  end.

(** The payload of a point: the five document fields, then the metadata
    without its [sparseVector] key; a metadata key spread later wins over
    a field of the same name. *)
Definition pointPayload (doc : VectorDocument) : gmap string PayloadValue :=
  delete "sparseVector" (doc_metadata doc) ∪
  <["content" := PString (doc_content doc)]>
    (<["relativePath" := PString (doc_relativePath doc)]>
       (<["startLine" := PNumber (doc_startLine doc)]>
          (<["endLine" := PNumber (doc_endLine doc)]>
             (<["fileExtension" := PString (doc_fileExtension doc)]> ∅)))).

(** [documents.map((doc, index) => ...)]: the callback validates the dense
    vector, encodes the content and builds the point; the first document
    it rejects ends the whole mapping. *)
Fixpoint hybridPoints (env : Env) (collectionName : string) (documents : list VectorDocument)
  (index : Z) : M (list PointStruct) :=
  match documents with
  | [] => ret []
  | doc :: rest =>
      match doc_vector doc with
      | NotAnArray =>
          emit (ConsoleError "[QdrantDB] Document has invalid vector") ;;
          newError ("Document " ++ showZ index ++ " (" ++ doc_id doc ++ ") has non-array vector")
      | VectorArray v =>
          if (length v =? 0)%nat then
            emit (ConsoleError "[QdrantDB] Document has empty vector") ;;
            newError ("Document " ++ showZ index ++ " (" ++ doc_id doc ++ ") has empty vector")
          else
            sparseVector <- tokenizerGenerate env collectionName (doc_content doc) ;;
            points <- hybridPoints env collectionName rest (index + 1) ;;
            ret ({| pt_id := doc_id doc;
                    pt_vector := {| hv_dense := v; hv_sparse := sparseVector |};
                    pt_payload := pointPayload doc |} :: points)
      end
  end.

(** [this.client!.upsert(collectionName, { points })]. *)
Definition remoteUpsert (env : Env) (collectionName : string) (points : list PointStruct)
  : M (option UpdateResult) :=
  clientCall (CallUpsert collectionName points) (fun h => env_upsert env h collectionName points).

(** [result && (result.status === 'acknowledged' || result.status === 'completed')]. *)
Definition accepted (result : option UpdateResult) : bool :=
  match result with
  | Some r => String.eqb (ur_status r) "acknowledged" || String.eqb (ur_status r) "completed"
  | None => false
  end.

(** The [try] block of [insertHybrid]. *)
Definition insertHybridTry (env : Env) (collectionName : string)
  (documents : list VectorDocument) : M unit :=
  collectionExists <- hasCollection env collectionName ;;
  (if negb collectionExists
   then newError ("Collection '" ++ collectionName ++ "' does not exist")
   else ret tt) ;;
  collectionInfo <- remoteGetCollection env collectionName ;;
  (if negb (hasSparseName collectionInfo)
   then newError ("Collection '" ++ collectionName ++
                  "' exists but does not support sparse vectors. Please use createHybridCollection() or delete and recreate the collection.")
   else ret tt) ;;
  points <- hybridPoints env collectionName documents 0 ;;
  result <- remoteUpsert env collectionName points ;;
  if accepted result then
    tryCatch
      (remoteGetCollection env collectionName ;; ret tt)
      (fun checkError => emit (ConsoleWarn "[QdrantDB] Failed to verify points count")) ;;
    tokenizerSave env collectionName
  else
    emit (ConsoleWarn "[QdrantDB] Unexpected Qdrant response").

(** The [catch] block of [insertHybrid]: the error is logged with what
    was being inserted and thrown again. *)
Definition insertHybridCatch (documents : list VectorDocument) (error : Thrown) : M unit :=
  emit (ConsoleError "[QdrantDB] Failed to insert hybrid documents into collection") ;;
  emit (ConsoleError "[QdrantDB] Attempted to insert documents") ;;
  (if (0 <? length documents)%nat
   then emit (ConsoleError "[QdrantDB] First document details")
   else ret tt) ;;
  throw error.

Definition insertHybrid (env : Env) (collectionName : string) (documents : list VectorDocument)
  : M unit :=
  if (length documents =? 0)%nat then ret tt
  else
    ensureInitialized ;;
    tryCatch (insertHybridTry env collectionName documents) (insertHybridCatch documents).

(** ** search and hybridSearch *)

Definition idToString (i : PointId) : string :=
  match i with
  | IdString s => s
  | IdNumber n => showZ n
  end.

(** [extractMetadata]: the payload without the five document fields. *)
Definition extractMetadata (payload : gmap string PayloadValue) : gmap string PayloadValue :=
  delete "content"
    (delete "relativePath"
       (delete "startLine"
          (delete "endLine"
             (delete "fileExtension" payload)))).

(** The mapping of a scored point to a result, shared by [search] and
    [hybridSearch]. *)
Definition toResult (point : ScoredPoint) : VectorSearchResult :=
  let field (key : string) : option PayloadValue :=
    match sp_payload point with
    | Some payload => payload !! key
    | None => None
    end in
  {| res_document :=
       {| rd_id := idToString (sp_id point);
          rd_vector := [];
          rd_content := field "content";
          rd_relativePath := field "relativePath";
          rd_startLine := field "startLine";
          rd_endLine := field "endLine";
          rd_fileExtension := field "fileExtension";
          rd_metadata := extractMetadata (nullish (sp_payload point) ∅) |};
     res_score := orRational (sp_score point) 0 |}.

(** [searchRequest] of [search]: a collection whose name starts with
    [hybrid_] is asked through its named dense space. *)
Definition searchRequest (collectionName : string) (queryVector : list Q)
  (options : option SearchOptions) : SearchRequest :=
  let isHybridCollection := startsWith collectionName "hybrid_" in
  {| sr_vector :=
       if isHybridCollection then NamedVector "dense" queryVector else PlainVector queryVector;
     sr_limit := orNumber (match options with Some o => so_topK o | None => None end) 10;
     sr_with_payload := true;
     sr_filter := match options with Some o => so_filterExpr o | None => None end |}.

Definition search (env : Env) (collectionName : string) (queryVector : list Q)
  (options : option SearchOptions) : M (list VectorSearchResult) :=
  ensureInitialized ;;
  tryCatch
    (let request := searchRequest collectionName queryVector options in
     result <- clientCall (CallSearch collectionName request)
                 (fun h => env_search env h collectionName request) ;;
     ret (map toResult result))
    (fun error =>
       emit (ConsoleError "[QdrantDB] Failed to search collection") ;;
       throw error).

(** [Math.max(request.limit * 3, 100)]. *)
Definition prefetchLimit (request : HybridSearchRequest) : Z := Z.max (hr_limit request * 3) 100.

(** The loop of [hybridSearch] that fills [prefetchQueries], one entry per
    request and in the order of the requests. *)
Fixpoint prefetchQueries (env : Env) (collectionName : string)
  (searchRequests : list HybridSearchRequest) : M (list Prefetch) :=
  match searchRequests with
  | [] => ret []
  | request :: rest =>
      let isDenseVector :=
        String.eqb (hr_anns_field request) "vector" || String.eqb (hr_anns_field request) "dense" in
      entry <-
        (if isDenseVector then
           let queryVector := match hr_data request with VectorData v => v | TextData _ => [] end in
           ret {| pf_prefetch := [];
                  pf_query := DenseQuery queryVector;
                  pf_using := "dense";
                  pf_limit := prefetchLimit request;
                  pf_with_payload := true |}
         else
           let queryText := match hr_data request with TextData s => s | VectorData _ => "" end in
           querySparseVector <- tokenizerGenerate env collectionName queryText ;;
           ret {| pf_prefetch := [];
                  pf_query := SparseQuery (sv_indices querySparseVector) (sv_values querySparseVector);
                  pf_using := "sparse";
                  pf_limit := prefetchLimit request;
                  pf_with_payload := true |}) ;;
      entries <- prefetchQueries env collectionName rest ;;
      ret (entry :: entries)
  end.

(** [queryRequest] of [hybridSearch]. *)
Definition queryRequest (prefetch : list Prefetch) (options : option HybridSearchOptions)
  : QueryRequest :=
  {| qr_prefetch := prefetch;
     qr_fusion := "rrf";
     qr_limit := orNumber (match options with Some o => ho_limit o | None => None end) 10;
     qr_with_payload := true;
     qr_filter := match options with Some o => ho_filterExpr o | None => None end |}.

Definition hybridSearch (env : Env) (collectionName : string)
  (searchRequests : list HybridSearchRequest) (options : option HybridSearchOptions)
  : M (list VectorSearchResult) :=
  ensureInitialized ;;
  tryCatch
    (if (length searchRequests =? 0)%nat then ret []
     else
       prefetch <- prefetchQueries env collectionName searchRequests ;;
       let request := queryRequest prefetch options in
       queryResult <- clientCall (CallQuery collectionName request)
                        (fun h => env_query env h collectionName request) ;;
       let result :=
         match queryResult with
         | PointArray points => points
         | PointsObject points => nullish points []
         end in
       ret (map toResult result))
    (fun error =>
       emit (ConsoleError "[QdrantDB] Failed to perform native hybrid search") ;;
       throw error).

(** ** Vocabulary of the statements *)

(** The client was constructed and the initialization promise fulfilled. *)
Definition initialized (s : State) : Prop :=
  initializationPromise (this s) = Fulfilled /\ is_Some (client (this s)).

(** From [s] to [s'] the client, the initialization promise and the
    configuration stay as they are, and the history grows by events that
    all satisfy [P]. *)
Definition grows (P : Event -> Prop) (s s' : State) : Prop :=
  client (this s') = client (this s)
  /\ initializationPromise (this s') = initializationPromise (this s)
  /\ config (this s') = config (this s)
  /\ exists added, history (world s') = history (world s) ++ added /\ Forall P added.

(** Whatever state it starts in, [m] only adds events that satisfy [P]. *)
Definition emitsOnly {A : Type} (P : Event -> Prop) (m : M A) : Prop :=
  forall s, grows P s (snd (m s)).

(** Calls that reach the remote service. *)
Definition isRemoteCall (e : Event) : bool :=
  match e with
  | CallGetCollection _ | CallCreateCollection _ _ | CallUpsert _ _
  | CallSearch _ _ | CallQuery _ _ => true
  | _ => false
  end.

Definition isUpsert (e : Event) : bool :=
  match e with
  | CallUpsert _ _ => true
  | _ => false
  end.

(** Calls that carry sparse vectors: upserts and fused queries. *)
Definition carriesSparse (e : Event) : bool :=
  match e with
  | CallUpsert _ _ | CallQuery _ _ => true
  | _ => false
  end.

(** Events of [saveVocabulary] that touch the file system. *)
Definition isSave (e : Event) : bool :=
  match e with
  | MkdirSync _ | WriteFileSync _ => true
  | _ => false
  end.

Definition isTimer (e : Event) : bool :=
  match e with
  | SetTimeout _ => true
  | _ => false
  end.

(** Events that stay inside the process: reading a text into the
    tokenizer and console notices. *)
Definition isLocal (e : Event) : bool :=
  match e with
  | ReadDoc _ | ConsoleWarn _ | ConsoleError _ => true
  | _ => false
  end.

Definition local (e : Event) : Prop := isLocal e = true.

(** Neither an upsert nor a write of the vocabulary snapshot. *)
Definition quiet (e : Event) : Prop := isUpsert e = false /\ isSave e = false.

(** The errors [insertHybrid] raises about the collection itself. *)
Definition missingCollection (collectionName : string) : Thrown :=
  ErrorObject (mkError ("Collection '" ++ collectionName ++ "' does not exist")).

Definition unsupportedCollection (collectionName : string) : Thrown :=
  ErrorObject
    (mkError
       ("Collection '" ++ collectionName ++
        "' exists but does not support sparse vectors. Please use createHybridCollection() or delete and recreate the collection.")).

(** The request names a dense field. *)
Definition isDenseRequest (request : HybridSearchRequest) : bool :=
  String.eqb (hr_anns_field request) "vector" || String.eqb (hr_anns_field request) "dense".

(** What the prefetch entry of a request has to be: the over-fetched
    candidate pool, and the query vector as it came for a dense field or
    the sparse encoding of the query text for a lexical one. *)
Definition prefetchFor (env : Env) (request : HybridSearchRequest) (entry : Prefetch) : Prop :=
  pf_limit entry = Z.max (hr_limit request * 3) 100
  /\ if isDenseRequest request then
       pf_using entry = "dense"
       /\ pf_query entry
          = DenseQuery (match hr_data request with VectorData v => v | TextData _ => [] end)
     else
       pf_using entry = "sparse"
       /\ exists t w,
            pf_query entry
            = SparseQuery
                (sv_indices
                   (fst (fst (generateSparseVector env
                                (match hr_data request with TextData q => q | VectorData _ => "" end)
                                t w))))
                (sv_values
                   (fst (fst (generateSparseVector env
                                (match hr_data request with TextData q => q | VectorData _ => "" end)
                                t w)))).

(** The dense vector [insertHybrid] rejects: not an array, or empty. *)
Definition invalidVector (doc : VectorDocument) : bool :=
  match doc_vector doc with
  | NotAnArray => true
  | VectorArray v => (length v =? 0)%nat
  end.

(** The error [insertHybrid] raises for the document at [index]. *)
Definition validationError (index : Z) (doc : VectorDocument) : Thrown :=
  ErrorObject
    (mkError
       ("Document " ++ showZ index ++ " (" ++ doc_id doc ++ ") has " ++
        match doc_vector doc with
        | NotAnArray => "non-array vector"
        | VectorArray _ => "empty vector"
        end)).

(** The first document of a batch with an invalid vector, with its
    position. *)
Fixpoint firstInvalid (documents : list VectorDocument) (index : Z)
  : option (Z * VectorDocument) :=
  match documents with
  | [] => None
  | doc :: rest =>
      if invalidVector doc then Some (index, doc) else firstInvalid rest (index + 1)
  end.

(** The distinct tokens of a token stream, each at the place of its first
    occurrence. *)
Fixpoint distinctTokens (tokens : list string) : list string :=
  match tokens with
  | [] => []
  | token :: rest =>
      token :: List.filter (fun other => negb (String.eqb other token)) (distinctTokens rest)
  end.

(** [!termFreqs.has(word)]. *)
Definition absent (entries : list (string * Z)) (word : string) : bool :=
  match mapGet entries word with
  | Some _ => false
  | None => true
  end.

(** The raw term frequency: how often [word] occurs among [tokens]. *)
Definition termFrequency (tokens : list string) (word : string) : Z :=
  Z.of_nat (length (List.filter (String.eqb word) tokens)).

(** The invariant of a vocabulary store: indices lie below [nextIndex]
    and no two terms share one. *)
Definition vocabularyInvariant (t : BM25Tokenizer) : Prop :=
  0 <= nextIndex t
  /\ (forall word index, vocabulary t !! word = Some index -> 0 <= index < nextIndex t)
  /\ (forall word word' index,
        vocabulary t !! word = Some index -> vocabulary t !! word' = Some index -> word = word').

(** The life of a vocabulary store under environment [env]: texts are
    encoded, the vocabulary is saved, anything else happens in the world,
    and the process may restart from the snapshot on disk when that
    snapshot holds the current table. *)
Inductive lifetime (env : Env) : BM25Tokenizer * World -> BM25Tokenizer * World -> Prop :=
| lifetime_refl : forall tw, lifetime env tw tw
| lifetime_encode : forall tw t w text,
    lifetime env tw (t, w) ->
    lifetime env tw (snd (fst (generateSparseVector env text t w)),
                     snd (generateSparseVector env text t w))
| lifetime_save : forall tw t w,
    lifetime env tw (t, w) ->
    lifetime env tw (t, saveVocabulary env t w)
| lifetime_elsewhere : forall tw t w w',
    lifetime env tw (t, w) ->
    lifetime env tw (t, w')
| lifetime_reload : forall tw t w path timestamp,
    lifetime env tw (t, w) ->
    vocabularyPath t = Some path ->
    path <> "" ->
    disk w !! path = Some (SnapshotFile (vocabulary t) (Some (nextIndex t)) timestamp) ->
    lifetime env tw (newBM25Tokenizer (Some path) w).

(** The collection's metadata, as the service reports it after history
    [h], shows a sparse vector space: the test [insertHybrid] applies to
    tell a hybrid collection. *)
Definition reportedHybrid (env : Env) (h : list Event) (collectionName : string) : Prop :=
  exists info, env_getCollection env h collectionName = inr info /\ hasSparseName info = true.

(** ** A concrete environment for examples *)

(** A pipeline that cuts the text at spaces and takes every piece for a
    word in normal form. *)
Definition spaceSeparated (text : string) : list Token :=
  map (fun piece => {| tok_type := "word"; tok_out := piece; tok_normal := piece |})
    (List.filter (fun piece => negb (String.eqb piece "")) (split " " text)).

(** The configuration of the last successful creation of a collection in
    a history, for a service that refuses to create a collection twice. *)
Fixpoint createdConfig (h : list Event) (collectionName : string) : option CollectionConfig :=
  match h with
  | [] => None
  | CallCreateCollection name cc :: rest =>
      if String.eqb name collectionName then Some cc else createdConfig rest collectionName
  | _ :: rest => createdConfig rest collectionName
  end.

Definition notFound : Thrown := ErrorObject (mkError "Collection not found").

(** A well-behaved service over a writable disk: collections exist once
    created, everything else succeeds. The client constructor wants a URL
    with its protocol. *)
Definition healthy : Env :=
  {| env_readDoc := spaceSeparated;
     env_homedir := "/home/user";
     env_now := fun _ => "2025-01-01T00:00:00.000Z";
     env_newClient := fun url _ =>
       if startsWith url "http://" || startsWith url "https://" then None
       else Some (ErrorObject (mkError "The `url` param expects full URL with protocol"));
     env_getCollection := fun h name =>
       match createdConfig h name with
       | Some cc =>
           inr {| ci_config :=
                    Some {| cci_params :=
                              Some {| cpi_sparse_vectors :=
                                        option_map (map fst) (cc_sparse_vectors cc) |};
                            cci_sparse_vectors := None |};
                  ci_points_count := Some 0 |}
       | None => inl notFound
       end;
     env_createCollection := fun h name _ =>
       match createdConfig h name with
       | Some _ => Some (ErrorObject (mkError "Collection already exists"))
       | None => None
       end;
     env_upsert := fun h name _ =>
       match createdConfig h name with
       | Some _ => inr (Some {| ur_status := "completed" |})
       | None => inl notFound
       end;
     env_search := fun _ _ _ => inr [];
     env_query := fun _ _ _ => inr (PointsObject (Some []));
     env_mkdirSync := fun _ _ => None;
     env_writeFileSync := fun _ _ => None |}.

Definition econnreset : Thrown := ErrorObject (mkError "connect ECONNRESET").

Definition countTimers (h : list Event) : nat := length (List.filter isTimer h).

(** The healthy service behind a network that drops every
    create-collection call until two back-off delays have passed. *)
Definition flaky : Env :=
  {| env_readDoc := env_readDoc healthy;
     env_homedir := env_homedir healthy;
     env_now := env_now healthy;
     env_newClient := env_newClient healthy;
     env_getCollection := env_getCollection healthy;
     env_createCollection := fun h name cc =>
       if (countTimers h <? 2)%nat then Some econnreset else None;
     env_upsert := env_upsert healthy;
     env_search := env_search healthy;
     env_query := env_query healthy;
     env_mkdirSync := env_mkdirSync healthy;
     env_writeFileSync := env_writeFileSync healthy |}.

(** The healthy service over a disk that refuses every write. *)
Definition diskFull : Env :=
  {| env_readDoc := env_readDoc healthy;
     env_homedir := env_homedir healthy;
     env_now := env_now healthy;
     env_newClient := env_newClient healthy;
     env_getCollection := env_getCollection healthy;
     env_createCollection := env_createCollection healthy;
     env_upsert := env_upsert healthy;
     env_search := env_search healthy;
     env_query := env_query healthy;
     env_mkdirSync := fun _ _ => Some (ErrorObject (mkError "ENOSPC: no space left on device"));
     env_writeFileSync := fun _ _ => Some (ErrorObject (mkError "ENOSPC: no space left on device")) |}.

Definition emptyWorld : World := {| history := []; disk := ∅ |}.

Definition plainConfig (url : string) : QdrantConfig :=
  {| cfg_url := url;
     cfg_apiKey := None;
     cfg_timeout := None;
     cfg_quantization := None;
     cfg_indexing := None;
     cfg_bm25 := None;
     cfg_vocabularyPath := None |}.

(** A database on a reachable service, freshly constructed. *)
Definition freshState : State :=
  {| this := newQdrantVectorDatabase healthy (plainConfig "http://localhost:6333");
     world := emptyWorld |}.

(** A database configured with HNSW options that set [m] only. *)
Definition tunedState : State :=
  {| this :=
       newQdrantVectorDatabase healthy
         {| cfg_url := "http://localhost:6333";
            cfg_apiKey := None;
            cfg_timeout := None;
            cfg_quantization := None;
            cfg_indexing :=
              Some {| ix_hnsw :=
                        Some {| qh_m := Some 32;
                                qh_ef_construct := None;
                                qh_full_scan_threshold := None;
                                qh_on_disk := None |};
                      ix_sparse := None |};
            cfg_bm25 := None;
            cfg_vocabularyPath := None |};
     world := emptyWorld |}.

(** A database whose configured URL the client constructor rejects. *)
Definition brokenState : State :=
  {| this := newQdrantVectorDatabase healthy (plainConfig "localhost:6333");
     world := emptyWorld |}.

(** The fresh database after a hybrid collection was created under a name
    that does not start with [hybrid_]. *)
Definition hybridState : State :=
  snd (createHybridCollection healthy "code_chunks_ab12cd34" 768 freshState).

(** The vocabulary file of the collection [code_chunks_ab12cd34]. *)
Definition vocabularyFile : string :=
  "/home/user/.context/vocabulary/vocabulary-ab12cd34.json".

(** A tokenizer constructed on that file while the disk is empty. *)
Definition freshTokenizer : BM25Tokenizer :=
  fst (newBM25Tokenizer (Some vocabularyFile) emptyWorld).

(** The same tokenizer once it has encoded a first text. *)
Definition helloTokenizer : BM25Tokenizer :=
  snd (fst (generateSparseVector healthy "hello world hello" freshTokenizer emptyWorld)).

Definition helloWorld : World :=
  snd (generateSparseVector healthy "hello world hello" freshTokenizer emptyWorld).

Definition sampleDocument (id : string) (v : VectorField) (content : string) : VectorDocument :=
  {| doc_id := id;
     doc_vector := v;
     doc_content := content;
     doc_relativePath := "src/a.ts";
     doc_startLine := 1;
     doc_endLine := 2;
     doc_fileExtension := ".ts";
     doc_metadata := ∅ |}.

(** A session on the hybrid collection: a document is inserted, which
    saves the vocabulary, and a lexical query with a word not seen before
    is run, which does not. *)
Definition firstSession : State :=
  snd (hybridSearch healthy "code_chunks_ab12cd34"
         [{| hr_data := TextData "novel"; hr_anns_field := "sparse"; hr_limit := 10 |}]
         None
         (snd (insertHybrid healthy "code_chunks_ab12cd34"
                 [sampleDocument "d0" (VectorArray [1 # 2]) "hello world"] hybridState))).

(** The process restarts on the same service and disk, and inserts a
    document with another new word. *)
Definition secondSession : State :=
  snd (insertHybrid healthy "code_chunks_ab12cd34"
         [sampleDocument "d1" (VectorArray [1 # 2]) "brave"]
         {| this := newQdrantVectorDatabase healthy (plainConfig "http://localhost:6333");
            world := world firstSession |}).

(** A disk whose vocabulary file was written by hand: an empty table and
    the counter -1. *)
Definition handWrittenWorld : World :=
  store vocabularyFile (SnapshotFile ∅ (Some (-1)) "2024-01-01T00:00:00.000Z") emptyWorld.

(** The tokenizer loaded from that file once it has encoded a first
    text: [hello] sits at -1 and the counter is 0. *)
Definition countedUpTokenizer : BM25Tokenizer :=
  snd (fst (generateSparseVector healthy "hello"
              (fst (newBM25Tokenizer (Some vocabularyFile) handWrittenWorld))
              handWrittenWorld)).

(** A disk whose vocabulary file is [{"vocabulary": 5, "nextIndex": 3}]. *)
Definition scalarWorld : World :=
  store vocabularyFile (PlainJson ScalarMember (Some 3)) emptyWorld.

(** ** Further methods of the adapter *)

(** [generateId]: the hexadecimal MD5 digest of the key, cut into groups
    of 8, 4, 4, 4 and 12 characters joined by hyphens. The digest function
    is the one of Node's [crypto]. *)
Definition generateId (md5hex : string -> string) (originalId : string) : string :=
  let hash := md5hex originalId in
  (String.substring 0 8 hash ++ "-" ++ String.substring 8 4 hash ++ "-" ++
   String.substring 12 4 hash ++ "-" ++ String.substring 16 4 hash ++ "-" ++
   String.substring 20 12 hash)%string.

(** A filter object as the builders make it: [{}] or [{must: [...]}]. *)
Inductive FilterObject :=
| NoConstraint
| Must (conditions : list FilterCondition).

(** [Object.keys(filter).length]. *)
Definition filterKeys (f : FilterObject) : nat :=
  match f with
  | NoConstraint => 0%nat
  | Must _ => 1%nat
  end.

(** [buildExtensionFilter]; [None] is an absent argument. *)
Definition buildExtensionFilter (extensions : option (list string)) : FilterObject :=
  match extensions with
  | None => NoConstraint
  | Some exts =>
      if (length exts =? 0)%nat then NoConstraint
      else Must [MatchAny "fileExtension" exts]
  end.

(** [buildPathFilter]: the empty path is falsy. *)
Definition buildPathFilter (relativePath : string) : FilterObject :=
  if String.eqb relativePath "" then NoConstraint
  else Must [MatchValue "relativePath" relativePath].

(** A point of a dense-only collection, as [insert] sends it. *)
Record DensePoint := {
  dp_id : string;
  dp_vector : VectorField;
  dp_payload : gmap string PayloadValue
}.

(** The parameters of a scroll. *)
Record ScrollRequest := {
  sc_limit : Z;
  sc_with_payload : bool;
  sc_with_vector : bool;
  sc_filter : option FilterObject
}.

(** A point of a scroll result. *)
Record ScrollPoint := {
  scp_id : PointId;
  scp_payload : option (gmap string PayloadValue)
}.

(** The calls of the client that the methods above do not make. *)
Inductive ClientCall :=
| CallDeleteCollection (name : string)
| CallGetCollections
| CallUpsertDense (name : string) (points : list DensePoint)
| CallDeletePoints (name : string) (ids : list string)
| CallScroll (name : string) (request : ScrollRequest).

(** The further calls made so far, each with the length the history had
    when it was made, which places it among the events of [Event]. *)
Definition Calls : Type := list (nat * ClientCall).

(** The replies to the further calls, and [JSON.stringify] on a payload.
    A reply may depend on everything that happened before. *)
Record Service := {
  svc_deleteCollection : list Event -> Calls -> string -> option Thrown;
  svc_getCollections : list Event -> Calls -> Thrown + list string;
  svc_upsertDense : list Event -> Calls -> string -> list DensePoint -> option Thrown;
  svc_deletePoints : list Event -> Calls -> string -> list string -> option Thrown;
  svc_scroll : list Event -> Calls -> string -> ScrollRequest -> Thrown + list ScrollPoint;
  svc_stringify : gmap string PayloadValue -> string
}.

(** The state of a method that makes further calls. *)
Record Session := {
  base : State;
  further : Calls
}.

Definition MX (A : Type) : Type := Session -> Outcome A * Session.

Definition retX {A : Type} (a : A) : MX A := fun x => (Returned a, x).

Definition throwX {A : Type} (t : Thrown) : MX A := fun x => (Raised t, x).

Definition bindX {A B : Type} (m : MX A) (k : A -> MX B) : MX B :=
  fun x =>
    match m x with
    | (Returned a, x') => k a x'
    | (Raised t, x') => (Raised t, x')
    end.

Definition tryCatchX {A : Type} (body : MX A) (handler : Thrown -> MX A) : MX A :=
  fun x =>
    match body x with
    | (Returned a, x') => (Returned a, x')
    | (Raised t, x') => handler t x'
    end.

(** A computation of [M] run inside a session. *)
Definition liftM {A : Type} (m : M A) : MX A :=
  fun x =>
    match m (base x) with
    | (r, s) => (r, {| base := s; further := further x |})
    end.

Declare Scope session_scope.
Delimit Scope session_scope with session.
Notation "x <-- m ;;; k" := (bindX m (fun x => k))
  (at level 100, m at next level, right associativity) : session_scope.
Notation "m ;;; k" := (bindX m (fun _ => k))
  (at level 100, right associativity) : session_scope.
Open Scope session_scope.

(** A further call through [this.client!]. *)
Definition furtherCall {A : Type} (c : ClientCall) (reply : list Event -> Calls -> Thrown + A)
  : MX A :=
  fun x =>
    match client (this (base x)) with
    | None => (Raised (ErrorObject (mkError "Cannot read properties of null")), x)
    | Some _ =>
        let made :=
          {| base := base x;
             further := further x ++ [(length (history (world (base x))), c)] |} in
        match reply (history (world (base x))) (further x) with
        | inl thrown => (Raised thrown, made)
        | inr a => (Returned a, made)
        end
    end.

(** [this.tokenizers.delete(collectionName)] when the registry has the
    name. *)
Definition evictTokenizer (collectionName : string) : MX unit :=
  fun x =>
    (Returned tt,
     {| base :=
          match tokenizers (this (base x)) !! collectionName with
          | Some _ => setTokenizers (delete collectionName (tokenizers (this (base x)))) (base x)
          | None => base x
          end;
        further := further x |}).

Definition dropCollection (svc : Service) (collectionName : string) : MX unit :=
  liftM ensureInitialized ;;;
  tryCatchX
    (furtherCall (CallDeleteCollection collectionName)
       (fun h c => replyOfFailure (svc_deleteCollection svc h c collectionName)) ;;;
     evictTokenizer collectionName)
    (fun error =>
       liftM (emit (ConsoleError "[QdrantDB] Failed to delete collection")) ;;;
       throwX error).

Definition listCollections (svc : Service) : MX (list string) :=
  liftM ensureInitialized ;;;
  tryCatchX
    (furtherCall CallGetCollections (fun h c => svc_getCollections svc h c))
    (fun error =>
       liftM (emit (ConsoleError "[QdrantDB] Failed to list collections")) ;;;
       throwX error).

(** The payload of a point of [insert]: the five document fields, then
    the whole metadata spread over them. *)
Definition densePayload (doc : VectorDocument) : gmap string PayloadValue :=
  doc_metadata doc ∪
  <["content" := PString (doc_content doc)]>
    (<["relativePath" := PString (doc_relativePath doc)]>
       (<["startLine" := PNumber (doc_startLine doc)]>
          (<["endLine" := PNumber (doc_endLine doc)]>
             (<["fileExtension" := PString (doc_fileExtension doc)]> ∅)))).

Definition densePoint (doc : VectorDocument) : DensePoint :=
  {| dp_id := doc_id doc; dp_vector := doc_vector doc; dp_payload := densePayload doc |}.

Definition insert (env : Env) (svc : Service) (collectionName : string)
  (documents : list VectorDocument) : MX unit :=
  if (length documents =? 0)%nat then retX tt
  else
    liftM ensureInitialized ;;;
    tryCatchX
      (collectionExists <-- liftM (hasCollection env collectionName) ;;;
       (if negb collectionExists
        then throwX (ErrorObject (mkError ("Collection '" ++ collectionName ++ "' does not exist")))
        else retX tt) ;;;
       furtherCall (CallUpsertDense collectionName (map densePoint documents))
         (fun h c =>
            replyOfFailure (svc_upsertDense svc h c collectionName (map densePoint documents))))
      (fun error =>
         liftM (emit (ConsoleError "[QdrantDB] Failed to insert documents into collection")) ;;;
         throwX error).

(** [delete]: the ids go to the service as they are. *)
Definition deletePoints (svc : Service) (collectionName : string) (ids : list string) : MX unit :=
  if (length ids =? 0)%nat then retX tt
  else
    liftM ensureInitialized ;;;
    tryCatchX
      (furtherCall (CallDeletePoints collectionName ids)
         (fun h c => replyOfFailure (svc_deletePoints svc h c collectionName ids)))
      (fun error =>
         liftM (emit (ConsoleError "[QdrantDB] Failed to delete documents from collection")) ;;;
         throwX error).

(** A member of a record that [query] returns. *)
Inductive QueryValue :=
| QueryId (i : PointId)
| QueryPayload (v : PayloadValue)
| QueryJson (text : string).

(** [scrollParams] of [query]: the filter is added only when it has a
    key. *)
Definition scrollParams (filter : option FilterObject) (limit : option Z) : ScrollRequest :=
  let builtFilter := nullish filter NoConstraint in
  {| sc_limit := orNumber limit 100;
     sc_with_payload := true;
     sc_with_vector := false;
     sc_filter := if (0 <? filterKeys builtFilter)%nat then Some builtFilter else None |}.

(** [{ id: point.id, ...point.payload, metadata: JSON.stringify(point.payload || {}) }]:
    a later member wins over an earlier one of the same name. *)
Definition queryRecord (svc : Service) (point : ScrollPoint) : gmap string QueryValue :=
  <["metadata" := QueryJson (svc_stringify svc (nullish (scp_payload point) ∅))]>
    ((QueryPayload <$> nullish (scp_payload point) ∅) ∪ {["id" := QueryId (scp_id point)]}).

Definition query (svc : Service) (collectionName : string) (filter : option FilterObject)
  (outputFields : list string) (limit : option Z) : MX (list (gmap string QueryValue)) :=
  liftM ensureInitialized ;;;
  tryCatchX
    (result <-- furtherCall (CallScroll collectionName (scrollParams filter limit))
                  (fun h c => svc_scroll svc h c collectionName (scrollParams filter limit)) ;;;
     retX (map (queryRecord svc) result))
    (fun error =>
       liftM (emit (ConsoleError "[QdrantDB] Failed to query collection")) ;;;
       throwX error).

(** [checkCollectionLimit]: there is no limit to check. *)
Definition checkCollectionLimit : MX bool := retX true.

(** ** Vocabulary of the further statements *)

(** The word has no index in the vocabulary yet. *)
Definition unknownWord (t : BM25Tokenizer) (word : string) : bool :=
  match vocabulary t !! word with
  | Some _ => false
  | None => true
  end.

(** The message of the error has one of the two marks that [withRetry]
    looks for, [already exists] or [not found], somewhere in it. *)
Definition namesTerminalCondition (e : Error) : Prop :=
  exists before after,
    message e = (before ++ "already exists" ++ after)%string
    \/ message e = (before ++ "not found" ++ after)%string.

(** A tokenizer whose one term sits at the counter itself: no two terms
    share an index, but the next new term will take 5 as well. *)
Definition crowdedTokenizer : BM25Tokenizer :=
  {| vocabulary := {["aa" := 5]}; nextIndex := 5; vocabularyPath := None |}.

(** The timers of [n] rounds of exponential back-off from [delay]. *)
Fixpoint backoff (delay : Z) (n : nat) : list Event :=
  match n with
  | O => []
  | S n' => SetTimeout delay :: backoff (delay * 2) n'
  end.

(** The character occurs in the string. *)
Fixpoint occurs (c : ascii) (s : string) : bool :=
  match s with
  | EmptyString => false
  | String c' rest => Ascii.eqb c' c || occurs c rest
  end.

(** The point [insertHybrid] builds for a document: same id, the dense
    vector as it came and not empty, the payload of [pointPayload], and
    as sparse vector the encoding of the content by the tokenizer of the
    collection, in whatever state that tokenizer was. *)
Definition pointOf (env : Env) (doc : VectorDocument) (point : PointStruct) : Prop :=
  pt_id point = doc_id doc
  /\ doc_vector doc = VectorArray (hv_dense (pt_vector point))
  /\ hv_dense (pt_vector point) <> []
  /\ pt_payload point = pointPayload doc
  /\ exists t w,
       hv_sparse (pt_vector point) = fst (fst (generateSparseVector env (doc_content doc) t w)).

(** An upsert, if the event is one, is for [collectionName] and carries
    one point for each of [documents], in their order. *)
Definition upsertsBatch (env : Env) (collectionName : string) (documents : list VectorDocument)
  (e : Event) : Prop :=
  match e with
  | CallUpsert name points => name = collectionName /\ Forall2 (pointOf env) documents points
  | _ => True
  end.

(** The five payload keys that hold the document fields. *)
Definition documentFields : list string :=
  ["content"; "relativePath"; "startLine"; "endLine"; "fileExtension"].

Definition isDocumentField (key : string) : bool := existsb (String.eqb key) documentFields.

(** What a search result holds for a document field: the metadata entry
    of that name when the document has one, else the field itself. *)
Definition storedField (doc : VectorDocument) (key : string) (value : PayloadValue)
  : option PayloadValue :=
  Some (nullish (doc_metadata doc !! key) value).

(** The point the service returns for a document stored by
    [insertHybrid]. *)
Definition storedPoint (doc : VectorDocument) (score : option Q) : ScoredPoint :=
  {| sp_id := IdString (doc_id doc); sp_score := score; sp_payload := Some (pointPayload doc) |}.

(** A service that accepts every further call and scrolls nothing. *)
Definition obliging : Service :=
  {| svc_deleteCollection := fun _ _ _ => None;
     svc_getCollections := fun _ _ => inr [];
     svc_upsertDense := fun _ _ _ _ => None;
     svc_deletePoints := fun _ _ _ _ => None;
     svc_scroll := fun _ _ _ _ => inr [];
     svc_stringify := fun _ => "{}" |}.

(** A service that refuses every further call. *)
Definition unreachable : Service :=
  {| svc_deleteCollection := fun _ _ _ => Some econnreset;
     svc_getCollections := fun _ _ => inl econnreset;
     svc_upsertDense := fun _ _ _ _ => Some econnreset;
     svc_deletePoints := fun _ _ _ _ => Some econnreset;
     svc_scroll := fun _ _ _ _ => inl econnreset;
     svc_stringify := fun _ => "{}" |}.

(** The hybrid collection after a first document was inserted. *)
Definition insertedState : State :=
  snd (insertHybrid healthy "code_chunks_ab12cd34"
         [sampleDocument "d0" (VectorArray [1 # 2]) "hello world"] hybridState).


(** The registry holds under [name] a tokenizer that extends [t]: every
    index of [t] is still assigned to its word, and the invariant of the
    store was kept if [t] had it. *)
Definition extends (name : string) (t : BM25Tokenizer) (s : State) : Prop :=
  exists t',
    tokenizers (this s) !! name = Some t'
    /\ vocabulary t ⊆ vocabulary t'
    /\ (vocabularyInvariant t -> vocabularyInvariant t').

(** [m] keeps [R] whatever state it starts in. *)
Definition keeps {A : Type} (R : State -> Prop) (m : M A) : Prop :=
  forall s, R s -> R (snd (m s)).
(** * Properties *)

(** ** The retry wrapper *)

Section Retry.

Context {T : Type} (operation : M T).

Lemma retryLoop_returns maxRetries remaining attempt delay lastError s v s1 :
  operation s = (Returned v, s1) ->
  retryLoop operation maxRetries (S remaining) attempt delay lastError s = (Returned v, s1).
Proof.
  intros Hop. cbn [retryLoop]. unfold tryCatch. now rewrite Hop.
Qed.

(** A terminal error, or any error on the last attempt, leaves the loop at
    once: the state is the one the operation left, no timer is set. *)
Lemma retryLoop_gives_up maxRetries remaining attempt delay lastError s e s1 :
  operation s = (Raised (ErrorObject e), s1) ->
  isTerminal e = true \/ attempt = maxRetries ->
  retryLoop operation maxRetries (S remaining) attempt delay lastError s
  = (Raised (ErrorObject e), s1).
Proof.
  intros Hop Hstop. cbn [retryLoop]. unfold tryCatch. rewrite Hop.
  destruct Hstop as [-> | ->]; [reflexivity |].
  rewrite Z.eqb_refl, orb_true_r. reflexivity.
Qed.

(** Any other error is followed by a timer of the current delay and a
    further round with the delay doubled. *)
Lemma retryLoop_backs_off maxRetries remaining attempt delay lastError s e s1 :
  operation s = (Raised (ErrorObject e), s1) ->
  isTerminal e = false ->
  attempt <> maxRetries ->
  retryLoop operation maxRetries (S remaining) attempt delay lastError s
  = retryLoop operation maxRetries remaining (attempt + 1) (delay * 2) (ErrorObject e)
      (asleep delay s1).
Proof.
  intros Hop Hterm Hne. cbn [retryLoop]. unfold tryCatch. rewrite Hop, Hterm.
  apply Z.eqb_neq in Hne. rewrite Hne. reflexivity.
Qed.

(** Whatever the number of attempts allowed (at least one), the wrapper
    ends with the outcome of its last attempt: an error is neither
    dropped nor replaced. *)
Lemma retryLoop_ends_with_an_attempt maxRetries remaining attempt delay lastError s :
  (forall s0 s1, operation s0 <> (Raised UndefinedValue, s1)) ->
  attempt + Z.of_nat remaining = maxRetries ->
  exists s0,
    retryLoop operation maxRetries (S remaining) attempt delay lastError s = operation s0.
Proof.
  intros Herr. revert attempt delay lastError s.
  induction remaining as [| remaining IH]; intros attempt delay lastError s Hcount.
  - exists s. destruct (operation s) as [[v | [e |]] s1] eqn:Hop.
    + now apply retryLoop_returns.
    + apply retryLoop_gives_up; [assumption | right; lia].
    + now destruct (Herr s s1).
  - destruct (operation s) as [[v | [e |]] s1] eqn:Hop.
    + exists s. rewrite Hop. now apply retryLoop_returns.
    + destruct (isTerminal e) eqn:Hterm.
      * exists s. rewrite Hop. apply retryLoop_gives_up; auto.
      * rewrite (retryLoop_backs_off _ _ _ _ _ _ _ _ Hop Hterm) by lia.
        apply IH. lia.
    + now destruct (Herr s s1).
Qed.

(** C3. Under the defaults (three attempts, 1000 ms), [withRetry] returns
    the first success; re-raises at once, with no timer set, an error
    whose message has a terminal marker and the error of the third
    attempt; and otherwise waits 1000 ms before the second attempt and
    2000 ms before the third. In particular an operation that fails twice
    with retryable errors and then succeeds returns its value after the
    delays 1000 and 2000, and the error raised after three failures is the
    last one observed. *)
Theorem withRetry_default_policy (operationName : string) (s : State) :
  let attempts := withRetry operation operationName None None in
  (forall v s1, operation s = (Returned v, s1) -> attempts s = (Returned v, s1))
  /\ (forall e1 s1, operation s = (Raised (ErrorObject e1), s1) ->
      (isTerminal e1 = true -> attempts s = (Raised (ErrorObject e1), s1))
      /\ (isTerminal e1 = false ->
          (forall v s2, operation (asleep 1000 s1) = (Returned v, s2) ->
             attempts s = (Returned v, s2))
          /\ (forall e2 s2, operation (asleep 1000 s1) = (Raised (ErrorObject e2), s2) ->
              (isTerminal e2 = true -> attempts s = (Raised (ErrorObject e2), s2))
              /\ (isTerminal e2 = false ->
                  (forall v s3, operation (asleep 2000 s2) = (Returned v, s3) ->
                     attempts s = (Returned v, s3))
                  /\ (forall e3 s3, operation (asleep 2000 s2) = (Raised (ErrorObject e3), s3) ->
                      attempts s = (Raised (ErrorObject e3), s3)))))).
Proof.
  intros attempts. subst attempts. unfold withRetry, nullish.
  change (Z.to_nat 3) with 3%nat.
  split.
  { intros v s1 H1. now apply retryLoop_returns. }
  intros e1 s1 H1. split.
  { intros Ht. apply retryLoop_gives_up; auto. }
  intros Ht1. rewrite (retryLoop_backs_off _ _ _ _ _ _ _ _ H1 Ht1) by lia.
  change (1 + 1) with 2. change (1000 * 2) with 2000.
  split.
  { intros v s2 H2. now apply retryLoop_returns. }
  intros e2 s2 H2. split.
  { intros Ht. apply retryLoop_gives_up; auto. }
  intros Ht2. rewrite (retryLoop_backs_off _ _ _ _ _ _ _ _ H2 Ht2) by lia.
  change (2 + 1) with 3. change (2000 * 2) with 4000.
  split.
  { intros v s3 H3. now apply retryLoop_returns. }
  intros e3 s3 H3. apply retryLoop_gives_up; auto.
Qed.

End Retry.

(** The network drops the first two create-collection calls: the third
    goes through, after timers of 1000 ms and 2000 ms. *)
Lemma withRetry_default_policy_witness :
  fst (withRetry
         (remoteCreate flaky "code_chunks"
            (collectionConfig (plainConfig "http://localhost:6333") 768))
         "Create collection 'code_chunks'" None None freshState)
  = Returned tt
  /\ history (world (snd (withRetry
         (remoteCreate flaky "code_chunks"
            (collectionConfig (plainConfig "http://localhost:6333") 768))
         "Create collection 'code_chunks'" None None freshState)))
     = [CallCreateCollection "code_chunks"
          (collectionConfig (plainConfig "http://localhost:6333") 768);
        SetTimeout 1000;
        CallCreateCollection "code_chunks"
          (collectionConfig (plainConfig "http://localhost:6333") 768);
        SetTimeout 2000;
        CallCreateCollection "code_chunks"
          (collectionConfig (plainConfig "http://localhost:6333") 768)].
Proof.
  set (operation := remoteCreate flaky "code_chunks"
                      (collectionConfig (plainConfig "http://localhost:6333") 768)).
  destruct (withRetry_default_policy operation "Create collection 'code_chunks'" freshState)
    as [_ Hfirst].
  set (s1 := snd (operation freshState)).
  destruct (Hfirst (mkError "connect ECONNRESET") s1 eq_refl) as [_ Hsecond].
  destruct (Hsecond eq_refl) as [_ Hsecond'].
  set (s2 := snd (operation (asleep 1000 s1))).
  destruct (Hsecond' (mkError "connect ECONNRESET") s2 eq_refl) as [_ Hthird].
  destruct (Hthird eq_refl) as [Hthird' _].
  set (s3 := snd (operation (asleep 2000 s2))).
  rewrite (Hthird' tt s3 eq_refl).
  split; reflexivity.
Defined.

(** ** How the history grows *)

Lemma grows_refl P s : grows P s s.
Proof.
  repeat split. exists []. split; [now rewrite app_nil_r | constructor].
Qed.

Lemma grows_trans P s1 s2 s3 : grows P s1 s2 -> grows P s2 s3 -> grows P s1 s3.
Proof.
  intros (Hc1 & Hi1 & Hg1 & l1 & Hh1 & Hl1) (Hc2 & Hi2 & Hg2 & l2 & Hh2 & Hl2).
  repeat split; try congruence.
  exists (l1 ++ l2). split.
  - rewrite Hh2, Hh1. now rewrite app_assoc.
  - apply Forall_app; auto.
Qed.

Lemma grows_weaken (P Q : Event -> Prop) s s' :
  (forall e, P e -> Q e) -> grows P s s' -> grows Q s s'.
Proof.
  intros HPQ (Hc & Hi & Hg & l & Hh & Hl).
  repeat split; auto. exists l. split; [assumption |].
  eapply Forall_impl; eauto.
Qed.

Lemma grows_record P e s : P e -> grows P s (setWorld (record e (world s)) s).
Proof.
  intros He. repeat split. exists [e]. split; [reflexivity | now repeat constructor].
Qed.

Lemma grows_initialized P s s' : grows P s s' -> initialized s -> initialized s'.
Proof.
  intros (Hc & Hi & _) [H1 H2]. split; congruence.
Qed.

Lemma emitsOnly_ret {A} P (a : A) : emitsOnly P (ret a).
Proof. intros s. apply grows_refl. Qed.

Lemma emitsOnly_throw {A} P t : emitsOnly P (@throw A t).
Proof. intros s. apply grows_refl. Qed.

Lemma emitsOnly_newError {A} P msg : emitsOnly P (@newError A msg).
Proof. intros s. apply grows_refl. Qed.

Lemma emitsOnly_bind {A B} P (m : M A) (k : A -> M B) :
  emitsOnly P m -> (forall a, emitsOnly P (k a)) -> emitsOnly P (bind m k).
Proof.
  intros Hm Hk s. unfold bind. specialize (Hm s).
  destruct (m s) as [[a | t] s1]; cbn in *; [| assumption].
  eapply grows_trans; [eassumption | apply Hk].
Qed.

Lemma emitsOnly_tryCatch {A} P (body : M A) (handler : Thrown -> M A) :
  emitsOnly P body -> (forall t, emitsOnly P (handler t)) -> emitsOnly P (tryCatch body handler).
Proof.
  intros Hm Hk s. unfold tryCatch. specialize (Hm s).
  destruct (body s) as [[a | t] s1]; cbn in *; [assumption |].
  eapply grows_trans; [eassumption | apply Hk].
Qed.

Lemma emitsOnly_emit P e : P e -> emitsOnly P (emit e).
Proof. intros He s. now apply grows_record. Qed.

Lemma emitsOnly_clientCall {A} P e (reply : list Event -> Thrown + A) :
  P e -> emitsOnly P (clientCall e reply).
Proof.
  intros He s. unfold clientCall.
  destruct (client (this s)); [| apply grows_refl].
  destruct (reply _); now apply grows_record.
Qed.

Lemma emitsOnly_retryLoop {T} P (operation : M T) maxRetries remaining attempt delay lastError :
  emitsOnly P operation -> (forall ms, P (SetTimeout ms)) ->
  emitsOnly P (retryLoop operation maxRetries remaining attempt delay lastError).
Proof.
  intros Hop Htimer. revert attempt delay lastError.
  induction remaining as [| remaining IH]; intros attempt delay lastError; cbn [retryLoop].
  - apply emitsOnly_throw.
  - apply emitsOnly_tryCatch; [assumption |].
    intros [e |]; [| apply emitsOnly_newError].
    destruct (isTerminal e || (attempt =? maxRetries)); [apply emitsOnly_throw |].
    apply emitsOnly_bind; [now apply emitsOnly_emit | intros _; apply IH].
Qed.

Lemma ensureInitialized_ready s : initialized s -> ensureInitialized s = (Returned tt, s).
Proof.
  intros [Hp [c Hc]]. unfold ensureInitialized. now rewrite Hp, Hc.
Qed.

Lemma clientCall_ready {A} e (reply : list Event -> Thrown + A) s :
  initialized s ->
  clientCall e reply s
  = (match reply (history (world s)) with
     | inl thrown => Raised thrown
     | inr a => Returned a
     end,
     setWorld (record e (world s)) s).
Proof.
  intros [_ [c Hc]]. unfold clientCall. rewrite Hc. now destruct (reply _).
Qed.

(** ** hasCollection *)

(** Before initialization has succeeded every public method gives up in
    [ensureInitialized], which [hasCollection] awaits outside its [try]. *)
Lemma hasCollection_uninitialized env collectionName s reason :
  initializationPromise (this s) = Rejected reason ->
  hasCollection env collectionName s = (Raised reason, s).
Proof.
  intros Hp. unfold hasCollection, bind, ensureInitialized. now rewrite Hp.
Qed.

Lemma hasCollection_ready env collectionName s :
  initialized s ->
  hasCollection env collectionName s
  = (Returned (match env_getCollection env (history (world s)) collectionName with
               | inr _ => true
               | inl _ => false
               end),
     setWorld (record (CallGetCollection collectionName) (world s)) s).
Proof.
  intros Hinit. unfold hasCollection, bind.
  rewrite (ensureInitialized_ready _ Hinit).
  unfold tryCatch, remoteGetCollection, bind.
  rewrite (clientCall_ready _ _ _ Hinit).
  now destruct (env_getCollection _ _ _).
Qed.

(** C5, as the code has it. On an initialized database the existence
    check does not raise: it returns a boolean, which is [true] exactly
    when the metadata probe succeeds, whatever the failure of the probe
    was; and the probe is the one event it adds. *)
Theorem hasCollection_normalizes_probe_failures env collectionName s :
  initialized s ->
  exists answer,
    fst (hasCollection env collectionName s) = Returned answer
    /\ (answer = true <->
        exists info, env_getCollection env (history (world s)) collectionName = inr info)
    /\ history (world (snd (hasCollection env collectionName s)))
       = history (world s) ++ [CallGetCollection collectionName].
Proof.
  intros Hinit. rewrite (hasCollection_ready _ _ _ Hinit). cbn [fst snd].
  eexists. split; [reflexivity | split; [| reflexivity]].
  destruct (env_getCollection env (history (world s)) collectionName) as [thrown | info].
  - split; [discriminate | intros [info Hinfo]; discriminate].
  - split; [eauto | reflexivity].
Qed.

Lemma hasCollection_normalizes_probe_failures_witness :
  initialized freshState
  /\ exists answer,
       fst (hasCollection healthy "code_chunks" freshState) = Returned answer
       /\ (answer = true <->
           exists info, env_getCollection healthy (history (world freshState)) "code_chunks"
                        = inr info)
       /\ history (world (snd (hasCollection healthy "code_chunks" freshState)))
          = history (world freshState) ++ [CallGetCollection "code_chunks"].
Proof.
  assert (Hinit : initialized freshState) by (split; [reflexivity | eexists; reflexivity]).
  split; [exact Hinit |].
  exact (hasCollection_normalizes_probe_failures healthy "code_chunks" freshState Hinit).
Defined.

(** C5, as stated, fails: the client constructor rejected the configured
    URL, the initialization promise is rejected, and the existence check
    raises that rejection instead of answering [false]. *)
Lemma hasCollection_raises_counterexample :
  fst (hasCollection healthy "code_chunks" brokenState)
  = Raised (ErrorObject (mkError "The `url` param expects full URL with protocol"))
  /\ history (world (snd (hasCollection healthy "code_chunks" brokenState))) = [].
Proof. split; reflexivity. Qed.

(** ** search *)

(** C8, as the code has it. On an initialized database a dense-only
    search issues exactly one similarity query and no other remote call;
    the query goes to the named space [dense] when the collection name
    starts with [hybrid_], and carries the plain vector otherwise. *)
Theorem search_issues_one_query env collectionName queryVector options s :
  initialized s ->
  let request := searchRequest collectionName queryVector options in
  sr_vector request
  = (if startsWith collectionName "hybrid_" then NamedVector "dense" queryVector
     else PlainVector queryVector)
  /\ exists notices,
       history (world (snd (search env collectionName queryVector options s)))
       = history (world s) ++ CallSearch collectionName request :: notices
       /\ Forall (fun e => isRemoteCall e = false) notices.
Proof.
  intros Hinit request. split; [reflexivity |].
  unfold search, bind. rewrite (ensureInitialized_ready _ Hinit).
  unfold tryCatch, bind. rewrite (clientCall_ready _ _ _ Hinit).
  fold request.
  destruct (env_search env (history (world s)) collectionName request) as [thrown | points].
  - exists [ConsoleError "[QdrantDB] Failed to search collection"].
    cbn. split; [now rewrite <- app_assoc | now repeat constructor].
  - exists []. cbn. split; [reflexivity | constructor].
Qed.

Lemma search_issues_one_query_witness :
  initialized freshState
  /\ sr_vector (searchRequest "hybrid_code_chunks_ab12cd34" [1 # 2] None)
     = NamedVector "dense" [1 # 2]
  /\ history (world (snd (search healthy "hybrid_code_chunks_ab12cd34" [1 # 2] None freshState)))
     = [CallSearch "hybrid_code_chunks_ab12cd34"
          (searchRequest "hybrid_code_chunks_ab12cd34" [1 # 2] None)].
Proof.
  assert (Hinit : initialized freshState) by (split; [reflexivity | eexists; reflexivity]).
  split; [exact Hinit |].
  destruct (search_issues_one_query healthy "hybrid_code_chunks_ab12cd34" [1 # 2] None
              freshState Hinit) as [Hvector _].
  split; [exact Hvector | reflexivity].
Defined.

(** C8, as stated, fails: a hybrid collection created under a name that
    does not start with [hybrid_] reports its sparse space, and yet the
    search is sent with the plain vector, to the default space. *)
Lemma search_hybrid_collection_counterexample :
  reportedHybrid healthy (history (world hybridState)) "code_chunks_ab12cd34"
  /\ history (world (snd (search healthy "code_chunks_ab12cd34" [1 # 2] None hybridState)))
     = history (world hybridState)
       ++ [CallSearch "code_chunks_ab12cd34"
             {| sr_vector := PlainVector [1 # 2];
                sr_limit := 10;
                sr_with_payload := true;
                sr_filter := None |}].
Proof.
  split; [| reflexivity].
  eexists. split; reflexivity.
Qed.

(** ** createCollection *)

(** The HNSW block is there exactly when HNSW options are configured; an
    option that is absent, or zero, is replaced by its default. *)
Lemma vectorConfig_hnsw_block cfg dimension :
  vp_hnsw_config (vectorConfig cfg dimension)
  = match cfg_indexing cfg with
    | Some ix =>
        match ix_hnsw ix with
        | Some h =>
            Some {| hnsw_m := orNumber (qh_m h) 16;
                    hnsw_ef_construct := orNumber (qh_ef_construct h) 100;
                    hnsw_full_scan_threshold := orNumber (qh_full_scan_threshold h) 10000;
                    hnsw_on_disk := orFalse (qh_on_disk h) |}
        | None => None
        end
    | None => None
    end.
Proof. reflexivity. Qed.

Lemma remoteCreate_emits env collectionName cc :
  emitsOnly (fun e => e = CallCreateCollection collectionName cc \/ isRemoteCall e = false)
    (remoteCreate env collectionName cc).
Proof. apply emitsOnly_clientCall. now left. Qed.

(** The first round of the retry loop sends the create call; whatever
    follows is more of the same call, timers and notices. *)
Lemma retryLoop_create_grows env collectionName cc maxRetries remaining attempt delay lastError s :
  initialized s ->
  grows (fun e => e = CallCreateCollection collectionName cc \/ isRemoteCall e = false)
    (setWorld (record (CallCreateCollection collectionName cc) (world s)) s)
    (snd (retryLoop (remoteCreate env collectionName cc) maxRetries (S remaining) attempt delay
            lastError s)).
Proof.
  intros Hinit. cbn [retryLoop]. unfold tryCatch at 1. unfold remoteCreate at 1.
  rewrite (clientCall_ready _ _ _ Hinit).
  destruct (replyOfFailure _) as [[e |] | []]; try apply grows_refl.
  destruct (isTerminal e || (attempt =? maxRetries)); [apply grows_refl |].
  unfold bind at 1, emit at 1.
  eapply grows_trans; [apply (grows_record _ (SetTimeout delay)); now right |].
  apply emitsOnly_retryLoop; [apply remoteCreate_emits | intros ms; now right].
Qed.

(** C1, as the code has it. On an initialized database [createCollection]
    sends its create call at least once, every create call it sends
    carries the same payload, and the vector space of that payload has an
    HNSW block exactly when the configuration has HNSW options: the block
    then takes [m], [ef_construct], [full_scan_threshold] and [on_disk]
    from the options, with 16, 100, 10000 and [false] for an option that
    is absent, zero or false. Without HNSW options there is no HNSW block. *)
Theorem createCollection_payload env collectionName dimension s :
  initialized s ->
  let cc := collectionConfig (config (this s)) dimension in
  (exists later,
     history (world (snd (createCollection env collectionName dimension s)))
     = history (world s) ++ CallCreateCollection collectionName cc :: later
     /\ Forall (fun e => e = CallCreateCollection collectionName cc \/ isRemoteCall e = false)
          later)
  /\ cc_vectors cc = SingleSpace (vectorConfig (config (this s)) dimension)
  /\ vp_hnsw_config (vectorConfig (config (this s)) dimension)
     = match cfg_indexing (config (this s)) with
       | Some ix =>
           match ix_hnsw ix with
           | Some h =>
               Some {| hnsw_m := orNumber (qh_m h) 16;
                       hnsw_ef_construct := orNumber (qh_ef_construct h) 100;
                       hnsw_full_scan_threshold := orNumber (qh_full_scan_threshold h) 10000;
                       hnsw_on_disk := orFalse (qh_on_disk h) |}
           | None => None
           end
       | None => None
       end.
Proof.
  intros Hinit cc. split; [| split; [reflexivity | apply vectorConfig_hnsw_block]].
  set (P := fun e => e = CallCreateCollection collectionName cc \/ isRemoteCall e = false).
  set (s1 := setWorld (record (CallCreateCollection collectionName cc) (world s)) s).
  assert (Hgrows : grows P s1 (snd (createCollection env collectionName dimension s))).
  { unfold createCollection, bind. rewrite (ensureInitialized_ready _ Hinit).
    unfold tryCatch at 1. unfold withRetry, nullish. change (Z.to_nat 3) with 3%nat.
    fold cc.
    pose proof (retryLoop_create_grows env collectionName cc 3 2 1 1000 UndefinedValue s Hinit)
      as Hloop.
    fold P s1 in Hloop.
    destruct (retryLoop _ _ _ _ _ _ _) as [[v | t] s2]; cbn [snd] in *; [exact Hloop |].
    eapply grows_trans; [exact Hloop |].
    apply emitsOnly_bind; [apply emitsOnly_emit; now right |].
    intros _. apply emitsOnly_throw. }
  destruct Hgrows as (_ & _ & _ & later & Hhistory & Hlater).
  exists later. split; [| exact Hlater].
  rewrite Hhistory. cbn. now rewrite <- app_assoc.
Qed.

Lemma createCollection_payload_witness :
  initialized tunedState
  /\ history (world (snd (createCollection healthy "code_chunks_ab12cd34" 768 tunedState)))
     = [CallCreateCollection "code_chunks_ab12cd34"
          (collectionConfig (config (this tunedState)) 768)]
  /\ vp_hnsw_config (vectorConfig (config (this tunedState)) 768)
     = Some {| hnsw_m := 32;
               hnsw_ef_construct := 100;
               hnsw_full_scan_threshold := 10000;
               hnsw_on_disk := false |}.
Proof.
  assert (Hinit : initialized tunedState) by (split; [reflexivity | eexists; reflexivity]).
  destruct (createCollection_payload healthy "code_chunks_ab12cd34" 768 tunedState Hinit)
    as (_ & _ & Hblock).
  split; [exact Hinit |]. split; [reflexivity | exact Hblock].
Defined.

(** C1, as stated, fails: with neither HNSW nor quantization options
    configured, the payload sent for a collection of dimension 768 has no
    HNSW block at all. *)
Lemma createCollection_without_options_counterexample :
  cfg_indexing (config (this freshState)) = None
  /\ cfg_quantization (config (this freshState)) = None
  /\ history (world (snd (createCollection healthy "code_chunks_ab12cd34" 768 freshState)))
     = [CallCreateCollection "code_chunks_ab12cd34"
          {| cc_vectors :=
               SingleSpace
                 {| vp_size := 768;
                    vp_distance := "Cosine";
                    vp_hnsw_config := None;
                    vp_quantization_config := None |};
             cc_sparse_vectors := None;
             cc_shard_number := 1;
             cc_replication_factor := 1 |}].
Proof. repeat split. Qed.

(** ** Term frequencies *)

Lemma orNumber_zero x : orNumber x 0 = default 0 x.
Proof.
  destruct x as [n |]; cbn; [| reflexivity].
  destruct (n =? 0) eqn:E; [apply Z.eqb_eq in E; congruence | reflexivity].
Qed.

Lemma termFrequency_cons tokens token word :
  termFrequency (token :: tokens) word
  = (if String.eqb word token then 1 else 0) + termFrequency tokens word.
Proof.
  unfold termFrequency. cbn [List.filter].
  destruct (String.eqb word token); cbn [length]; lia.
Qed.

Lemma mapGet_None_keys entries key :
  mapGet entries key = None <-> ~ In key (map fst entries).
Proof.
  induction entries as [| [k v] rest IH]; cbn.
  - tauto.
  - destruct (String.eqb k key) eqn:E.
    + apply String.eqb_eq in E. split; [discriminate | tauto].
    + apply String.eqb_neq in E. rewrite IH. tauto.
Qed.

Lemma mapSet_absent entries key value :
  mapGet entries key = None -> mapSet entries key value = entries ++ [(key, value)].
Proof.
  induction entries as [| [k v] rest IH]; cbn; [reflexivity |].
  destruct (String.eqb k key); [discriminate |].
  intros H. now rewrite IH.
Qed.

Lemma mapSet_keys_present entries key value old :
  mapGet entries key = Some old -> map fst (mapSet entries key value) = map fst entries.
Proof.
  induction entries as [| [k v] rest IH]; cbn; [discriminate |].
  destruct (String.eqb k key); cbn; [reflexivity |].
  intros H. now rewrite IH.
Qed.

Lemma mapSet_present_counts entries token tokens old :
  List.NoDup (map fst entries) ->
  mapGet entries token = Some old ->
  map (fun kv => (fst kv, snd kv + termFrequency tokens (fst kv)))
    (mapSet entries token (old + 1))
  = map (fun kv => (fst kv, snd kv + termFrequency (token :: tokens) (fst kv))) entries.
Proof.
  induction entries as [| [k v] rest IH]; cbn [mapGet mapSet map fst snd]; [discriminate |].
  intros Hnodup. apply NoDup_cons_iff in Hnodup as [Hk Hrest].
  destruct (String.eqb k token) eqn:E.
  - apply String.eqb_eq in E. subst k. intros [= ->].
    cbn [map fst snd]. rewrite termFrequency_cons, String.eqb_refl. f_equal.
    + f_equal. lia.
    + apply map_ext_in. intros [k' v'] Hin. cbn [fst snd].
      rewrite termFrequency_cons.
      destruct (String.eqb k' token) eqn:E'; [| reflexivity].
      apply String.eqb_eq in E'. subst k'.
      exfalso. apply Hk. now apply (in_map fst) in Hin.
  - intros Hget. cbn [map fst snd]. rewrite (IH Hrest Hget).
    rewrite termFrequency_cons, E. reflexivity.
Qed.

Lemma absent_keys entries entries' word :
  map fst entries = map fst entries' -> absent entries word = absent entries' word.
Proof.
  intros Hkeys. unfold absent.
  destruct (mapGet entries word) eqn:H1; destruct (mapGet entries' word) eqn:H2;
    try reflexivity; exfalso.
  - apply mapGet_None_keys in H2. rewrite <- Hkeys in H2.
    apply mapGet_None_keys in H2. congruence.
  - apply mapGet_None_keys in H1. rewrite Hkeys in H1.
    apply mapGet_None_keys in H1. congruence.
Qed.

Lemma absent_true entries word : absent entries word = true <-> ~ In word (map fst entries).
Proof.
  unfold absent. rewrite <- mapGet_None_keys.
  destruct (mapGet entries word); split; congruence.
Qed.

Lemma filter_filter {A} (p q : A -> bool) l :
  List.filter p (List.filter q l) = List.filter (fun x => q x && p x) l.
Proof.
  induction l as [| x l IH]; cbn; [reflexivity |].
  destruct (q x); cbn; [destruct (p x) |]; now rewrite IH.
Qed.

Lemma distinctTokens_In tokens word : In word (distinctTokens tokens) <-> In word tokens.
Proof.
  induction tokens as [| token rest IH]; cbn; [tauto |].
  rewrite filter_In, IH.
  destruct (String.eqb word token) eqn:E.
  - apply String.eqb_eq in E. subst. tauto.
  - apply String.eqb_neq in E. rewrite negb_true_iff. intuition congruence.
Qed.

Lemma distinctTokens_NoDup tokens : List.NoDup (distinctTokens tokens).
Proof.
  induction tokens as [| token rest IH]; cbn; constructor.
  - rewrite filter_In, String.eqb_refl. cbn. intros [_ H]. discriminate.
  - now apply List.NoDup_filter.
Qed.

(** The first loop of [generateSparseVector], started from any table
    without duplicate keys: counts of known words grow in place, new
    words are appended in the order of their first occurrence. *)
Lemma fold_termFrequencies tokens : forall entries,
  List.NoDup (map fst entries) ->
  fold_left (fun termFreqs token =>
               mapSet termFreqs token (orNumber (mapGet termFreqs token) 0 + 1))
    tokens entries
  = map (fun kv => (fst kv, snd kv + termFrequency tokens (fst kv))) entries
    ++ map (fun word => (word, termFrequency tokens word))
         (List.filter (absent entries) (distinctTokens tokens)).
Proof.
  induction tokens as [| token rest IH]; intros entries Hnodup.
  - cbn. rewrite app_nil_r. rewrite <- (map_id entries) at 1.
    apply map_ext. intros [k v]. cbn. f_equal. unfold termFrequency. cbn. lia.
  - cbn [fold_left distinctTokens List.filter].
    rewrite orNumber_zero.
    destruct (mapGet entries token) as [old |] eqn:Hget.
    + cbn [default]. rewrite IH.
      2:{ now rewrite (mapSet_keys_present _ _ _ _ Hget). }
      rewrite (mapSet_present_counts _ _ _ _ Hnodup Hget).
      unfold absent at 2. rewrite Hget. f_equal.
      rewrite filter_filter.
      erewrite (filter_ext (absent (mapSet entries token (old + 1)))).
      2:{ intros word. apply absent_keys. apply (mapSet_keys_present _ _ _ _ Hget). }
      assert (Hne : forall word, absent entries word = true -> String.eqb word token = false).
      { intros word Habs. apply String.eqb_neq. intros ->.
        unfold absent in Habs. now rewrite Hget in Habs. }
      erewrite (filter_ext (fun x => negb (String.eqb x token) && absent entries x)
                 (absent entries)).
      2:{ intros word. destruct (absent entries word) eqn:Habs.
          - now rewrite (Hne _ Habs).
          - apply andb_false_r. }
      apply map_ext_in. intros word Hin. apply filter_In in Hin as [_ Habs].
      rewrite termFrequency_cons, (Hne _ Habs). reflexivity.
    + cbn [default]. rewrite (mapSet_absent _ _ _ Hget).
      assert (Hfresh : ~ In token (map fst entries)) by now apply mapGet_None_keys.
      rewrite IH.
      2:{ rewrite map_app. apply List.NoDup_app; [assumption | repeat constructor; auto |].
          intros word Hin [<- | []]. contradiction. }
      unfold absent at 2. rewrite Hget.
      rewrite map_app, <- app_assoc. cbn [map fst snd app]. f_equal.
      { apply map_ext_in. intros [k v] Hin. cbn [fst snd].
        rewrite termFrequency_cons.
        destruct (String.eqb k token) eqn:E; [| reflexivity].
        apply String.eqb_eq in E. subst k. exfalso. apply Hfresh.
        now apply (in_map fst) in Hin. }
      f_equal.
      { rewrite termFrequency_cons, String.eqb_refl. f_equal. }
      rewrite filter_filter.
      erewrite (filter_ext (absent (entries ++ [(token, 0 + 1)]))
                 (fun x => negb (String.eqb x token) && absent entries x)).
      2:{ intros word. destruct (String.eqb word token) eqn:E.
          - apply String.eqb_eq in E. subst word. cbn.
            destruct (absent (entries ++ [(token, 0 + 1)]) token) eqn:Habs; [| reflexivity].
            apply absent_true in Habs. exfalso. apply Habs.
            rewrite map_app. apply in_or_app. right. now left.
          - cbn. destruct (absent entries word) eqn:Habs.
            + apply absent_true. apply absent_true in Habs.
              rewrite map_app. intros Hin. apply in_app_or in Hin as [Hin | [Heq | []]].
              * contradiction.
              * cbn in Heq. subst. now rewrite String.eqb_refl in E.
            + destruct (absent (entries ++ [(token, 0 + 1)]) word) eqn:Habs'; [| reflexivity].
              apply absent_true in Habs'. exfalso.
              assert (Hin : In word (map fst entries)).
              { destruct (in_dec string_dec word (map fst entries)) as [Hin | Hnin];
                  [assumption |].
                apply absent_true in Hnin. congruence. }
              apply Habs'. rewrite map_app. apply in_or_app. now left. }
      apply map_ext_in. intros word Hin. apply filter_In in Hin as [_ Hcond].
      apply andb_true_iff in Hcond as [Hne _]. apply negb_true_iff in Hne.
      rewrite termFrequency_cons, Hne. reflexivity.
Qed.

(** The table of term frequencies holds each distinct token once, at the
    place of its first occurrence, with the number of its occurrences. *)
Lemma termFrequencies_spec tokens :
  termFrequencies tokens
  = map (fun word => (word, termFrequency tokens word)) (distinctTokens tokens).
Proof.
  unfold termFrequencies. rewrite fold_termFrequencies by constructor.
  cbn [map app]. f_equal.
  induction (distinctTokens tokens) as [| word words IH]; cbn; [reflexivity | now f_equal].
Qed.

(** ** The vocabulary *)

Lemma indexOf_lookup t word :
  vocabulary (snd (indexOf t word)) !! word = Some (fst (indexOf t word)).
Proof.
  unfold indexOf. destruct (vocabulary t !! word) eqn:H; cbn; [assumption |].
  apply lookup_insert_eq.
Qed.

Lemma indexOf_extends t word : vocabulary t ⊆ vocabulary (snd (indexOf t word)).
Proof.
  unfold indexOf. destruct (vocabulary t !! word) eqn:H; cbn; [reflexivity |].
  now apply insert_subseteq.
Qed.

Lemma indexOf_path t word : vocabularyPath (snd (indexOf t word)) = vocabularyPath t.
Proof. unfold indexOf. now destruct (vocabulary t !! word). Qed.

Lemma indexOf_invariant t word :
  vocabularyInvariant t -> vocabularyInvariant (snd (indexOf t word)).
Proof.
  intros Hinv. unfold indexOf.
  destruct (vocabulary t !! word) eqn:Hword; cbn [snd]; [exact Hinv |].
  destruct Hinv as (Hnext & Hbound & Hinj).
  split; [| split]; cbn [vocabulary nextIndex].
  - lia.
  - intros w index H.
    destruct (decide (word = w)) as [<- | Hne].
    + rewrite lookup_insert_eq in H. injection H as <-. lia.
    + rewrite lookup_insert_ne in H by assumption. apply Hbound in H. lia.
  - intros w1 w2 index H1 H2.
    destruct (decide (word = w1)) as [<- | Hne1]; destruct (decide (word = w2)) as [<- | Hne2].
    + reflexivity.
    + rewrite lookup_insert_eq in H1. injection H1 as <-.
      rewrite lookup_insert_ne in H2 by assumption. apply Hbound in H2. lia.
    + rewrite lookup_insert_eq in H2. injection H2 as <-.
      rewrite lookup_insert_ne in H1 by assumption. apply Hbound in H1. lia.
    + rewrite lookup_insert_ne in H1, H2 by assumption. eauto.
Qed.

Lemma toSparse_spec entries : forall t indices values,
  sv_values (fst (toSparse entries t indices values)) = values ++ map snd entries
  /\ vocabulary t ⊆ vocabulary (snd (toSparse entries t indices values))
  /\ vocabularyPath (snd (toSparse entries t indices values)) = vocabularyPath t
  /\ (vocabularyInvariant t -> vocabularyInvariant (snd (toSparse entries t indices values)))
  /\ exists assigned,
       sv_indices (fst (toSparse entries t indices values)) = indices ++ assigned
       /\ Forall2 (fun entry index =>
                     vocabulary (snd (toSparse entries t indices values)) !! fst entry
                     = Some index)
            entries assigned.
Proof.
  induction entries as [| [word tf] rest IH]; intros t indices values.
  - cbn. rewrite app_nil_r.
    split; [reflexivity | split; [reflexivity | split; [reflexivity | split; [auto |]]]].
    exists []. rewrite app_nil_r. split; [reflexivity | constructor].
  - cbn [toSparse].
    pose proof (indexOf_lookup t word) as Hlookup.
    pose proof (indexOf_extends t word) as Hext.
    pose proof (indexOf_path t word) as Hpath.
    pose proof (indexOf_invariant t word) as Hinv.
    destruct (indexOf t word) as [index t1]. cbn [fst snd] in *.
    destruct (IH t1 (indices ++ [index]) (values ++ [tf]))
      as (Hvalues & Hext' & Hpath' & Hinv' & assigned & Hindices & Hall).
    split; [| split; [| split; [| split]]].
    + rewrite Hvalues. now rewrite <- app_assoc.
    + etransitivity; eassumption.
    + congruence.
    + auto.
    + exists (index :: assigned). split.
      * rewrite Hindices. now rewrite <- app_assoc.
      * constructor; [| assumption]. cbn [fst].
        eapply lookup_weaken; eassumption.
Qed.

(** ** generateSparseVector *)

Lemma generateSparseVector_blank env text t w :
  String.eqb text "" || isBlank text = true ->
  generateSparseVector env text t w = (emptySparse, t, w).
Proof. intros H. unfold generateSparseVector. now rewrite H. Qed.

Lemma generateSparseVector_store env text t w :
  vocabulary t ⊆ vocabulary (snd (fst (generateSparseVector env text t w)))
  /\ vocabularyPath (snd (fst (generateSparseVector env text t w))) = vocabularyPath t
  /\ (vocabularyInvariant t ->
      vocabularyInvariant (snd (fst (generateSparseVector env text t w)))).
Proof.
  unfold generateSparseVector.
  destruct (String.eqb text "" || isBlank text); [cbn; auto |].
  destruct (tokenize env text w) as [tokens w1].
  destruct (length (termFrequencies tokens) =? 0)%nat; [cbn; auto |].
  destruct (toSparse_spec (termFrequencies tokens) t [] [])
    as (_ & Hext & Hpath & Hinv & _).
  destruct (toSparse (termFrequencies tokens) t [] []) as [sparse t1]. cbn in *. auto.
Qed.

Lemma generateSparseVector_spec env text t w :
  String.eqb text "" || isBlank text = false ->
  snd (generateSparseVector env text t w) = record (ReadDoc text) w
  /\ sv_values (fst (fst (generateSparseVector env text t w)))
     = map (termFrequency (fst (tokenize env text w)))
         (distinctTokens (fst (tokenize env text w)))
  /\ Forall2 (fun word index =>
                vocabulary (snd (fst (generateSparseVector env text t w))) !! word = Some index)
       (distinctTokens (fst (tokenize env text w)))
       (sv_indices (fst (fst (generateSparseVector env text t w)))).
Proof.
  intros Hblank. unfold generateSparseVector. rewrite Hblank.
  destruct (tokenize env text w) as [tokens w1] eqn:Htok.
  assert (Hw : w1 = record (ReadDoc text) w) by (unfold tokenize in Htok; congruence).
  cbn [fst]. rewrite termFrequencies_spec.
  destruct (distinctTokens tokens) as [| word words] eqn:Hdistinct.
  - cbn. split; [assumption | split; [reflexivity | constructor]].
  - rewrite <- Hdistinct. replace (length _ =? 0)%nat with false
      by (rewrite Hdistinct; reflexivity).
    destruct (toSparse_spec
                (map (fun word => (word, termFrequency tokens word)) (distinctTokens tokens))
                t [] []) as (Hvalues & _ & _ & _ & assigned & Hindices & Hall).
    destruct (toSparse _ t [] []) as [sparse t1]. cbn [fst snd] in *.
    split; [assumption | split].
    + rewrite Hvalues. cbn. rewrite map_map. reflexivity.
    + rewrite Hindices. cbn [app].
      apply Forall2_fmap_l in Hall. exact Hall.
Qed.

(** C6. [generateSparseVector] answers an empty or blank text with the
    empty sparse vector, without reading the text into the tokenizer and
    without touching the vocabulary. For any other text it reads the text
    once and emits one pair per distinct token of the tokenizer output, in
    the order of first occurrence: the value is the number of occurrences
    of the token and the index is the one the vocabulary holds for it.
    Indices and values have the same length in every case. *)
Theorem generateSparseVector_encodes env text t w :
  let '(sparse, t', w') := generateSparseVector env text t w in
  let tokens := fst (tokenize env text w) in
  length (sv_indices sparse) = length (sv_values sparse)
  /\ (text = "" \/ isBlank text = true -> sparse = emptySparse /\ t' = t /\ w' = w)
  /\ (text <> "" -> isBlank text = false ->
      w' = record (ReadDoc text) w
      /\ sv_values sparse = map (termFrequency tokens) (distinctTokens tokens)
      /\ Forall2 (fun word index => vocabulary t' !! word = Some index)
           (distinctTokens tokens) (sv_indices sparse)).
Proof.
  destruct (String.eqb text "" || isBlank text) eqn:Hblank.
  - rewrite (generateSparseVector_blank _ _ _ _ Hblank). cbn.
    split; [reflexivity | split; [auto |]].
    intros Hne Hnb. apply orb_true_iff in Hblank as [H | H]; [| congruence].
    now apply String.eqb_eq in H.
  - pose proof (generateSparseVector_spec env text t w Hblank) as (Hw & Hvalues & Hall).
    destruct (generateSparseVector env text t w) as [[sparse t'] w']. cbn [fst snd] in *.
    apply orb_false_iff in Hblank as [Hne Hnb]. apply String.eqb_neq in Hne.
    split; [| split].
    + apply Forall2_length in Hall. rewrite Hvalues, length_map. now rewrite Hall.
    + intros [-> | H]; [now destruct Hne | congruence].
    + auto.
Qed.

(** ** Saving and loading the vocabulary *)

Lemma newBM25Tokenizer_load path w :
  path <> "" ->
  newBM25Tokenizer (Some path) w
  = match disk w !! path with
    | None => ({| vocabulary := ∅; nextIndex := 0; vocabularyPath := Some path |}, w)
    | Some (SnapshotFile vocab next _) =>
        ({| vocabulary := vocab;
            nextIndex := orNumber next (Z.of_nat (size vocab));
            vocabularyPath := Some path |}, w)
    | Some (PlainJson ScalarMember next) =>
        ({| vocabulary := ∅; nextIndex := orNumber next 0; vocabularyPath := Some path |}, w)
    | Some _ =>
        ({| vocabulary := ∅; nextIndex := 0; vocabularyPath := Some path |},
         record (ConsoleWarn "[BM25Tokenizer] Failed to load vocabulary") w)
    end.
Proof.
  intros Hpath. apply String.eqb_neq in Hpath.
  unfold newBM25Tokenizer, loadVocabulary. cbn. rewrite Hpath. reflexivity.
Qed.

Lemma invariant_empty_at_zero t :
  vocabularyInvariant t -> nextIndex t = 0 -> size (vocabulary t) = 0%nat.
Proof.
  intros (_ & Hbound & _) Hzero.
  assert (Hempty : vocabulary t = ∅).
  { apply map_empty. intros word. destruct (vocabulary t !! word) as [index |] eqn:H;
      [| reflexivity].
    apply Hbound in H. lia. }
  rewrite Hempty. apply map_size_empty.
Qed.

(** Restarting from a snapshot of the current table gives the current
    tokenizer back and leaves the world alone. *)
Lemma reload_restores t w path timestamp :
  vocabularyInvariant t ->
  vocabularyPath t = Some path ->
  path <> "" ->
  disk w !! path = Some (SnapshotFile (vocabulary t) (Some (nextIndex t)) timestamp) ->
  newBM25Tokenizer (Some path) w = (t, w).
Proof.
  intros Hinv Hpath Hne Hdisk.
  rewrite (newBM25Tokenizer_load _ _ Hne), Hdisk. f_equal.
  assert (Hnext : orNumber (Some (nextIndex t)) (Z.of_nat (size (vocabulary t))) = nextIndex t).
  { unfold orNumber. destruct (nextIndex t =? 0) eqn:E; [| reflexivity].
    apply Z.eqb_eq in E. rewrite (invariant_empty_at_zero _ Hinv E). now rewrite E. }
  rewrite Hnext. destruct t as [vocab next vpath]. cbn in *. now subst vpath.
Qed.

(** When the file system takes the directory and the file, the snapshot
    on disk holds the table and the counter of the tokenizer. *)
Lemma saveVocabulary_stores env t w path :
  vocabularyPath t = Some path ->
  path <> "" ->
  env_mkdirSync env (history w) (dirname path) = None ->
  (forall h, env_writeFileSync env h path = None) ->
  exists timestamp,
    disk (saveVocabulary env t w) !! path
    = Some (SnapshotFile (vocabulary t) (Some (nextIndex t)) timestamp).
Proof.
  intros Hpath Hne Hmkdir Hwrite. apply String.eqb_neq in Hne.
  unfold saveVocabulary. rewrite Hpath, Hne.
  destruct (disk w !! dirname path).
  - rewrite Hwrite. eexists. cbn. apply lookup_insert_eq.
  - rewrite Hmkdir, Hwrite. eexists. cbn. apply lookup_insert_eq.
Qed.

(** Whatever the file system does, [saveVocabulary] ends normally: either
    the snapshot is on disk, or the failure was logged as its last act. *)
Lemma saveVocabulary_logs_failures env t w path :
  vocabularyPath t = Some path ->
  path <> "" ->
  (exists timestamp,
     disk (saveVocabulary env t w) !! path
     = Some (SnapshotFile (vocabulary t) (Some (nextIndex t)) timestamp))
  \/ (exists earlier,
        history (saveVocabulary env t w)
        = earlier ++ [ConsoleError "[BM25Tokenizer] Failed to save vocabulary"]).
Proof.
  intros Hpath Hne. apply String.eqb_neq in Hne.
  unfold saveVocabulary. rewrite Hpath, Hne.
  destruct (disk w !! dirname path).
  - destruct (env_writeFileSync _ _ _).
    + right. eexists. reflexivity.
    + left. eexists. cbn. apply lookup_insert_eq.
  - destruct (env_mkdirSync _ _ _); [right; eexists; reflexivity |].
    destruct (env_writeFileSync _ _ _).
    + right. eexists. reflexivity.
    + left. eexists. cbn. apply lookup_insert_eq.
Qed.

(** The snapshot of the current table, loaded: the table comes back as it
    is, the counter comes back unless it is 0, for which the number of
    terms is taken. *)
Lemma reload_counter t w path timestamp :
  path <> "" ->
  disk w !! path = Some (SnapshotFile (vocabulary t) (Some (nextIndex t)) timestamp) ->
  newBM25Tokenizer (Some path) w
  = ({| vocabulary := vocabulary t;
        nextIndex := if nextIndex t =? 0 then Z.of_nat (size (vocabulary t)) else nextIndex t;
        vocabularyPath := Some path |}, w).
Proof.
  intros Hne Hdisk. now rewrite (newBM25Tokenizer_load _ _ Hne), Hdisk.
Qed.

(** C9, as the code has it. When the file system takes the directory and
    the file, a snapshot that was written and is then loaded gives back
    the very same table, in every state of the store, and leaves the
    world as the save left it. The counter comes back as well unless it
    is 0 over a table that is not empty: a counter of 0 is read as absent
    and replaced by the number of terms. Loading from a path that holds
    no file starts from the empty table and counter 0. A file that cannot
    be read, is not JSON or has nothing under [vocabulary] does the same
    and logs a warning, without raising. A JSON file with a number or a
    boolean under [vocabulary] is loaded without any warning, as the
    empty table with the counter the file names. *)
Theorem vocabulary_snapshot_round_trip env t w path :
  vocabularyPath t = Some path ->
  path <> "" ->
  ((forall h dir, env_mkdirSync env h dir = None) ->
   (forall h, env_writeFileSync env h path = None) ->
   let saved := saveVocabulary env t w in
   let reloaded := fst (newBM25Tokenizer (Some path) saved) in
   snd (newBM25Tokenizer (Some path) saved) = saved
   /\ vocabulary reloaded = vocabulary t
   /\ vocabularyPath reloaded = vocabularyPath t
   /\ nextIndex reloaded
      = (if nextIndex t =? 0 then Z.of_nat (size (vocabulary t)) else nextIndex t)
   /\ (reloaded = t <-> nextIndex t <> 0 \/ vocabulary t = ∅))
  /\ (disk w !! path = None ->
      newBM25Tokenizer (Some path) w
      = ({| vocabulary := ∅; nextIndex := 0; vocabularyPath := Some path |}, w))
  /\ (disk w !! path = Some Directory
      \/ disk w !! path = Some UnreadableFile
      \/ disk w !! path = Some CorruptFile
      \/ (exists next, disk w !! path = Some (PlainJson MissingMember next)) ->
      newBM25Tokenizer (Some path) w
      = ({| vocabulary := ∅; nextIndex := 0; vocabularyPath := Some path |},
         record (ConsoleWarn "[BM25Tokenizer] Failed to load vocabulary") w))
  /\ (forall next,
        disk w !! path = Some (PlainJson ScalarMember next) ->
        newBM25Tokenizer (Some path) w
        = ({| vocabulary := ∅; nextIndex := orNumber next 0; vocabularyPath := Some path |},
           w)).
Proof.
  intros Hpath Hne. split; [| split; [| split]].
  - intros Hmkdir Hwrite saved reloaded. subst reloaded saved.
    destruct (saveVocabulary_stores env t w path Hpath Hne (Hmkdir _ _) Hwrite)
      as [timestamp Hdisk].
    rewrite (reload_counter _ _ _ _ Hne Hdisk). cbn [fst snd vocabulary vocabularyPath nextIndex].
    split; [reflexivity | split; [reflexivity | split; [now rewrite Hpath | split]]];
      [reflexivity |].
    destruct t as [vocab next vpath]. cbn [vocabulary nextIndex vocabularyPath] in *.
    subst vpath. destruct (Z.eqb_spec next 0) as [-> | Hnext].
    + split.
      * intros Hsame. right. injection Hsame as Hsize.
        apply map_size_empty_iff. lia.
      * intros [Hzero | ->]; [now destruct Hzero |]. now rewrite map_size_empty.
    + split; [intros _; now left | reflexivity].
  - intros Hdisk. now rewrite (newBM25Tokenizer_load _ _ Hne), Hdisk.
  - intros [Hdisk | [Hdisk | [Hdisk | [next Hdisk]]]];
      now rewrite (newBM25Tokenizer_load _ _ Hne), Hdisk.
  - intros next Hdisk. now rewrite (newBM25Tokenizer_load _ _ Hne), Hdisk.
Qed.

(** ** Stability of vocabulary indices *)

Lemma newBM25Tokenizer_invariant path w :
  disk w !! path = None ->
  vocabularyInvariant (fst (newBM25Tokenizer (Some path) w)).
Proof.
  intros Hdisk.
  assert (Hfresh : vocabularyInvariant
                     {| vocabulary := ∅; nextIndex := 0; vocabularyPath := Some path |}).
  { split; [cbn; lia |]. split; intros *; cbn; rewrite lookup_empty; discriminate. }
  unfold newBM25Tokenizer, loadVocabulary. cbn.
  destruct (String.eqb path ""); [exact Hfresh |]. rewrite Hdisk. exact Hfresh.
Qed.

(** Along the life of a store the invariant is kept and the table only
    grows. *)
Lemma lifetime_preserves env tw tw' :
  lifetime env tw tw' ->
  vocabularyInvariant (fst tw) ->
  vocabularyInvariant (fst tw') /\ vocabulary (fst tw) ⊆ vocabulary (fst tw').
Proof.
  induction 1 as [tw | tw t w text _ IH | tw t w _ IH | tw t w w' _ IH
                 | tw t w path timestamp _ IH Hpath Hne Hdisk];
    intros Hinv.
  - split; [assumption | reflexivity].
  - destruct (IH Hinv) as [Hinv' Hsub]. cbn [fst] in *.
    destruct (generateSparseVector_store env text t w) as (Hext & _ & Hkeep).
    split; [auto | etransitivity; eassumption].
  - exact (IH Hinv).
  - exact (IH Hinv).
  - destruct (IH Hinv) as [Hinv' Hsub]. cbn [fst] in *.
    rewrite (reload_restores _ _ _ _ Hinv' Hpath Hne Hdisk). cbn [fst]. auto.
Qed.

(** C4, as the code has it. In a store whose indices are distinct and
    below [nextIndex], as they are from the empty store on, a term that
    has an index keeps it while texts are encoded, the vocabulary is
    saved, and the process restarts from a snapshot that holds the
    current table: the table keeps the pair, no other term ever gets that
    index, and every later encoding of a text whose tokens include the
    term emits that index at the term's place. *)
Theorem vocabulary_index_is_stable env t w t' w' term index :
  vocabularyInvariant t ->
  vocabulary t !! term = Some index ->
  lifetime env (t, w) (t', w') ->
  vocabulary t' !! term = Some index
  /\ (forall other, vocabulary t' !! other = Some index -> other = term)
  /\ (forall text,
        text <> "" -> isBlank text = false ->
        In term (fst (tokenize env text w')) ->
        exists position : nat,
          distinctTokens (fst (tokenize env text w')) !! position = Some term
          /\ sv_indices (fst (fst (generateSparseVector env text t' w'))) !! position
             = Some index)
  /\ vocabularyInvariant t'.
Proof.
  intros Hinv Hterm Hlife.
  destruct (lifetime_preserves _ _ _ Hlife Hinv) as [Hinv' Hsub]. cbn [fst] in *.
  assert (Hterm' : vocabulary t' !! term = Some index) by (eapply lookup_weaken; eassumption).
  split; [assumption | split; [| split; [| assumption]]].
  - intros other Hother. destruct Hinv' as (_ & _ & Hinj). eauto.
  - intros text Hne Hnb Hin.
    assert (Hblank : String.eqb text "" || isBlank text = false).
    { apply orb_false_iff. split; [now apply String.eqb_neq | assumption]. }
    destruct (generateSparseVector_spec env text t' w' Hblank) as (_ & _ & Hall).
    destruct (generateSparseVector_store env text t' w') as (Hext & _ & _).
    apply distinctTokens_In, list_elem_of_In, list_elem_of_lookup in Hin as [position Hpos].
    exists position. split; [assumption |].
    destruct (Forall2_lookup_l _ _ _ _ _ Hall Hpos) as (emitted & Hemitted & Hlookup).
    rewrite Hemitted. f_equal.
    pose proof (lookup_weaken _ _ _ _ Hterm' Hext) as Hkept. congruence.
Qed.

Lemma helloTokenizer_invariant : vocabularyInvariant helloTokenizer.
Proof.
  unfold helloTokenizer. apply generateSparseVector_store.
  apply newBM25Tokenizer_invariant. reflexivity.
Qed.

Example generateSparseVector_hello :
  fst (fst (generateSparseVector healthy "hello world hello" freshTokenizer emptyWorld))
  = {| sv_indices := [0; 1]; sv_values := [2; 1] |}.
Proof. reflexivity. Qed.

Lemma vocabulary_snapshot_round_trip_witness :
  vocabularyPath helloTokenizer = Some vocabularyFile
  /\ vocabularyFile <> ""
  /\ fst (newBM25Tokenizer (Some vocabularyFile) (saveVocabulary healthy helloTokenizer helloWorld))
     = helloTokenizer
  /\ vocabulary helloTokenizer !! "world" = Some 1
  /\ nextIndex helloTokenizer = 2.
Proof.
  assert (Hpath : vocabularyPath helloTokenizer = Some vocabularyFile) by reflexivity.
  assert (Hne : vocabularyFile <> "") by discriminate.
  split; [exact Hpath |]. split; [exact Hne |].
  destruct (vocabulary_snapshot_round_trip healthy helloTokenizer helloWorld vocabularyFile
              Hpath Hne) as [Hround _].
  split; [| split; reflexivity].
  destruct (Hround (fun _ _ => eq_refl) (fun _ => eq_refl)) as (_ & _ & _ & _ & Hsame).
  apply Hsame. left. discriminate.
Defined.

(** The claim as it stands fails twice. A tokenizer loaded from a snapshot
    with counter -1 has counter 0 after its first new word; saved and
    loaded again it has counter 1. And the file
    [{"vocabulary": 5, "nextIndex": 3}] is loaded silently: no warning,
    and the counter is 3, not 0. *)
Lemma vocabulary_snapshot_round_trip_counterexample :
  vocabulary countedUpTokenizer = {["hello" := -1]}
  /\ nextIndex countedUpTokenizer = 0
  /\ fst (newBM25Tokenizer (Some vocabularyFile)
            (saveVocabulary healthy countedUpTokenizer handWrittenWorld))
     = {| vocabulary := {["hello" := -1]};
          nextIndex := 1;
          vocabularyPath := Some vocabularyFile |}
  /\ newBM25Tokenizer (Some vocabularyFile) scalarWorld
     = ({| vocabulary := ∅; nextIndex := 3; vocabularyPath := Some vocabularyFile |},
        scalarWorld).
Proof. repeat split. Qed.

(** After the first text the store is saved, the process restarts from
    the snapshot and encodes a second text: [world] is still 1. *)
Lemma vocabulary_index_is_stable_witness :
  vocabulary
    (snd (fst (generateSparseVector healthy "brave new world"
                 (fst (newBM25Tokenizer (Some vocabularyFile)
                         (saveVocabulary healthy helloTokenizer helloWorld)))
                 (saveVocabulary healthy helloTokenizer helloWorld))))
  !! "world" = Some 1.
Proof.
  set (saved := saveVocabulary healthy helloTokenizer helloWorld).
  set (reloaded := newBM25Tokenizer (Some vocabularyFile) saved).
  assert (Hlife : lifetime healthy (helloTokenizer, helloWorld)
                    (snd (fst (generateSparseVector healthy "brave new world"
                                 (fst reloaded) (snd reloaded))),
                     snd (generateSparseVector healthy "brave new world"
                            (fst reloaded) (snd reloaded)))).
  { apply lifetime_encode.
    replace (fst reloaded, snd reloaded) with reloaded by now destruct reloaded.
    apply (lifetime_reload healthy _ helloTokenizer saved vocabularyFile
             "2025-01-01T00:00:00.000Z").
    - apply lifetime_save. apply lifetime_refl.
    - reflexivity.
    - discriminate.
    - reflexivity. }
  exact (proj1 (vocabulary_index_is_stable healthy helloTokenizer helloWorld _ _ "world" 1
                  helloTokenizer_invariant eq_refl Hlife)).
Defined.

(** C4, as stated, fails: index 2 is assigned to [novel] when a query is
    encoded, the vocabulary is not saved after a search, and once the
    process has restarted from the snapshot on disk the same index 2 goes
    to [brave]. *)
Lemma vocabulary_index_reassigned_counterexample :
  List.filter carriesSparse (history (world secondSession))
  = [CallUpsert "code_chunks_ab12cd34"
       [{| pt_id := "d0";
           pt_vector := {| hv_dense := [1 # 2];
                           hv_sparse := {| sv_indices := [0; 1]; sv_values := [1; 1] |} |};
           pt_payload := pointPayload (sampleDocument "d0" (VectorArray [1 # 2]) "hello world") |}];
     CallQuery "code_chunks_ab12cd34"
       {| qr_prefetch :=
            [{| pf_prefetch := [];
                pf_query := SparseQuery [2] [1];
                pf_using := "sparse";
                pf_limit := 100;
                pf_with_payload := true |}];
          qr_fusion := "rrf";
          qr_limit := 10;
          qr_with_payload := true;
          qr_filter := None |};
     CallUpsert "code_chunks_ab12cd34"
       [{| pt_id := "d1";
           pt_vector := {| hv_dense := [1 # 2];
                           hv_sparse := {| sv_indices := [2]; sv_values := [1] |} |};
           pt_payload := pointPayload (sampleDocument "d1" (VectorArray [1 # 2]) "brave") |}]]
  /\ tokenizers (this firstSession) !! "code_chunks_ab12cd34" ≫= (fun t => vocabulary t !! "novel")
     = Some 2
  /\ tokenizers (this secondSession) !! "code_chunks_ab12cd34" ≫= (fun t => vocabulary t !! "brave")
     = Some 2.
Proof. repeat split. Qed.

(** ** Encoding through the registry *)

Lemma newBM25Tokenizer_world path w :
  disk (snd (newBM25Tokenizer path w)) = disk w
  /\ exists added,
       history (snd (newBM25Tokenizer path w)) = history w ++ added /\ Forall local added.
Proof.
  assert (Hsame : disk w = disk w /\ exists added, history w = history w ++ added
                                                   /\ Forall local added).
  { split; [reflexivity |]. exists []. split; [now rewrite app_nil_r | constructor]. }
  unfold newBM25Tokenizer, loadVocabulary. destruct path as [path |]; [| exact Hsame].
  cbn. destruct (String.eqb path ""); [exact Hsame |].
  destruct (disk w !! path) as [[| | | vocab next timestamp | [|] next] |]; try exact Hsame;
    (split; [reflexivity |]; eexists; split; [reflexivity | now repeat constructor]).
Qed.

Lemma generateSparseVector_world env text t w :
  disk (snd (generateSparseVector env text t w)) = disk w
  /\ exists added,
       history (snd (generateSparseVector env text t w)) = history w ++ added
       /\ Forall local added.
Proof.
  assert (Hsame : disk w = disk w /\ exists added, history w = history w ++ added
                                                   /\ Forall local added).
  { split; [reflexivity |]. exists []. split; [now rewrite app_nil_r | constructor]. }
  assert (Hread : disk (record (ReadDoc text) w) = disk w
                  /\ exists added, history (record (ReadDoc text) w) = history w ++ added
                                   /\ Forall local added).
  { split; [reflexivity |]. eexists. split; [reflexivity | now repeat constructor]. }
  unfold generateSparseVector.
  destruct (String.eqb text "" || isBlank text); [exact Hsame |].
  unfold tokenize.
  destruct (length (termFrequencies _) =? 0)%nat; [exact Hread |].
  destruct (toSparse _ t [] []). exact Hread.
Qed.

Lemma getTokenizer_run env collectionName s :
  grows local s (snd (getTokenizer env collectionName s))
  /\ exists t,
       fst (getTokenizer env collectionName s) = Returned t
       /\ tokenizers (this (snd (getTokenizer env collectionName s))) !! collectionName = Some t.
Proof.
  unfold getTokenizer.
  destruct (tokenizers (this s) !! collectionName) as [t |] eqn:Hlookup.
  - split; [apply grows_refl | eauto].
  - destruct (newBM25Tokenizer_world
                (Some (orString (cfg_vocabularyPath (config (this s)))
                         (getVocabularyPathFromCollection env collectionName)))
                (world s)) as [_ (added & Hhistory & Hlocal)].
    destruct (newBM25Tokenizer _ (world s)) as [t w]. cbn [fst snd] in *.
    split.
    + repeat split. exists added. cbn. auto.
    + exists t. split; [reflexivity |]. cbn. apply lookup_insert_eq.
Qed.

(** Encoding through the registry returns the sparse vector of the text
    and adds local events only. *)
Lemma tokenizerGenerate_run env collectionName text s :
  grows local s (snd (tokenizerGenerate env collectionName text s))
  /\ exists t w,
       fst (tokenizerGenerate env collectionName text s)
       = Returned (fst (fst (generateSparseVector env text t w))).
Proof.
  unfold tokenizerGenerate, bind.
  destruct (getTokenizer_run env collectionName s) as [Hgrows (t & Hfst & _)].
  destruct (getTokenizer env collectionName s) as [r s1]. cbn [fst snd] in *. subst r.
  destruct (generateSparseVector_world env text t (world s1)) as [_ (added & Hhistory & Hlocal)].
  destruct (generateSparseVector env text t (world s1)) as [[sparse t'] w] eqn:Hgen.
  cbn [fst snd] in *. split.
  - eapply grows_trans; [exact Hgrows |].
    repeat split. exists added. cbn. auto.
  - exists t, (world s1). now rewrite Hgen.
Qed.

(** ** The points of a hybrid insert *)

Lemma hybridPoints_run env collectionName documents : forall index s,
  grows local s (snd (hybridPoints env collectionName documents index s))
  /\ match firstInvalid documents index with
     | Some (position, doc) =>
         fst (hybridPoints env collectionName documents index s)
         = Raised (validationError position doc)
     | None =>
         exists points,
           fst (hybridPoints env collectionName documents index s) = Returned points
     end.
Proof.
  induction documents as [| doc rest IH]; intros index s.
  - cbn. split; [apply grows_refl | eauto].
  - cbn [hybridPoints firstInvalid]. unfold invalidVector, validationError.
    destruct (doc_vector doc) as [v |] eqn:Hvector.
    + destruct (length v =? 0)%nat eqn:Hlen.
      * rewrite Hvector. split; [| reflexivity].
        apply emitsOnly_bind; [now apply emitsOnly_emit | intros _; apply emitsOnly_newError].
      * unfold bind.
        destruct (tokenizerGenerate_run env collectionName (doc_content doc) s)
          as [Hgrows (t & w & Hfst)].
        destruct (tokenizerGenerate env collectionName (doc_content doc) s) as [r s1].
        cbn [fst snd] in *. subst r.
        destruct (IH (index + 1) s1) as [Hrest Hout].
        destruct (hybridPoints env collectionName rest (index + 1) s1) as [[points | t'] s2];
          cbn [fst snd] in *.
        -- split; [eapply grows_trans; eassumption |].
           destruct (firstInvalid rest (index + 1)) as [[position doc'] |];
             [discriminate Hout | eauto].
        -- split; [eapply grows_trans; eassumption |].
           destruct (firstInvalid rest (index + 1)) as [[position doc'] |];
             [assumption | now destruct Hout].
    + rewrite Hvector. split; [| reflexivity].
      apply emitsOnly_bind; [now apply emitsOnly_emit | intros _; apply emitsOnly_newError].
Qed.

(** ** insertHybrid *)

Lemma insertHybridCatch_run documents error s :
  fst (insertHybridCatch documents error s) = Raised error
  /\ grows local s (snd (insertHybridCatch documents error s)).
Proof.
  unfold insertHybridCatch, bind, emit, throw. cbn [fst snd].
  destruct (0 <? length documents)%nat; cbn [fst snd]; (split; [reflexivity |]);
    repeat split; eexists; (split; [cbn; rewrite <- ?app_assoc; reflexivity |]);
    now repeat constructor.
Qed.

Lemma local_quiet e : local e -> quiet e.
Proof. destruct e; cbn; unfold local, quiet; cbn; intros H; try discriminate; auto. Qed.

(** C2, as the code has it. A hybrid insert of a batch with an invalid
    dense vector always ends in an error, without upsert and without
    retry, but not before the remote service was asked: the existence
    probe comes first and, when it succeeds, the metadata fetch. The
    error is the validation error of the first invalid document when both
    calls succeed and the collection has a sparse space; otherwise it is
    the error about the collection. Besides the two calls only local
    events happen. *)
Theorem insertHybrid_rejects_invalid_vectors env collectionName documents s position doc :
  initialized s ->
  firstInvalid documents 0 = Some (position, doc) ->
  let s1 := setWorld (record (CallGetCollection collectionName) (world s)) s in
  let s2 := setWorld (record (CallGetCollection collectionName) (world s1)) s1 in
  let run := insertHybrid env collectionName documents s in
  match env_getCollection env (history (world s)) collectionName with
  | inl _ => fst run = Raised (missingCollection collectionName) /\ grows local s1 (snd run)
  | inr _ =>
      match env_getCollection env (history (world s1)) collectionName with
      | inl thrown => fst run = Raised thrown /\ grows local s2 (snd run)
      | inr info =>
          fst run = Raised (if hasSparseName info
                            then validationError position doc
                            else unsupportedCollection collectionName)
          /\ grows local s2 (snd run)
      end
  end.
Proof.
  intros Hinit Hinvalid s1 s2 run.
  assert (Hinit1 : initialized s1) by exact Hinit.
  assert (Hrun : run = insertHybrid env collectionName documents s) by reflexivity.
  clearbody run. unfold insertHybrid in Hrun.
  destruct documents as [| first others]; [discriminate |].
  cbn [length Nat.eqb] in Hrun. unfold bind at 1 in Hrun.
  rewrite (ensureInitialized_ready _ Hinit) in Hrun.
  unfold tryCatch, insertHybridTry in Hrun. unfold bind at 1 in Hrun.
  rewrite (hasCollection_ready _ _ _ Hinit) in Hrun. fold s1 in Hrun.
  destruct (env_getCollection env (history (world s)) collectionName) as [thrown1 | info1].
  - cbn [negb] in Hrun. unfold bind at 1 in Hrun. unfold newError at 1, throw at 1 in Hrun.
    rewrite Hrun. apply insertHybridCatch_run.
  - cbn [negb] in Hrun. unfold bind at 1 in Hrun. unfold ret at 1 in Hrun.
    unfold bind at 1 in Hrun. unfold remoteGetCollection at 1 in Hrun.
    rewrite (clientCall_ready _ _ _ Hinit1) in Hrun. fold s2 in Hrun.
    destruct (env_getCollection env (history (world s1)) collectionName) as [thrown2 | info].
    + rewrite Hrun. apply insertHybridCatch_run.
    + destruct (hasSparseName info); cbn [negb] in Hrun.
      * unfold bind at 1 in Hrun. unfold ret at 1 in Hrun. unfold bind at 1 in Hrun.
        destruct (hybridPoints_run env collectionName (first :: others) 0 s2) as [Hgrows Hout].
        rewrite Hinvalid in Hout.
        destruct (hybridPoints env collectionName (first :: others) 0 s2) as [r s3].
        cbn [fst snd] in Hgrows, Hout. subst r. rewrite Hrun.
        destruct (insertHybridCatch_run (first :: others) (validationError position doc) s3)
          as [Hraised Hcatch].
        split; [assumption | eapply grows_trans; eassumption].
      * unfold bind at 1 in Hrun. unfold newError at 1, throw at 1 in Hrun.
        rewrite Hrun. apply insertHybridCatch_run.
Qed.

Lemma insertHybrid_rejects_invalid_vectors_witness :
  initialized hybridState
  /\ firstInvalid [sampleDocument "d0" (VectorArray [1 # 2]) "hello world";
                  sampleDocument "d1" NotAnArray "hello again"] 0
     = Some (1, sampleDocument "d1" NotAnArray "hello again")
  /\ fst (insertHybrid healthy "code_chunks_ab12cd34"
            [sampleDocument "d0" (VectorArray [1 # 2]) "hello world";
             sampleDocument "d1" NotAnArray "hello again"] hybridState)
     = Raised (ErrorObject (mkError "Document 1 (d1) has non-array vector")).
Proof.
  assert (Hinit : initialized hybridState) by (split; [reflexivity | eexists; reflexivity]).
  split; [exact Hinit |]. split; [reflexivity |].
  exact (proj1 (insertHybrid_rejects_invalid_vectors healthy "code_chunks_ab12cd34"
                  [sampleDocument "d0" (VectorArray [1 # 2]) "hello world";
                   sampleDocument "d1" NotAnArray "hello again"]
                  hybridState 1 (sampleDocument "d1" NotAnArray "hello again")
                  Hinit eq_refl)).
Defined.

(** C2, as stated, fails: the only document of the batch has an empty
    vector, and the validation error is raised only after the existence
    probe and the metadata fetch went to the remote service. *)
Lemma insertHybrid_probes_first_counterexample :
  fst (insertHybrid healthy "code_chunks_ab12cd34"
         [sampleDocument "d1" (VectorArray []) "hello world"] hybridState)
  = Raised (ErrorObject (mkError "Document 0 (d1) has empty vector"))
  /\ history (world (snd (insertHybrid healthy "code_chunks_ab12cd34"
                            [sampleDocument "d1" (VectorArray []) "hello world"] hybridState)))
     = history (world hybridState)
       ++ [CallGetCollection "code_chunks_ab12cd34";
           CallGetCollection "code_chunks_ab12cd34";
           ConsoleError "[QdrantDB] Document has empty vector";
           ConsoleError "[QdrantDB] Failed to insert hybrid documents into collection";
           ConsoleError "[QdrantDB] Attempted to insert documents";
           ConsoleError "[QdrantDB] First document details"].
Proof. split; reflexivity. Qed.

Lemma ensureInitialized_cases s :
  initialized s \/ exists thrown, ensureInitialized s = (Raised thrown, s).
Proof.
  unfold ensureInitialized, initialized.
  destruct (initializationPromise (this s)); [| right; eauto].
  destruct (client (this s)); [left; split; eauto | right; eauto].
Qed.

Lemma saveVocabulary_world env t w :
  exists added,
    history (saveVocabulary env t w) = history w ++ added
    /\ Forall (fun e => isUpsert e = false) added.
Proof.
  assert (Hsame : exists added, history w = history w ++ added
                                /\ Forall (fun e => isUpsert e = false) added).
  { exists []. split; [now rewrite app_nil_r | constructor]. }
  unfold saveVocabulary. destruct (vocabularyPath t) as [path |]; [| exact Hsame].
  destruct (String.eqb path ""); [exact Hsame |].
  destruct (disk w !! dirname path).
  - destruct (env_writeFileSync _ _ _); eexists;
      (split; [cbn; rewrite <- ?app_assoc; reflexivity | now repeat constructor]).
  - destruct (env_mkdirSync _ _ _);
      [eexists; split; [cbn; rewrite <- ?app_assoc; reflexivity | now repeat constructor] |].
    destruct (env_writeFileSync _ _ _); eexists;
      (split; [cbn; rewrite <- ?app_assoc; reflexivity | now repeat constructor]).
Qed.

(** Saving through the registry always returns. *)
Lemma tokenizerSave_run env collectionName s :
  fst (tokenizerSave env collectionName s) = Returned tt
  /\ grows (fun e => isUpsert e = false) s (snd (tokenizerSave env collectionName s)).
Proof.
  unfold tokenizerSave, bind.
  destruct (getTokenizer_run env collectionName s) as [Hgrows (t & Hfst & _)].
  destruct (getTokenizer env collectionName s) as [r s1]. cbn [fst snd] in *. subst r.
  split; [reflexivity |].
  eapply grows_trans.
  - eapply grows_weaken; [| exact Hgrows]. intros e He. now apply local_quiet.
  - destruct (saveVocabulary_world env t (world s1)) as (added & Hhistory & Hadded).
    repeat split. exists added. cbn. auto.
Qed.

(** C10. A hybrid insert touches the vocabulary snapshot only after its
    upsert was answered with the status [acknowledged] or [completed],
    and from the moment the upsert is answered, with whatever status, the
    insert returns normally: nothing the file system does to
    [saveVocabulary] changes that. [saveVocabulary] itself either leaves
    the snapshot on disk or logs the failure and returns. *)
Theorem insertHybrid_survives_save_failures env collectionName documents s :
  let run := insertHybrid env collectionName documents s in
  (grows quiet s (snd run)
   \/ exists s3 points,
        grows quiet s s3
        /\ let s4 := setWorld (record (CallUpsert collectionName points) (world s3)) s3 in
           match env_upsert env (history (world s3)) collectionName points with
           | inl thrown => fst run = Raised thrown /\ grows quiet s4 (snd run)
           | inr result =>
               fst run = Returned tt
               /\ if accepted result
                  then grows (fun e => isUpsert e = false) s4 (snd run)
                  else grows quiet s4 (snd run)
           end)
  /\ forall t w path,
       vocabularyPath t = Some path ->
       path <> "" ->
       (exists timestamp,
          disk (saveVocabulary env t w) !! path
          = Some (SnapshotFile (vocabulary t) (Some (nextIndex t)) timestamp))
       \/ (exists earlier,
             history (saveVocabulary env t w)
             = earlier ++ [ConsoleError "[BM25Tokenizer] Failed to save vocabulary"]).
Proof.
  intros run. split; [| intros t w path; apply saveVocabulary_logs_failures].
  assert (Hrun : run = insertHybrid env collectionName documents s) by reflexivity.
  clearbody run. unfold insertHybrid in Hrun.
  destruct (length documents =? 0)%nat.
  { left. rewrite Hrun. apply grows_refl. }
  unfold bind at 1 in Hrun.
  destruct (ensureInitialized_cases s) as [Hinit | [thrown Hfail]].
  2:{ left. rewrite Hfail in Hrun. rewrite Hrun. apply grows_refl. }
  rewrite (ensureInitialized_ready _ Hinit) in Hrun.
  assert (Hcatch : forall error s0,
             grows quiet s s0 -> grows quiet s (snd (insertHybridCatch documents error s0))).
  { intros error s0 Hs0. eapply grows_trans; [exact Hs0 |].
    eapply grows_weaken; [| apply insertHybridCatch_run]. apply local_quiet. }
  set (s1 := setWorld (record (CallGetCollection collectionName) (world s)) s).
  assert (Hs1 : grows quiet s s1) by (apply grows_record; now split).
  set (s2 := setWorld (record (CallGetCollection collectionName) (world s1)) s1).
  assert (Hs2 : grows quiet s s2).
  { eapply grows_trans; [exact Hs1 | apply grows_record; now split]. }
  unfold tryCatch, insertHybridTry in Hrun. unfold bind at 1 in Hrun.
  rewrite (hasCollection_ready _ _ _ Hinit) in Hrun. fold s1 in Hrun.
  destruct (env_getCollection env (history (world s)) collectionName) as [thrown1 | info1].
  { cbn [negb] in Hrun. unfold bind at 1 in Hrun. unfold newError at 1, throw at 1 in Hrun.
    left. rewrite Hrun. now apply Hcatch. }
  cbn [negb] in Hrun. unfold bind at 1 in Hrun. unfold ret at 1 in Hrun.
  unfold bind at 1 in Hrun. unfold remoteGetCollection at 1 in Hrun.
  rewrite (clientCall_ready _ _ _ (Hinit : initialized s1)) in Hrun. fold s2 in Hrun.
  destruct (env_getCollection env (history (world s1)) collectionName) as [thrown2 | info].
  { left. rewrite Hrun. now apply Hcatch. }
  destruct (hasSparseName info); cbn [negb] in Hrun.
  2:{ unfold bind at 1 in Hrun. unfold newError at 1, throw at 1 in Hrun.
      left. rewrite Hrun. now apply Hcatch. }
  unfold bind at 1 in Hrun. unfold ret at 1 in Hrun. unfold bind at 1 in Hrun.
  destruct (hybridPoints_run env collectionName documents 0 s2) as [Hpoints _].
  destruct (hybridPoints env collectionName documents 0 s2) as [[points | thrown3] s3].
  2:{ left. rewrite Hrun. apply Hcatch. eapply grows_trans; [exact Hs2 |].
      eapply grows_weaken; [| exact Hpoints]. apply local_quiet. }
  cbn [snd] in Hpoints.
  assert (Hs3 : grows quiet s s3).
  { eapply grows_trans; [exact Hs2 |].
    eapply grows_weaken; [| exact Hpoints]. apply local_quiet. }
  assert (Hinit3 : initialized s3) by (eapply grows_initialized; eassumption).
  right. exists s3, points. split; [exact Hs3 |].
  unfold bind at 1 in Hrun. unfold remoteUpsert at 1 in Hrun.
  rewrite (clientCall_ready _ _ _ Hinit3) in Hrun.
  set (s4 := setWorld (record (CallUpsert collectionName points) (world s3)) s3) in *.
  cbv zeta.
  destruct (env_upsert env (history (world s3)) collectionName points) as [thrown4 | result].
  { rewrite Hrun. split; [apply insertHybridCatch_run |].
    eapply grows_weaken; [| apply insertHybridCatch_run]. apply local_quiet. }
  destruct (accepted result).
  - unfold bind at 1, tryCatch at 1, bind at 1, remoteGetCollection at 1 in Hrun.
    rewrite (clientCall_ready _ _ _ (Hinit3 : initialized s4)) in Hrun.
    set (s5 := setWorld (record (CallGetCollection collectionName) (world s4)) s4) in *.
    assert (Hs5 : grows (fun e => isUpsert e = false) s4 s5) by now apply grows_record.
    destruct (env_getCollection env (history (world s4)) collectionName) as [thrown5 | info5].
    + unfold emit at 1 in Hrun.
      destruct (tokenizerSave_run env collectionName
                  (setWorld (record (ConsoleWarn "[QdrantDB] Failed to verify points count")
                               (world s5)) s5)) as [Hreturned Hsave].
      destruct (tokenizerSave env collectionName _) as [r6 s6].
      cbn [fst snd] in Hreturned, Hsave. subst r6. rewrite Hrun. split; [reflexivity |].
      eapply grows_trans; [exact Hs5 |].
      eapply grows_trans; [| exact Hsave]. now apply grows_record.
    + unfold ret at 1 in Hrun.
      destruct (tokenizerSave_run env collectionName s5) as [Hreturned Hsave].
      destruct (tokenizerSave env collectionName s5) as [r6 s6].
      cbn [fst snd] in Hreturned, Hsave. subst r6. rewrite Hrun. split; [reflexivity |].
      eapply grows_trans; [exact Hs5 | exact Hsave].
  - unfold emit at 1 in Hrun. rewrite Hrun. split; [reflexivity |].
    apply grows_record. now split.
Qed.

Example insertHybrid_disk_full :
  fst (insertHybrid diskFull "code_chunks_ab12cd34"
         [sampleDocument "d0" (VectorArray [1 # 2]) "hello world hello"] hybridState)
  = Returned tt
  /\ List.filter (fun e => negb (isLocal e))
       (skipn (length (history (world hybridState)))
          (history (world (snd (insertHybrid diskFull "code_chunks_ab12cd34"
                                  [sampleDocument "d0" (VectorArray [1 # 2]) "hello world hello"]
                                  hybridState)))))
     = [CallGetCollection "code_chunks_ab12cd34";
        CallGetCollection "code_chunks_ab12cd34";
        CallUpsert "code_chunks_ab12cd34"
          [{| pt_id := "d0";
              pt_vector := {| hv_dense := [1 # 2];
                              hv_sparse := {| sv_indices := [0; 1]; sv_values := [2; 1] |} |};
              pt_payload :=
                pointPayload (sampleDocument "d0" (VectorArray [1 # 2]) "hello world hello") |}];
        CallGetCollection "code_chunks_ab12cd34";
        MkdirSync "/home/user/.context/vocabulary"]
  /\ List.last
       (history (world (snd (insertHybrid diskFull "code_chunks_ab12cd34"
                               [sampleDocument "d0" (VectorArray [1 # 2]) "hello world hello"]
                               hybridState))))
       (ReadDoc "")
     = ConsoleError "[BM25Tokenizer] Failed to save vocabulary".
Proof. repeat split. Qed.

(** ** hybridSearch *)

Lemma prefetchQueries_run env collectionName searchRequests : forall s,
  grows local s (snd (prefetchQueries env collectionName searchRequests s))
  /\ exists entries,
       fst (prefetchQueries env collectionName searchRequests s) = Returned entries
       /\ Forall2 (prefetchFor env) searchRequests entries.
Proof.
  induction searchRequests as [| request rest IH]; intros s.
  - cbn. split; [apply grows_refl |]. exists []. split; [reflexivity | constructor].
  - cbn [prefetchQueries]. fold (isDenseRequest request). unfold bind.
    destruct (isDenseRequest request) eqn:Hdense.
    + unfold ret. cbv beta iota.
      destruct (IH s) as [Hgrows (entries & Hfst & Hall)].
      destruct (prefetchQueries env collectionName rest s) as [r s1].
      cbn [fst snd] in *. subst r. split; [assumption |].
      eexists. split; [reflexivity |]. constructor; [| assumption].
      unfold prefetchFor. rewrite Hdense. cbn. auto.
    + destruct (tokenizerGenerate_run env collectionName
                  (match hr_data request with TextData q => q | VectorData _ => "" end) s)
        as [Hgrows (t & w & Hfst)].
      destruct (tokenizerGenerate env collectionName _ s) as [r s1].
      cbn [fst snd] in Hgrows, Hfst. subst r. unfold ret. cbv beta iota.
      destruct (IH s1) as [Hgrows' (entries & Hfst' & Hall)].
      destruct (prefetchQueries env collectionName rest s1) as [r s2].
      cbn [fst snd] in *. subst r. split; [eapply grows_trans; eassumption |].
      eexists. split; [reflexivity |]. constructor; [| assumption].
      unfold prefetchFor. rewrite Hdense. cbn. split; [reflexivity |].
      split; [reflexivity |]. exists t, w. reflexivity.
Qed.

(** C7, as the code has it. On an initialized database a hybrid search
    with at least one request sends exactly one query, and before and
    after it only local events happen. The query carries one prefetch
    per request, in order, each asking for [max(limit * 3, 100)]
    candidates: the query vector as it came for a dense field, the sparse
    encoding of the query text for a lexical one. It fuses by [rrf],
    carries the caller's filter as it is, and asks for the caller's limit
    unless that limit is absent or zero, in which case it asks for 10. *)
Theorem hybridSearch_issues_one_fused_query env collectionName searchRequests options s :
  initialized s ->
  searchRequests <> [] ->
  exists s1 prefetch,
    grows local s s1
    /\ Forall2 (prefetchFor env) searchRequests prefetch
    /\ qr_prefetch (queryRequest prefetch options) = prefetch
    /\ qr_fusion (queryRequest prefetch options) = "rrf"
    /\ qr_limit (queryRequest prefetch options)
       = match options with
         | Some o =>
             match ho_limit o with
             | Some limit => if limit =? 0 then 10 else limit
             | None => 10
             end
         | None => 10
         end
    /\ qr_filter (queryRequest prefetch options)
       = match options with
         | Some o => ho_filterExpr o
         | None => None
         end
    /\ grows local
         (setWorld (record (CallQuery collectionName (queryRequest prefetch options)) (world s1))
            s1)
         (snd (hybridSearch env collectionName searchRequests options s)).
Proof.
  intros Hinit Hne.
  destruct searchRequests as [| request rest]; [now destruct Hne |].
  destruct (prefetchQueries_run env collectionName (request :: rest) s)
    as [Hgrows (prefetch & Hfst & Hall)].
  remember (hybridSearch env collectionName (request :: rest) options s) as run eqn:Hrun.
  unfold hybridSearch in Hrun. unfold bind at 1 in Hrun.
  rewrite (ensureInitialized_ready _ Hinit) in Hrun.
  unfold tryCatch in Hrun. cbn [length Nat.eqb] in Hrun. unfold bind at 1 in Hrun.
  destruct (prefetchQueries env collectionName (request :: rest) s) as [r s1].
  cbn [fst snd] in Hgrows, Hfst. subst r.
  exists s1, prefetch.
  split; [assumption | split; [assumption | split; [reflexivity | split; [reflexivity |]]]].
  split; [destruct options as [[[limit |] filter] |]; reflexivity |].
  split; [reflexivity |].
  assert (Hinit1 : initialized s1) by (eapply grows_initialized; eassumption).
  unfold bind at 1 in Hrun. rewrite (clientCall_ready _ _ _ Hinit1) in Hrun.
  destruct (env_query env (history (world s1)) collectionName (queryRequest prefetch options))
    as [thrown | answer].
  - rewrite Hrun. unfold bind, emit, throw. cbn [snd].
    now apply grows_record.
  - rewrite Hrun. cbn [snd]. apply grows_refl.
Qed.

Example hybridSearch_dense_and_lexical :
  history (world (snd (hybridSearch healthy "code_chunks_ab12cd34"
                         [{| hr_data := VectorData [1 # 2];
                             hr_anns_field := "dense";
                             hr_limit := 5 |};
                          {| hr_data := TextData "bb aa bb";
                             hr_anns_field := "sparse";
                             hr_limit := 50 |}]
                         (Some {| ho_limit := Some 7; ho_filterExpr := Some {| must := [] |} |})
                         hybridState)))
  = history (world hybridState)
    ++ [ReadDoc "bb aa bb";
        CallQuery "code_chunks_ab12cd34"
          {| qr_prefetch :=
               [{| pf_prefetch := [];
                   pf_query := DenseQuery [1 # 2];
                   pf_using := "dense";
                   pf_limit := 100;
                   pf_with_payload := true |};
                {| pf_prefetch := [];
                   pf_query := SparseQuery [0; 1] [2; 1];
                   pf_using := "sparse";
                   pf_limit := 150;
                   pf_with_payload := true |}];
             qr_fusion := "rrf";
             qr_limit := 7;
             qr_with_payload := true;
             qr_filter := Some {| must := [] |} |}].
Proof. reflexivity. Qed.

Lemma hybridSearch_issues_one_fused_query_witness :
  initialized hybridState
  /\ exists s1 prefetch,
       grows local hybridState s1
       /\ Forall2 (prefetchFor healthy)
            [{| hr_data := TextData "bb aa bb"; hr_anns_field := "sparse"; hr_limit := 50 |}]
            prefetch
       /\ qr_limit (queryRequest prefetch (Some {| ho_limit := Some 7; ho_filterExpr := None |}))
          = 7
       /\ grows local
            (setWorld
               (record
                  (CallQuery "code_chunks_ab12cd34"
                     (queryRequest prefetch (Some {| ho_limit := Some 7; ho_filterExpr := None |})))
                  (world s1)) s1)
            (snd (hybridSearch healthy "code_chunks_ab12cd34"
                    [{| hr_data := TextData "bb aa bb"; hr_anns_field := "sparse";
                        hr_limit := 50 |}]
                    (Some {| ho_limit := Some 7; ho_filterExpr := None |}) hybridState)).
Proof.
  assert (Hinit : initialized hybridState) by (split; [reflexivity | eexists; reflexivity]).
  split; [exact Hinit |].
  destruct (hybridSearch_issues_one_fused_query healthy "code_chunks_ab12cd34"
              [{| hr_data := TextData "bb aa bb"; hr_anns_field := "sparse"; hr_limit := 50 |}]
              (Some {| ho_limit := Some 7; ho_filterExpr := None |})
              hybridState Hinit ltac:(discriminate))
    as (s1 & prefetch & Hbefore & Hall & _ & _ & Hlimit & _ & Hafter).
  exists s1, prefetch. auto.
Defined.

(** C7, as stated, fails: the caller asks for a final limit of 0 and the
    fused query asks for 10. *)
Lemma hybridSearch_zero_limit_counterexample :
  history (world (snd (hybridSearch healthy "code_chunks_ab12cd34"
                         [{| hr_data := VectorData [1 # 2];
                             hr_anns_field := "dense";
                             hr_limit := 5 |}]
                         (Some {| ho_limit := Some 0; ho_filterExpr := None |})
                         hybridState)))
  = history (world hybridState)
    ++ [CallQuery "code_chunks_ab12cd34"
          {| qr_prefetch :=
               [{| pf_prefetch := [];
                   pf_query := DenseQuery [1 # 2];
                   pf_using := "dense";
                   pf_limit := 100;
                   pf_with_payload := true |}];
             qr_fusion := "rrf";
             qr_limit := 10;
             qr_with_payload := true;
             qr_filter := None |}].
Proof. reflexivity. Qed.

(** * Further properties *)

(** ** The sparse vectors of the tokenizer *)

Lemma termFrequency_positive tokens word :
  In word tokens -> 1 <= termFrequency tokens word.
Proof.
  induction tokens as [| token rest IH]; intros Hin; [destruct Hin |].
  rewrite termFrequency_cons.
  destruct (String.eqb word token) eqn:E.
  - unfold termFrequency. lia.
  - apply String.eqb_neq in E. destruct Hin as [-> | Hin]; [now destruct E |].
    specialize (IH Hin). lia.
Qed.

Lemma Forall2_NoDup_r {A B} (R : A -> B -> Prop) l k :
  (forall x y i, R x i -> R y i -> x = y) ->
  Forall2 R l k -> List.NoDup l -> List.NoDup k.
Proof.
  intros Hinj Hall. induction Hall as [| x i l k Hxi Hall IH]; intros Hnodup.
  - constructor.
  - apply List.NoDup_cons_iff in Hnodup as [Hx Hl]. constructor; [| auto].
    intros Hin. apply list_elem_of_In, list_elem_of_lookup in Hin as [n Hn].
    destruct (Forall2_lookup_r _ _ _ _ _ Hall Hn) as (y & Hy & Hyi).
    assert (x = y) by eauto. subst y.
    apply Hx, list_elem_of_In, list_elem_of_lookup. eauto.
Qed.

(** In a store that keeps the invariant of the vocabulary (every index
    is at least 0 and below [nextIndex], and no two terms share an
    index), a sparse vector never names an index twice, and every value
    it carries is a count of at least one occurrence. Distinct indices
    alone would not do: see [generateSparseVector_takes_the_counter]. *)
Theorem generateSparseVector_indices_distinct env text t w :
  vocabularyInvariant t ->
  List.NoDup (sv_indices (fst (fst (generateSparseVector env text t w))))
  /\ Forall (fun value => 1 <= value)
       (sv_values (fst (fst (generateSparseVector env text t w)))).
Proof.
  intros Hinv.
  destruct (String.eqb text "" || isBlank text) eqn:Hblank.
  - rewrite (generateSparseVector_blank _ _ _ _ Hblank). cbn. split; constructor.
  - destruct (generateSparseVector_spec env text t w Hblank) as (_ & Hvalues & Hall).
    destruct (generateSparseVector_store env text t w) as (_ & _ & Hkeep).
    destruct (Hkeep Hinv) as (_ & _ & Hinj).
    split.
    + eapply Forall2_NoDup_r; [| exact Hall | apply distinctTokens_NoDup].
      intros x y i Hx Hy. cbn beta in Hx, Hy. exact (Hinj _ _ _ Hx Hy).
    + rewrite Hvalues. apply List.Forall_forall. intros value Hin.
      apply in_map_iff in Hin as (word & <- & Hword).
      apply termFrequency_positive. now apply distinctTokens_In.
Qed.

Lemma generateSparseVector_indices_distinct_witness :
  vocabularyInvariant helloTokenizer
  /\ List.NoDup
       (sv_indices (fst (fst (generateSparseVector healthy "brave new world brave"
                                helloTokenizer helloWorld))))
  /\ sv_values (fst (fst (generateSparseVector healthy "brave new world brave"
                            helloTokenizer helloWorld)))
     = [2; 1; 1].
Proof.
  split; [exact helloTokenizer_invariant |].
  split; [| reflexivity].
  exact (proj1 (generateSparseVector_indices_distinct healthy "brave new world brave"
                  helloTokenizer helloWorld helloTokenizer_invariant)).
Defined.

Example generateSparseVector_takes_the_counter :
  sv_indices (fst (fst (generateSparseVector healthy "bb aa" crowdedTokenizer emptyWorld)))
  = [5; 5].
Proof. reflexivity. Qed.

Lemma unknownWord_insert t word other index path :
  other <> word ->
  unknownWord {| vocabulary := <[word := index]> (vocabulary t);
                 nextIndex := nextIndex t + 1;
                 vocabularyPath := path |} other
  = unknownWord t other.
Proof.
  intros Hne. unfold unknownWord. cbn. now rewrite lookup_insert_ne.
Qed.

(** The second loop advances the counter by one for every entry whose
    word the vocabulary did not know, and the table grows by as much. *)
Lemma toSparse_counter entries : forall t indices values,
  List.NoDup (map fst entries) ->
  nextIndex (snd (toSparse entries t indices values))
  = nextIndex t + Z.of_nat (length (List.filter (unknownWord t) (map fst entries)))
  /\ size (vocabulary (snd (toSparse entries t indices values)))
     = (size (vocabulary t) + length (List.filter (unknownWord t) (map fst entries)))%nat.
Proof.
  induction entries as [| [word tf] rest IH]; intros t indices values Hnodup.
  - cbn. split; lia.
  - cbn [map fst] in Hnodup. apply List.NoDup_cons_iff in Hnodup as [Hword Hrest].
    cbn [toSparse map fst List.filter].
    unfold indexOf.
    destruct (vocabulary t !! word) as [index |] eqn:Hlookup.
    + replace (unknownWord t word) with false by (unfold unknownWord; now rewrite Hlookup).
      apply (IH t _ _ Hrest).
    + replace (unknownWord t word) with true by (unfold unknownWord; now rewrite Hlookup).
      destruct (IH {| vocabulary := <[word := nextIndex t]> (vocabulary t);
                      nextIndex := nextIndex t + 1;
                      vocabularyPath := vocabularyPath t |}
                  (indices ++ [nextIndex t]) (values ++ [tf]) Hrest) as [Hnext Hsize].
      rewrite Hnext, Hsize. cbn [nextIndex vocabulary].
      rewrite (map_size_insert_None _ _ _ Hlookup).
      erewrite (filter_ext_in (unknownWord _) (unknownWord t)).
      * cbn [length]. split; lia.
      * intros other Hin. apply unknownWord_insert. intros ->. contradiction.
Qed.

(** Encoding a text advances [nextIndex] by exactly the number of
    distinct tokens the vocabulary did not know: a known term uses up no
    index. So a counter that equals the number of terms, as in the empty
    store, keeps doing so. *)
Theorem generateSparseVector_counts_new_terms env text t w :
  nextIndex (snd (fst (generateSparseVector env text t w)))
  = nextIndex t
    + (if String.eqb text "" || isBlank text then 0
       else Z.of_nat (length (List.filter (unknownWord t)
                                (distinctTokens (fst (tokenize env text w))))))
  /\ (nextIndex t = Z.of_nat (size (vocabulary t)) ->
      nextIndex (snd (fst (generateSparseVector env text t w)))
      = Z.of_nat (size (vocabulary (snd (fst (generateSparseVector env text t w)))))).
Proof.
  unfold generateSparseVector.
  destruct (String.eqb text "" || isBlank text); [cbn; split; lia |].
  destruct (tokenize env text w) as [tokens w1]. cbn [fst].
  rewrite termFrequencies_spec.
  assert (Hkeys : map fst (map (fun word => (word, termFrequency tokens word))
                             (distinctTokens tokens)) = distinctTokens tokens).
  { rewrite map_map. cbn. apply map_id. }
  destruct (distinctTokens tokens) as [| word words] eqn:Hdistinct.
  - cbn. split; lia.
  - rewrite <- Hdistinct in *.
    replace (length _ =? 0)%nat with false by (rewrite Hdistinct; reflexivity).
    destruct (toSparse_counter
                (map (fun word => (word, termFrequency tokens word)) (distinctTokens tokens))
                t [] []) as [Hnext Hsize].
    { rewrite Hkeys. apply distinctTokens_NoDup. }
    rewrite Hkeys in Hnext, Hsize.
    destruct (toSparse _ t [] []) as [sparse t1]. cbn [fst snd] in *.
    split; [exact Hnext | intros Hdense; lia].
Qed.

Example generateSparseVector_known_and_new :
  nextIndex helloTokenizer = 2
  /\ nextIndex (snd (fst (generateSparseVector healthy "brave new world brave"
                            helloTokenizer helloWorld))) = 4.
Proof. split; reflexivity. Qed.

(** ** The retry wrapper at large *)

Lemma filter_isTimer_quiet added :
  Forall (fun e => isTimer e = false) added -> List.filter isTimer added = [].
Proof.
  induction 1 as [| e added He _ IH]; cbn; [reflexivity |]. now rewrite He.
Qed.

Lemma retryLoop_backoff {T} (operation : M T) maxRetries remaining :
  forall attempt delay lastError s,
  emitsOnly (fun e => isTimer e = false) operation ->
  attempt + Z.of_nat remaining = maxRetries + 1 ->
  exists added k,
    history (world (snd (retryLoop operation maxRetries remaining attempt delay lastError s)))
    = history (world s) ++ added
    /\ (k <= Nat.pred remaining)%nat
    /\ List.filter isTimer added = backoff delay k.
Proof.
  induction remaining as [| remaining IH]; intros attempt delay lastError s Hop Hcount.
  - exists [], 0%nat. cbn. rewrite app_nil_r. auto.
  - cbn [retryLoop]. unfold tryCatch.
    destruct (Hop s) as (_ & _ & _ & first & Hfirst & Hquiet).
    apply filter_isTimer_quiet in Hquiet.
    assert (Hdone : exists added k,
               history (world s) ++ first = history (world s) ++ added
               /\ (k <= Nat.pred (S remaining))%nat
               /\ List.filter isTimer added = backoff delay k).
    { exists first, 0%nat. cbn. split; [reflexivity | split; [lia | assumption]]. }
    destruct (operation s) as [[v | [e |]] s1]; cbn [snd] in Hfirst.
    + cbn [snd]. now rewrite Hfirst.
    + destruct (isTerminal e || (attempt =? maxRetries)) eqn:Hstop.
      * cbn [snd throw]. now rewrite Hfirst.
      * apply orb_false_iff in Hstop as [_ Hne]. apply Z.eqb_neq in Hne.
        unfold bind, emit.
        destruct (IH (attempt + 1) (delay * 2) (ErrorObject e)
                    (setWorld (record (SetTimeout delay) (world s1)) s1) Hop ltac:(lia))
          as (added & k & Hhistory & Hk & Htimers).
        exists (first ++ SetTimeout delay :: added), (S k).
        split; [| split].
        -- rewrite Hhistory. cbn. rewrite Hfirst. now rewrite <- !app_assoc.
        -- destruct remaining; [lia | cbn in *; lia].
        -- rewrite List.filter_app, Hquiet. cbn. now rewrite Htimers.
    + cbn [snd newError throw]. now rewrite Hfirst.
Qed.

(** Whatever the attempt budget and the first delay, the timers that
    [withRetry] sets are the first delay, twice that, four times that and
    so on, one fewer than the attempts made and so fewer than the budget,
    as long as the operation sets no timer of its own. *)
Theorem withRetry_backs_off_exponentially {T} (operation : M T) operationName
  maxRetries initialDelay s :
  emitsOnly (fun e => isTimer e = false) operation ->
  exists added k,
    history (world (snd (withRetry operation operationName maxRetries initialDelay s)))
    = history (world s) ++ added
    /\ (k <= Nat.pred (Z.to_nat (nullish maxRetries 3%Z)))%nat
    /\ List.filter isTimer added = backoff (nullish initialDelay 1000) k.
Proof.
  intros Hop. unfold withRetry.
  destruct (Z.to_nat (nullish maxRetries 3)) as [| remaining] eqn:Hbudget.
  - exists [], 0%nat. cbn. rewrite app_nil_r. auto.
  - rewrite <- Hbudget. apply retryLoop_backoff; [assumption | lia].
Qed.

Lemma withRetry_backs_off_exponentially_witness :
  emitsOnly (fun e => isTimer e = false)
    (remoteCreate flaky "code_chunks"
       (collectionConfig (plainConfig "http://localhost:6333") 768))
  /\ exists added k,
       history (world (snd (withRetry
                              (remoteCreate flaky "code_chunks"
                                 (collectionConfig (plainConfig "http://localhost:6333") 768))
                              "Create collection" (Some 5) (Some 250) freshState)))
       = history (world freshState) ++ added
       /\ (k <= 4)%nat
       /\ List.filter isTimer added = backoff 250 k.
Proof.
  assert (Hop : emitsOnly (fun e => isTimer e = false)
                  (remoteCreate flaky "code_chunks"
                     (collectionConfig (plainConfig "http://localhost:6333") 768))).
  { apply emitsOnly_clientCall. reflexivity. }
  split; [exact Hop |].
  exact (withRetry_backs_off_exponentially _ "Create collection" (Some 5) (Some 250)
           freshState Hop).
Defined.

Example withRetry_custom_budget :
  List.filter isTimer
    (history (world (snd (withRetry
                            (remoteCreate flaky "code_chunks"
                               (collectionConfig (plainConfig "http://localhost:6333") 768))
                            "Create collection" (Some 5) (Some 250) freshState))))
  = [SetTimeout 250; SetTimeout 500].
Proof. reflexivity. Qed.

(** With no attempt allowed the operation is never run and the value
    [undefined] is thrown; with at least one, the wrapper ends with the
    outcome of one run of the operation, the last, so that an error is
    neither swallowed nor replaced by another. *)
Theorem withRetry_ends_with_last_attempt {T} (operation : M T) operationName
  maxRetries initialDelay s :
  (nullish maxRetries 3 <= 0 ->
   withRetry operation operationName maxRetries initialDelay s = (Raised UndefinedValue, s))
  /\ (0 < nullish maxRetries 3 ->
      (forall s0 s1, operation s0 <> (Raised UndefinedValue, s1)) ->
      exists s0,
        withRetry operation operationName maxRetries initialDelay s = operation s0).
Proof.
  unfold withRetry. split.
  - intros Hnone. replace (Z.to_nat (nullish maxRetries 3)) with 0%nat by lia. reflexivity.
  - intros Hsome Herror.
    destruct (Z.to_nat (nullish maxRetries 3)) as [| remaining] eqn:Hbudget; [lia |].
    apply retryLoop_ends_with_an_attempt; [assumption | lia].
Qed.

Example withRetry_no_attempt :
  withRetry (remoteCreate healthy "code_chunks"
               (collectionConfig (plainConfig "http://localhost:6333") 768))
    "Create collection" (Some 0) None freshState
  = (Raised UndefinedValue, freshState).
Proof. reflexivity. Qed.

(** ** Creating collections *)

(** When the service answers the first create call with an error whose
    message says [already exists] or [not found], [createCollection]
    makes no second call and sets no timer: it logs the failure and
    raises that very error. *)
Theorem createCollection_gives_up_on_terminal_error env collectionName dimension s e :
  initialized s ->
  env_createCollection env (history (world s)) collectionName
    (collectionConfig (config (this s)) dimension) = Some (ErrorObject e) ->
  isTerminal e = true ->
  createCollection env collectionName dimension s
  = (Raised (ErrorObject e),
     setWorld
       (record (ConsoleError "[QdrantDB] Failed to create collection")
          (record (CallCreateCollection collectionName
                     (collectionConfig (config (this s)) dimension)) (world s)))
       s).
Proof.
  intros Hinit Hreply Hterminal.
  unfold createCollection, bind. rewrite (ensureInitialized_ready _ Hinit).
  unfold tryCatch at 1, withRetry, nullish. change (Z.to_nat 3) with 3%nat.
  rewrite (retryLoop_gives_up _ 3 2 1 1000 UndefinedValue s e
             (setWorld
                (record (CallCreateCollection collectionName
                           (collectionConfig (config (this s)) dimension)) (world s)) s)).
  - reflexivity.
  - unfold remoteCreate. rewrite (clientCall_ready _ _ _ Hinit), Hreply. reflexivity.
  - left. exact Hterminal.
Qed.

Lemma createCollection_gives_up_on_terminal_error_witness :
  initialized hybridState
  /\ fst (createCollection healthy "code_chunks_ab12cd34" 768 hybridState)
     = Raised (ErrorObject (mkError "Collection already exists"))
  /\ history (world (snd (createCollection healthy "code_chunks_ab12cd34" 768 hybridState)))
     = history (world hybridState)
       ++ [CallCreateCollection "code_chunks_ab12cd34"
             (collectionConfig (config (this hybridState)) 768);
           ConsoleError "[QdrantDB] Failed to create collection"].
Proof.
  assert (Hinit : initialized hybridState) by (split; [reflexivity | eexists; reflexivity]).
  split; [exact Hinit |].
  rewrite (createCollection_gives_up_on_terminal_error healthy "code_chunks_ab12cd34" 768
             hybridState (mkError "Collection already exists") Hinit eq_refl eq_refl).
  split; reflexivity.
Defined.

(** On an initialized database [createHybridCollection] sends its create
    call at least once and always with the same payload: a dense space
    called [dense], built like the one of [createCollection], and a sparse
    space called [sparse] with the [idf] modifier, whose index is on disk
    unless the configuration says otherwise; a configured [false] is
    kept. *)
Theorem createHybridCollection_payload env collectionName dimension s :
  initialized s ->
  let cc := hybridCollectionConfig (config (this s)) dimension in
  (exists later,
     history (world (snd (createHybridCollection env collectionName dimension s)))
     = history (world s) ++ CallCreateCollection collectionName cc :: later
     /\ Forall (fun e => e = CallCreateCollection collectionName cc \/ isRemoteCall e = false)
          later)
  /\ cc_vectors cc = NamedSpaces [("dense", vectorConfig (config (this s)) dimension)]
  /\ exists sparse,
       cc_sparse_vectors cc = Some [("sparse", sparse)]
       /\ svp_modifier sparse = "idf"
       /\ svp_on_disk sparse
          = match cfg_indexing (config (this s)) with
            | Some ix =>
                match ix_sparse ix with
                | Some options =>
                    match qs_on_disk options with
                    | Some onDisk => onDisk
                    | None => true
                    end
                | None => true
                end
            | None => true
            end.
Proof.
  intros Hinit cc. split.
  - set (P := fun e => e = CallCreateCollection collectionName cc \/ isRemoteCall e = false).
    set (s1 := setWorld (record (CallCreateCollection collectionName cc) (world s)) s).
    assert (Hgrows : grows P s1 (snd (createHybridCollection env collectionName dimension s))).
    { unfold createHybridCollection, bind. rewrite (ensureInitialized_ready _ Hinit).
      unfold tryCatch at 1. unfold withRetry, nullish. change (Z.to_nat 3) with 3%nat.
      fold cc.
      pose proof (retryLoop_create_grows env collectionName cc 3 2 1 1000 UndefinedValue s Hinit)
        as Hloop.
      fold P s1 in Hloop.
      destruct (retryLoop _ _ _ _ _ _ _) as [[v | t] s2]; cbn [snd] in *; [exact Hloop |].
      eapply grows_trans; [exact Hloop |].
      apply emitsOnly_bind; [apply emitsOnly_emit; now right |].
      intros _. apply emitsOnly_throw. }
    destruct Hgrows as (_ & _ & _ & later & Hhistory & Hlater).
    exists later. split; [| exact Hlater].
    rewrite Hhistory. cbn. now rewrite <- app_assoc.
  - split; [reflexivity |]. eexists. split; [reflexivity |]. split; [reflexivity |].
    cbn. destruct (cfg_indexing (config (this s))) as [[hnsw [[onDisk datatype] |]] |];
      reflexivity.
Qed.

Lemma createHybridCollection_payload_witness :
  initialized freshState
  /\ exists later,
       history (world (snd (createHybridCollection healthy "code_chunks_ab12cd34" 768
                              freshState)))
       = history (world freshState)
         ++ CallCreateCollection "code_chunks_ab12cd34"
              (hybridCollectionConfig (config (this freshState)) 768) :: later.
Proof.
  assert (Hinit : initialized freshState) by (split; [reflexivity | eexists; reflexivity]).
  split; [exact Hinit |].
  destruct (createHybridCollection_payload healthy "code_chunks_ab12cd34" 768 freshState Hinit)
    as [(later & Hhistory & _) _].
  exists later. exact Hhistory.
Defined.

(** ** The batch of a hybrid insert *)

Lemma hybridPoints_points env collectionName documents : forall index s points s',
  hybridPoints env collectionName documents index s = (Returned points, s') ->
  Forall2 (pointOf env) documents points.
Proof.
  induction documents as [| doc rest IH]; intros index s points s' Hrun.
  - cbn in Hrun. injection Hrun as <- _. constructor.
  - cbn [hybridPoints] in Hrun.
    destruct (doc_vector doc) as [v |] eqn:Hvector; [| discriminate Hrun].
    destruct (length v =? 0)%nat eqn:Hlen; [discriminate Hrun |].
    unfold bind at 1 in Hrun.
    destruct (tokenizerGenerate_run env collectionName (doc_content doc) s)
      as [_ (t & w & Hfst)].
    destruct (tokenizerGenerate env collectionName (doc_content doc) s) as [r s1].
    cbn [fst] in Hfst. subst r.
    unfold bind at 1 in Hrun.
    destruct (hybridPoints env collectionName rest (index + 1) s1) as [[rest' | thrown] s2]
      eqn:Hrest; [| discriminate Hrun].
    unfold ret in Hrun. injection Hrun as <- _.
    constructor; [| exact (IH _ _ _ _ Hrest)].
    unfold pointOf. cbn.
    split; [reflexivity | split; [exact Hvector | split; [| split; [reflexivity | eauto]]]].
    intros ->. discriminate Hlen.
Qed.

Lemma upsertsBatch_other env collectionName documents e :
  isUpsert e = false -> upsertsBatch env collectionName documents e.
Proof. destruct e; cbn; intros H; try discriminate H; exact I. Qed.

(** Whatever the service answers and whatever state the database is in,
    an upsert that [insertHybrid] sends is for the collection it was
    called with and carries exactly one point per document, in the order
    of the documents: the point has the id and the dense vector of its
    document, the payload built from its fields and metadata, and the
    sparse encoding of its content. *)
Theorem insertHybrid_upserts_the_batch env collectionName documents s :
  exists added,
    history (world (snd (insertHybrid env collectionName documents s)))
    = history (world s) ++ added
    /\ forall name points,
         In (CallUpsert name points) added ->
         name = collectionName /\ Forall2 (pointOf env) documents points.
Proof.
  set (P := upsertsBatch env collectionName documents).
  assert (Hother : forall e, quiet e -> P e).
  { intros e [He _]. now apply upsertsBatch_other. }
  assert (Hlocal : forall e, local e -> P e).
  { intros e He. now apply Hother, local_quiet. }
  assert (Hgrows : grows P s (snd (insertHybrid env collectionName documents s))).
  { set (run := insertHybrid env collectionName documents s).
    assert (Hrun : run = insertHybrid env collectionName documents s) by reflexivity.
    clearbody run. unfold insertHybrid in Hrun.
    destruct (length documents =? 0)%nat.
    { rewrite Hrun. apply grows_refl. }
    unfold bind at 1 in Hrun.
    destruct (ensureInitialized_cases s) as [Hinit | [thrown Hfail]].
    2:{ rewrite Hfail in Hrun. rewrite Hrun. apply grows_refl. }
    rewrite (ensureInitialized_ready _ Hinit) in Hrun.
    assert (Hcatch : forall error s0,
               grows P s s0 -> grows P s (snd (insertHybridCatch documents error s0))).
    { intros error s0 Hs0. eapply grows_trans; [exact Hs0 |].
      eapply grows_weaken; [| apply insertHybridCatch_run]. exact Hlocal. }
    set (s1 := setWorld (record (CallGetCollection collectionName) (world s)) s).
    assert (Hs1 : grows P s s1) by (apply grows_record; exact I).
    set (s2 := setWorld (record (CallGetCollection collectionName) (world s1)) s1).
    assert (Hs2 : grows P s s2).
    { eapply grows_trans; [exact Hs1 | apply grows_record; exact I]. }
    unfold tryCatch, insertHybridTry in Hrun. unfold bind at 1 in Hrun.
    rewrite (hasCollection_ready _ _ _ Hinit) in Hrun. fold s1 in Hrun.
    destruct (env_getCollection env (history (world s)) collectionName) as [thrown1 | info1].
    { cbn [negb] in Hrun. unfold bind at 1 in Hrun. unfold newError at 1, throw at 1 in Hrun.
      rewrite Hrun. now apply Hcatch. }
    cbn [negb] in Hrun. unfold bind at 1 in Hrun. unfold ret at 1 in Hrun.
    unfold bind at 1 in Hrun. unfold remoteGetCollection at 1 in Hrun.
    rewrite (clientCall_ready _ _ _ (Hinit : initialized s1)) in Hrun. fold s2 in Hrun.
    destruct (env_getCollection env (history (world s1)) collectionName) as [thrown2 | info].
    { rewrite Hrun. now apply Hcatch. }
    destruct (hasSparseName info); cbn [negb] in Hrun.
    2:{ unfold bind at 1 in Hrun. unfold newError at 1, throw at 1 in Hrun.
        rewrite Hrun. now apply Hcatch. }
    unfold bind at 1 in Hrun. unfold ret at 1 in Hrun. unfold bind at 1 in Hrun.
    destruct (hybridPoints_run env collectionName documents 0 s2) as [Hpoints _].
    pose proof (hybridPoints_points env collectionName documents 0 s2) as Hbatch.
    destruct (hybridPoints env collectionName documents 0 s2) as [[points | thrown3] s3].
    2:{ rewrite Hrun. apply Hcatch. eapply grows_trans; [exact Hs2 |].
        eapply grows_weaken; [| exact Hpoints]. exact Hlocal. }
    cbn [snd] in Hpoints. specialize (Hbatch points s3 eq_refl).
    assert (Hs3 : grows P s s3).
    { eapply grows_trans; [exact Hs2 |].
      eapply grows_weaken; [| exact Hpoints]. exact Hlocal. }
    assert (Hinit3 : initialized s3).
    { eapply grows_initialized; [| exact Hinit]. exact Hs3. }
    unfold bind at 1 in Hrun. unfold remoteUpsert at 1 in Hrun.
    rewrite (clientCall_ready _ _ _ Hinit3) in Hrun.
    set (s4 := setWorld (record (CallUpsert collectionName points) (world s3)) s3) in *.
    assert (Hs4 : grows P s s4).
    { eapply grows_trans; [exact Hs3 |]. apply grows_record. split; [reflexivity | exact Hbatch]. }
    destruct (env_upsert env (history (world s3)) collectionName points) as [thrown4 | result].
    { rewrite Hrun. now apply Hcatch. }
    destruct (accepted result).
    - unfold bind at 1, tryCatch at 1, bind at 1, remoteGetCollection at 1 in Hrun.
      rewrite (clientCall_ready _ _ _ (Hinit3 : initialized s4)) in Hrun.
      set (s5 := setWorld (record (CallGetCollection collectionName) (world s4)) s4) in *.
      assert (Hs5 : grows P s s5).
      { eapply grows_trans; [exact Hs4 | apply grows_record; exact I]. }
      assert (Hsave : forall s0,
                 grows P s s0 ->
                 grows P s
                   (snd (let (o, s') := tokenizerSave env collectionName s0 in
                         match o with
                         | Returned a => (Returned a, s')
                         | Raised t => insertHybridCatch documents t s'
                         end))).
      { intros s0 Hs0.
        destruct (tokenizerSave_run env collectionName s0) as [Hreturned Hsaved].
        destruct (tokenizerSave env collectionName s0) as [r6 s6].
        cbn [fst snd] in Hreturned, Hsaved. subst r6. cbn [snd].
        eapply grows_trans; [exact Hs0 |].
        eapply grows_weaken; [| exact Hsaved].
        intros e He. now apply upsertsBatch_other. }
      destruct (env_getCollection env (history (world s4)) collectionName) as [thrown5 | info5].
      + unfold emit at 1 in Hrun. rewrite Hrun. apply Hsave.
        eapply grows_trans; [exact Hs5 | apply grows_record; exact I].
      + unfold ret at 1 in Hrun. rewrite Hrun. now apply Hsave.
    - unfold emit at 1 in Hrun. rewrite Hrun.
      eapply grows_trans; [exact Hs4 | apply grows_record; exact I]. }
  destruct Hgrows as (_ & _ & _ & added & Hhistory & Hadded).
  exists added. split; [exact Hhistory |].
  intros name points Hin.
  rewrite List.Forall_forall in Hadded. exact (Hadded _ Hin).
Qed.

Example insertHybrid_two_documents :
  List.filter isUpsert
    (history (world (snd (insertHybrid healthy "code_chunks_ab12cd34"
                            [sampleDocument "d0" (VectorArray [1 # 2]) "hello world";
                             sampleDocument "d1" (VectorArray [1 # 3]) "world again"]
                            hybridState))))
  = [CallUpsert "code_chunks_ab12cd34"
       [{| pt_id := "d0";
           pt_vector := {| hv_dense := [1 # 2];
                           hv_sparse := {| sv_indices := [0; 1]; sv_values := [1; 1] |} |};
           pt_payload :=
             pointPayload (sampleDocument "d0" (VectorArray [1 # 2]) "hello world") |};
        {| pt_id := "d1";
           pt_vector := {| hv_dense := [1 # 3];
                           hv_sparse := {| sv_indices := [1; 2]; sv_values := [1; 1] |} |};
           pt_payload :=
             pointPayload (sampleDocument "d1" (VectorArray [1 # 3]) "world again") |}]].
Proof. vm_compute. reflexivity. Qed.

(** ** Payloads, there and back *)

Lemma extractMetadata_lookup payload key :
  extractMetadata payload !! key = if isDocumentField key then None else payload !! key.
Proof.
  unfold extractMetadata, isDocumentField, documentFields. cbn [existsb].
  destruct (String.eqb_spec key "content") as [-> | H1];
    [now rewrite lookup_delete_eq |].
  destruct (String.eqb_spec key "relativePath") as [-> | H2];
    [now rewrite lookup_delete_ne, lookup_delete_eq by discriminate |].
  destruct (String.eqb_spec key "startLine") as [-> | H3];
    [now rewrite !lookup_delete_ne, lookup_delete_eq by discriminate |].
  destruct (String.eqb_spec key "endLine") as [-> | H4];
    [now rewrite !lookup_delete_ne, lookup_delete_eq by discriminate |].
  destruct (String.eqb_spec key "fileExtension") as [-> | H5];
    [now rewrite !lookup_delete_ne, lookup_delete_eq by discriminate |].
  cbn. now rewrite !lookup_delete_ne by congruence.
Qed.

Lemma pointPayload_lookup doc key :
  key <> "sparseVector" ->
  pointPayload doc !! key
  = match doc_metadata doc !! key with
    | Some value => Some value
    | None =>
        (<["content" := PString (doc_content doc)]>
           (<["relativePath" := PString (doc_relativePath doc)]>
              (<["startLine" := PNumber (doc_startLine doc)]>
                 (<["endLine" := PNumber (doc_endLine doc)]>
                    (<["fileExtension" := PString (doc_fileExtension doc)]> ∅)))) :
           gmap string PayloadValue) !! key
    end.
Proof.
  intros Hkey. unfold pointPayload. rewrite lookup_union, lookup_delete_ne by congruence.
  destruct (doc_metadata doc !! key) as [value |]; now destruct (_ !! key).
Qed.

(** A document stored by [insertHybrid] and found again by [search] or
    [hybridSearch] comes back with its id, with each of its five fields
    (or the metadata entry of the same name, which overrides a field in
    the payload), and with its metadata less the [sparseVector] key and
    less the five field names. The dense vector does not come back: the
    result holds the empty array. *)
Theorem toResult_restores_document doc score :
  let document := res_document (toResult (storedPoint doc score)) in
  rd_id document = doc_id doc
  /\ rd_vector document = []
  /\ rd_content document = storedField doc "content" (PString (doc_content doc))
  /\ rd_relativePath document = storedField doc "relativePath" (PString (doc_relativePath doc))
  /\ rd_startLine document = storedField doc "startLine" (PNumber (doc_startLine doc))
  /\ rd_endLine document = storedField doc "endLine" (PNumber (doc_endLine doc))
  /\ rd_fileExtension document
     = storedField doc "fileExtension" (PString (doc_fileExtension doc))
  /\ forall key,
       rd_metadata document !! key
       = if isDocumentField key || String.eqb key "sparseVector" then None
         else doc_metadata doc !! key.
Proof.
  cbn zeta. unfold toResult, storedPoint, storedField. cbn [res_document rd_id rd_vector
    rd_content rd_relativePath rd_startLine rd_endLine rd_fileExtension rd_metadata
    sp_id sp_payload sp_score idToString nullish].
  repeat (split; [first [reflexivity
                        | rewrite pointPayload_lookup by discriminate;
                          destruct (doc_metadata doc !! _); [reflexivity |];
                          now rewrite ?(lookup_insert_ne _ _ _) by discriminate;
                          rewrite lookup_insert_eq] |]).
  intros key. rewrite extractMetadata_lookup.
  destruct (isDocumentField key) eqn:Hfield; [reflexivity |]. cbn [orb].
  destruct (String.eqb_spec key "sparseVector") as [-> | Hkey].
  - unfold pointPayload. rewrite lookup_union, lookup_delete_eq.
    now rewrite !lookup_insert_ne, lookup_empty by discriminate.
  - rewrite (pointPayload_lookup _ _ Hkey).
    destruct (doc_metadata doc !! key); [reflexivity |].
    unfold isDocumentField, documentFields in Hfield. cbn [existsb] in Hfield.
    repeat (apply orb_false_iff in Hfield as [?%String.eqb_neq Hfield]).
    now rewrite !lookup_insert_ne, lookup_empty by congruence.
Qed.

(** ** The tokenizer registry *)

Lemma split_cons sep s : exists first rest, split sep s = first :: rest.
Proof.
  destruct s as [| c s]; cbn; [eauto |].
  destruct (Ascii.eqb c sep); [eauto |]. destruct (split sep s); eauto.
Qed.

Lemma split_app sep prefix rest :
  split sep (prefix ++ String sep rest) = split sep prefix ++ split sep rest.
Proof.
  induction prefix as [| c prefix IH].
  - change ("" ++ String sep rest)%string with (String sep rest).
    cbn [split]. now rewrite Ascii.eqb_refl.
  - change (String c prefix ++ String sep rest)%string
      with (String c (prefix ++ String sep rest)).
    cbn [split]. rewrite IH. destruct (Ascii.eqb c sep); [reflexivity |].
    destruct (split_cons sep prefix) as (first & others & ->). reflexivity.
Qed.

Lemma split_whole sep s : occurs sep s = false -> split sep s = [s].
Proof.
  induction s as [| c s IH]; cbn [occurs split]; [reflexivity |].
  intros [Hc Hs]%orb_false_iff. rewrite Hc, (IH Hs). reflexivity.
Qed.

Lemma last_app_cons {A} (l : list A) x k d : List.last (l ++ x :: k) d = List.last (x :: k) d.
Proof.
  induction l as [| y l IH]; [reflexivity |].
  cbn [app]. rewrite <- IH. destruct l; reflexivity.
Qed.

(** The vocabulary file of a collection is chosen by the part of its name
    after the last underscore alone: collections whose names end in the
    same part share one file, whatever comes before, and a name without
    an underscore counts as that part in whole. *)
Theorem vocabulary_file_follows_last_segment env prefix1 prefix2 hash :
  occurs "_" hash = false ->
  getVocabularyPathFromCollection env (prefix1 ++ "_" ++ hash)
  = getVocabularyPathFromCollection env (prefix2 ++ "_" ++ hash)
  /\ getVocabularyPathFromCollection env (prefix1 ++ "_" ++ hash)
     = getVocabularyPathFromCollection env hash.
Proof.
  intros Hhash.
  assert (Hlast : forall prefix,
             List.last (split "_" (prefix ++ "_" ++ hash)) "" = hash).
  { intros prefix. change ("_" ++ hash)%string with (String "_" hash).
    rewrite split_app, (split_whole _ _ Hhash). now rewrite last_app_cons. }
  unfold getVocabularyPathFromCollection. rewrite !Hlast, (split_whole _ _ Hhash).
  split; reflexivity.
Qed.

Lemma vocabulary_file_follows_last_segment_witness :
  occurs "_" "ab12cd34" = false
  /\ getVocabularyPathFromCollection healthy "hybrid_code_chunks_ab12cd34"
     = getVocabularyPathFromCollection healthy "code_chunks_ab12cd34".
Proof.
  split; [reflexivity |].
  exact (proj1 (vocabulary_file_follows_last_segment healthy "hybrid_code_chunks" "code_chunks"
                  "ab12cd34" eq_refl)).
Defined.

Lemma newBM25Tokenizer_path path w :
  vocabularyPath (fst (newBM25Tokenizer path w)) = path.
Proof.
  unfold newBM25Tokenizer. destruct path as [p |]; [| reflexivity].
  destruct (String.eqb p "") eqn:Hp; [reflexivity |].
  unfold loadVocabulary. cbn [vocabularyPath]. rewrite Hp.
  destruct (disk w !! p) as [[| | | vocab next timestamp | [|] next] |]; reflexivity.
Qed.

(** [getTokenizer] creates the tokenizer of a collection once: a second
    call returns the same tokenizer and leaves registry and world alone,
    so the snapshot is read at most on first use. The tokenizers of other
    collections are not touched, and a tokenizer created here keeps its
    vocabulary in the configured file when the configuration names one,
    else in the file derived from the collection name. *)
Theorem getTokenizer_registers_once env collectionName s :
  exists t,
    fst (getTokenizer env collectionName s) = Returned t
    /\ getTokenizer env collectionName (snd (getTokenizer env collectionName s))
       = (Returned t, snd (getTokenizer env collectionName s))
    /\ (forall other,
          other <> collectionName ->
          tokenizers (this (snd (getTokenizer env collectionName s))) !! other
          = tokenizers (this s) !! other)
    /\ (tokenizers (this s) !! collectionName = None ->
        vocabularyPath t
        = Some (orString (cfg_vocabularyPath (config (this s)))
                  (getVocabularyPathFromCollection env collectionName))).
Proof.
  unfold getTokenizer at 1 3 4 5.
  destruct (tokenizers (this s) !! collectionName) as [t |] eqn:Hlookup.
  - exists t. cbn [fst snd]. unfold getTokenizer. rewrite Hlookup.
    split; [reflexivity | split; [reflexivity | split; [reflexivity | discriminate]]].
  - pose proof (newBM25Tokenizer_path
                  (Some (orString (cfg_vocabularyPath (config (this s)))
                           (getVocabularyPathFromCollection env collectionName)))
                  (world s)) as Hpath.
    destruct (newBM25Tokenizer _ (world s)) as [t w]. cbn [fst snd] in *.
    exists t. split; [reflexivity | split; [| split]].
    + unfold getTokenizer. cbn [this tokenizers setTokenizers setWorld].
      now rewrite lookup_insert_eq.
    + intros other Hother. cbn. now rewrite lookup_insert_ne.
    + intros _. exact Hpath.
Qed.

Example getTokenizer_shares_configured_file :
  let s := {| this := newQdrantVectorDatabase healthy
                        {| cfg_url := "http://localhost:6333";
                           cfg_apiKey := None;
                           cfg_timeout := None;
                           cfg_quantization := None;
                           cfg_indexing := None;
                           cfg_bm25 := None;
                           cfg_vocabularyPath := Some "/data/vocabulary.json" |};
              world := emptyWorld |} in
  match getTokenizer healthy "code_chunks_ab12cd34" s,
        getTokenizer healthy "code_chunks_ffff0000" s with
  | (Returned t1, _), (Returned t2, _) => vocabularyPath t1 = vocabularyPath t2
  | _, _ => False
  end.
Proof. reflexivity. Qed.

(** ** Terminal errors *)

Lemma prefix_iff needle s :
  String.prefix needle s = true <-> exists after, s = (needle ++ after)%string.
Proof.
  revert s. induction needle as [| c needle IH]; intros s.
  - split; [intros _; now exists s | intros _; now destruct s].
  - destruct s as [| c' s]; cbn [String.prefix].
    + split; [discriminate | intros [after H]; discriminate H].
    + destruct (ascii_dec c c') as [-> | Hc].
      * rewrite IH. split; intros [after H]; exists after.
        -- now rewrite H.
        -- now injection H.
      * split; [discriminate | intros [after H]]. injection H as H _. congruence.
Qed.

Lemma includes_iff s needle :
  includes s needle = true
  <-> exists before after, s = (before ++ needle ++ after)%string.
Proof.
  induction s as [| c s IH].
  - cbn [includes]. rewrite orb_false_r, prefix_iff. split.
    + intros [after H]. now exists "", after.
    + intros (before & after & H). destruct before as [| c before]; [| discriminate H].
      now exists after.
  - cbn [includes]. rewrite orb_true_iff, prefix_iff, IH. split.
    + intros [[after H] | (before & after & H)].
      * now exists "", after.
      * exists (String c before), after. now rewrite H.
    + intros (before & after & H). destruct before as [| c' before].
      * left. now exists after.
      * right. injection H as _ H. now exists before, after.
Qed.

Lemma isTerminal_iff e : isTerminal e = true <-> namesTerminalCondition e.
Proof.
  unfold isTerminal, namesTerminalCondition. rewrite orb_true_iff, !includes_iff. split.
  - intros [(before & after & H) | (before & after & H)]; exists before, after; auto.
  - intros (before & after & [H | H]); [left | right]; now exists before, after.
Qed.

(** What decides whether [withRetry] tries again after a first failure,
    when its budget allows a second attempt, is the message of the error
    alone. If the message contains [already exists] or [not found], in
    that spelling, the error is raised at once as it is: the operation is
    not run again and no timer is set. If it does not, [withRetry] sets a
    timer of the first delay and goes into the second attempt with the
    delay doubled. *)
Theorem withRetry_stops_on_marked_errors_only {T} (operation : M T) operationName
  maxRetries initialDelay s e s1 :
  operation s = (Raised (ErrorObject e), s1) ->
  1 < nullish maxRetries 3 ->
  emitsOnly (fun _ => True) operation ->
  let run := withRetry operation operationName maxRetries initialDelay s in
  let delay := nullish initialDelay 1000 in
  (namesTerminalCondition e -> run = (Raised (ErrorObject e), s1))
  /\ (~ namesTerminalCondition e ->
      run
      = retryLoop operation (nullish maxRetries 3)
          (Nat.pred (Z.to_nat (nullish maxRetries 3))) 2 (delay * 2) (ErrorObject e)
          (asleep delay s1)
      /\ exists later,
           history (world (snd run)) = history (world s1) ++ SetTimeout delay :: later).
Proof.
  intros Hop Hbudget Hgrows run delay. subst run delay. unfold withRetry.
  destruct (Z.to_nat (nullish maxRetries 3)) as [| remaining] eqn:Hnat; [lia |].
  cbn [Nat.pred]. split.
  - intros Hmarked. apply (retryLoop_gives_up operation); [exact Hop |].
    left. now apply isTerminal_iff.
  - intros Hplain.
    assert (Hterminal : isTerminal e = false).
    { destruct (isTerminal e) eqn:E; [| reflexivity].
      destruct Hplain. now apply isTerminal_iff. }
    rewrite (retryLoop_backs_off operation _ _ _ _ _ _ _ _ Hop Hterminal) by lia.
    change (1 + 1) with 2. split; [reflexivity |].
    destruct (emitsOnly_retryLoop (fun _ => True) operation (nullish maxRetries 3) remaining 2
                (nullish initialDelay 1000 * 2) (ErrorObject e) Hgrows (fun _ => I)
                (asleep (nullish initialDelay 1000) s1))
      as (_ & _ & _ & later & Hhistory & _).
    exists later. rewrite Hhistory. cbn. now rewrite <- app_assoc.
Qed.

Lemma withRetry_stops_on_marked_errors_only_witness :
  remoteCreate healthy "code_chunks_ab12cd34"
    (collectionConfig (plainConfig "http://localhost:6333") 768) hybridState
  = (Raised (ErrorObject (mkError "Collection already exists")),
     setWorld
       (record (CallCreateCollection "code_chunks_ab12cd34"
                  (collectionConfig (plainConfig "http://localhost:6333") 768))
          (world hybridState))
       hybridState)
  /\ emitsOnly (fun _ => True)
       (remoteCreate healthy "code_chunks_ab12cd34"
          (collectionConfig (plainConfig "http://localhost:6333") 768))
  /\ namesTerminalCondition (mkError "Collection already exists")
  /\ List.filter isTimer
       (history (world (snd (withRetry
                               (remoteCreate healthy "code_chunks_ab12cd34"
                                  (collectionConfig (plainConfig "http://localhost:6333") 768))
                               "Create collection" (Some 5) None hybridState))))
     = [].
Proof.
  assert (Hop : remoteCreate healthy "code_chunks_ab12cd34"
                  (collectionConfig (plainConfig "http://localhost:6333") 768) hybridState
                = (Raised (ErrorObject (mkError "Collection already exists")),
                   setWorld
                     (record (CallCreateCollection "code_chunks_ab12cd34"
                                (collectionConfig (plainConfig "http://localhost:6333") 768))
                        (world hybridState))
                     hybridState)) by reflexivity.
  assert (Hgrows : emitsOnly (fun _ => True)
                     (remoteCreate healthy "code_chunks_ab12cd34"
                        (collectionConfig (plainConfig "http://localhost:6333") 768))).
  { apply emitsOnly_clientCall. exact I. }
  assert (Hmarked : namesTerminalCondition (mkError "Collection already exists")).
  { exists "Collection ", "". left. reflexivity. }
  split; [exact Hop |]. split; [exact Hgrows |]. split; [exact Hmarked |].
  rewrite (proj1 (withRetry_stops_on_marked_errors_only _ "Create collection" (Some 5) None
                    hybridState _ _ Hop eq_refl Hgrows) Hmarked).
  reflexivity.
Defined.

Example isTerminal_is_case_sensitive :
  isTerminal (mkError "Collection `docs` not found!") = true
  /\ isTerminal (mkError "Not found: Collection `docs` doesn't exist!") = false.
Proof. split; reflexivity. Qed.

(** ** Point ids *)

(** For a digest of 32 characters [generateId] gives 36 characters: the
    digest with a hyphen after its characters 8, 12, 16 and 20. Taking
    the hyphens out gives the digest back, so two keys get the same id
    only when they have the same digest. *)
Theorem generateId_format md5hex originalId :
  String.length (md5hex originalId) = 32%nat ->
  let uuid := generateId md5hex originalId in
  String.length uuid = 36%nat
  /\ map (fun position => String.get position uuid) [8; 13; 18; 23]%nat
     = [Some "-"; Some "-"; Some "-"; Some "-"]%char
  /\ (String.substring 0 8 uuid ++ String.substring 9 4 uuid ++ String.substring 14 4 uuid ++
      String.substring 19 4 uuid ++ String.substring 24 12 uuid)%string
     = md5hex originalId.
Proof.
  unfold generateId. generalize (md5hex originalId) as hash. intros hash Hlength.
  do 32 (destruct hash as [| ? hash]; [discriminate Hlength |]).
  destruct hash; [| discriminate Hlength].
  cbv zeta. repeat split.
Qed.

Lemma generateId_format_witness :
  String.length "d41d8cd98f00b204e9800998ecf8427e" = 32%nat
  /\ String.length (generateId (fun _ => "d41d8cd98f00b204e9800998ecf8427e") "src/a.ts:1:9")
     = 36%nat.
Proof.
  split; [reflexivity |].
  exact (proj1 (generateId_format (fun _ => "d41d8cd98f00b204e9800998ecf8427e")
                  "src/a.ts:1:9" eq_refl)).
Defined.

Example generateId_of_a_digest :
  generateId (fun _ => "d41d8cd98f00b204e9800998ecf8427e") "src/a.ts:1:9"
  = "d41d8cd9-8f00-b204-e980-0998ecf8427e".
Proof. reflexivity. Qed.

(** ** Dropping, listing, inserting, deleting and querying *)

Lemma liftM_ensureInitialized_ready x :
  initialized (base x) ->
  liftM ensureInitialized x = (Returned tt, {| base := base x; further := further x |}).
Proof. intros Hinit. unfold liftM. now rewrite (ensureInitialized_ready _ Hinit). Qed.

Lemma furtherCall_ready {A} c (reply : list Event -> Calls -> Thrown + A) s calls :
  initialized s ->
  furtherCall c reply {| base := s; further := calls |}
  = (match reply (history (world s)) calls with
     | inl thrown => Raised thrown
     | inr a => Returned a
     end,
     {| base := s; further := calls ++ [(length (history (world s)), c)] |}).
Proof.
  intros [_ [c0 Hclient]]. unfold furtherCall. cbn [base further]. rewrite Hclient.
  now destruct (reply _ _).
Qed.

Lemma dropCollection_run svc collectionName s calls :
  initialized s ->
  dropCollection svc collectionName {| base := s; further := calls |}
  = let made := calls ++ [(length (history (world s)), CallDeleteCollection collectionName)] in
    match svc_deleteCollection svc (history (world s)) calls collectionName with
    | None =>
        (Returned tt,
         {| base :=
              match tokenizers (this s) !! collectionName with
              | Some _ => setTokenizers (delete collectionName (tokenizers (this s))) s
              | None => s
              end;
            further := made |})
    | Some thrown =>
        (Raised thrown,
         {| base :=
              setWorld (record (ConsoleError "[QdrantDB] Failed to delete collection") (world s))
                s;
            further := made |})
    end.
Proof.
  intros Hinit. unfold dropCollection, bindX at 1.
  rewrite (liftM_ensureInitialized_ready {| base := s; further := calls |} Hinit).
  cbn [base further]. unfold tryCatchX, bindX at 1.
  rewrite (furtherCall_ready _ _ _ _ Hinit).
  now destruct (svc_deleteCollection svc (history (world s)) calls collectionName).
Qed.

Lemma listCollections_run svc s calls :
  initialized s ->
  listCollections svc {| base := s; further := calls |}
  = let made := calls ++ [(length (history (world s)), CallGetCollections)] in
    match svc_getCollections svc (history (world s)) calls with
    | inr names => (Returned names, {| base := s; further := made |})
    | inl thrown =>
        (Raised thrown,
         {| base :=
              setWorld (record (ConsoleError "[QdrantDB] Failed to list collections") (world s))
                s;
            further := made |})
    end.
Proof.
  intros Hinit. unfold listCollections, bindX at 1.
  rewrite (liftM_ensureInitialized_ready {| base := s; further := calls |} Hinit).
  cbn [base further]. unfold tryCatchX.
  rewrite (furtherCall_ready _ _ _ _ Hinit).
  now destruct (svc_getCollections svc (history (world s)) calls).
Qed.

Lemma insert_run env svc collectionName doc rest s calls :
  initialized s ->
  let documents := doc :: rest in
  let s1 := setWorld (record (CallGetCollection collectionName) (world s)) s in
  let failed := ConsoleError "[QdrantDB] Failed to insert documents into collection" in
  insert env svc collectionName documents {| base := s; further := calls |}
  = match env_getCollection env (history (world s)) collectionName with
    | inl _ =>
        (Raised (missingCollection collectionName),
         {| base := setWorld (record failed (world s1)) s1; further := calls |})
    | inr _ =>
        let made :=
          calls ++ [(length (history (world s1)),
                     CallUpsertDense collectionName (map densePoint documents))] in
        match svc_upsertDense svc (history (world s1)) calls collectionName
                (map densePoint documents) with
        | None => (Returned tt, {| base := s1; further := made |})
        | Some thrown =>
            (Raised thrown, {| base := setWorld (record failed (world s1)) s1; further := made |})
        end
    end.
Proof.
  intros Hinit documents s1 failed. subst documents. unfold insert. cbn [length Nat.eqb].
  unfold bindX at 1.
  rewrite (liftM_ensureInitialized_ready {| base := s; further := calls |} Hinit).
  cbn [base further]. unfold tryCatchX, bindX at 1. unfold liftM at 1. cbn [base further].
  rewrite (hasCollection_ready _ _ _ Hinit). fold s1.
  destruct (env_getCollection env (history (world s)) collectionName) as [thrown | info];
    cbn [negb]; [reflexivity |].
  unfold bindX at 1, retX at 1.
  rewrite (furtherCall_ready _ _ s1 calls (Hinit : initialized s1)).
  now destruct (svc_upsertDense svc _ calls collectionName _).
Qed.

Lemma deletePoints_run svc collectionName id rest s calls :
  initialized s ->
  let ids := id :: rest in
  deletePoints svc collectionName ids {| base := s; further := calls |}
  = let made := calls ++ [(length (history (world s)), CallDeletePoints collectionName ids)] in
    match svc_deletePoints svc (history (world s)) calls collectionName ids with
    | None => (Returned tt, {| base := s; further := made |})
    | Some thrown =>
        (Raised thrown,
         {| base :=
              setWorld
                (record (ConsoleError "[QdrantDB] Failed to delete documents from collection")
                   (world s)) s;
            further := made |})
    end.
Proof.
  intros Hinit ids. subst ids. unfold deletePoints. cbn [length Nat.eqb].
  unfold bindX at 1.
  rewrite (liftM_ensureInitialized_ready {| base := s; further := calls |} Hinit).
  cbn [base further]. unfold tryCatchX.
  rewrite (furtherCall_ready _ _ _ _ Hinit).
  now destruct (svc_deletePoints svc (history (world s)) calls collectionName _).
Qed.

Lemma query_run svc collectionName filter outputFields limit s calls :
  initialized s ->
  query svc collectionName filter outputFields limit {| base := s; further := calls |}
  = let request := scrollParams filter limit in
    let made := calls ++ [(length (history (world s)), CallScroll collectionName request)] in
    match svc_scroll svc (history (world s)) calls collectionName request with
    | inr points => (Returned (map (queryRecord svc) points), {| base := s; further := made |})
    | inl thrown =>
        (Raised thrown,
         {| base :=
              setWorld (record (ConsoleError "[QdrantDB] Failed to query collection") (world s))
                s;
            further := made |})
    end.
Proof.
  intros Hinit. unfold query, bindX at 1.
  rewrite (liftM_ensureInitialized_ready {| base := s; further := calls |} Hinit).
  cbn [base further]. unfold tryCatchX, bindX at 1.
  rewrite (furtherCall_ready _ _ _ _ Hinit).
  now destruct (svc_scroll svc (history (world s)) calls collectionName _).
Qed.

(** [dropCollection] on an initialized database makes one delete call.
    When the service accepts it, the tokenizer of the collection leaves
    the registry and nothing is logged; when the service refuses, the
    registry stays as it was, the failure is logged once and the error of
    the service is raised. Either way the disk is not touched: the
    vocabulary snapshot of a dropped collection stays, and the next
    tokenizer made for that name is loaded from it. *)
Theorem dropCollection_forgets_tokenizer env svc collectionName x :
  initialized (base x) ->
  let run := dropCollection svc collectionName x in
  further (snd run)
  = further x ++ [(length (history (world (base x))), CallDeleteCollection collectionName)]
  /\ disk (world (base (snd run))) = disk (world (base x))
  /\ match svc_deleteCollection svc (history (world (base x))) (further x) collectionName with
     | None =>
         fst run = Returned tt
         /\ tokenizers (this (base (snd run)))
            = delete collectionName (tokenizers (this (base x)))
         /\ history (world (base (snd run))) = history (world (base x))
         /\ fst (getTokenizer env collectionName (base (snd run)))
            = Returned
                (fst (newBM25Tokenizer
                        (Some (orString (cfg_vocabularyPath (config (this (base x))))
                                 (getVocabularyPathFromCollection env collectionName)))
                        (world (base x))))
     | Some thrown =>
         fst run = Raised thrown
         /\ tokenizers (this (base (snd run))) = tokenizers (this (base x))
         /\ history (world (base (snd run)))
            = history (world (base x)) ++ [ConsoleError "[QdrantDB] Failed to delete collection"]
     end.
Proof.
  intros Hinit run. subst run. destruct x as [s calls]. cbn [base further] in *.
  rewrite (dropCollection_run _ _ _ _ Hinit). cbv zeta.
  destruct (svc_deleteCollection svc (history (world s)) calls collectionName) as [thrown |];
    cbn [fst snd base further].
  - cbn. auto.
  - destruct (tokenizers (this s) !! collectionName) as [t |] eqn:Hlookup.
    + cbn [setTokenizers this world tokenizers].
      split; [reflexivity | split; [reflexivity |]].
      split; [reflexivity | split; [reflexivity | split; [reflexivity |]]].
      unfold getTokenizer. cbn [this tokenizers config world setTokenizers].
      rewrite lookup_delete_eq.
      destruct (newBM25Tokenizer _ (world s)). reflexivity.
    + split; [reflexivity | split; [reflexivity |]].
      split; [reflexivity | split; [| split; [reflexivity |]]].
      * symmetry. now apply delete_id.
      * unfold getTokenizer. rewrite Hlookup.
        destruct (newBM25Tokenizer _ (world s)). reflexivity.
Qed.

Lemma dropCollection_forgets_tokenizer_witness :
  initialized insertedState
  /\ tokenizers (this insertedState) !! "code_chunks_ab12cd34" <> None
  /\ tokenizers
       (this (base (snd (dropCollection obliging "code_chunks_ab12cd34"
                           {| base := insertedState; further := [] |}))))
     !! "code_chunks_ab12cd34" = None.
Proof.
  assert (Hinit : initialized insertedState) by (split; [reflexivity | eexists; reflexivity]).
  split; [exact Hinit |]. split; [vm_compute; discriminate |].
  destruct (dropCollection_forgets_tokenizer healthy obliging "code_chunks_ab12cd34"
              {| base := insertedState; further := [] |} Hinit)
    as (_ & _ & _ & Hregistry & _).
  rewrite Hregistry. apply lookup_delete_eq.
Defined.

(** [listCollections] on an initialized database makes one call and
    returns the names the service lists; a failure of the service is
    logged once and raised again. *)
Theorem listCollections_returns_names svc x :
  initialized (base x) ->
  let run := listCollections svc x in
  further (snd run) = further x ++ [(length (history (world (base x))), CallGetCollections)]
  /\ match svc_getCollections svc (history (world (base x))) (further x) with
     | inr names =>
         fst run = Returned names
         /\ history (world (base (snd run))) = history (world (base x))
     | inl thrown =>
         fst run = Raised thrown
         /\ history (world (base (snd run)))
            = history (world (base x)) ++ [ConsoleError "[QdrantDB] Failed to list collections"]
     end.
Proof.
  intros Hinit run. subst run. destruct x as [s calls]. cbn [base further] in *.
  rewrite (listCollections_run _ _ _ Hinit). cbv zeta.
  destruct (svc_getCollections svc (history (world s)) calls); cbn; auto.
Qed.

Lemma listCollections_returns_names_witness :
  initialized hybridState
  /\ fst (listCollections unreachable {| base := hybridState; further := [] |})
     = Raised econnreset.
Proof.
  assert (Hinit : initialized hybridState) by (split; [reflexivity | eexists; reflexivity]).
  split; [exact Hinit |].
  exact (proj1 (proj2 (listCollections_returns_names unreachable
                         {| base := hybridState; further := [] |} Hinit))).
Defined.

(** [insert] of a batch that is not empty, on an initialized database:
    the collection is probed first; when the probe fails the insert ends
    in the error that the collection does not exist and nothing is
    upserted; otherwise one upsert carries one point per document, in
    order, each with the id, the vector and the payload of its document,
    and the insert returns unless the service refuses the upsert. Every
    failure is logged once and raised. *)
Theorem insert_sends_one_dense_upsert env svc collectionName documents x :
  initialized (base x) ->
  documents <> [] ->
  let run := insert env svc collectionName documents x in
  let asked := history (world (base x)) ++ [CallGetCollection collectionName] in
  let failed := ConsoleError "[QdrantDB] Failed to insert documents into collection" in
  match env_getCollection env (history (world (base x))) collectionName with
  | inl _ =>
      fst run = Raised (missingCollection collectionName)
      /\ further (snd run) = further x
      /\ history (world (base (snd run))) = asked ++ [failed]
  | inr _ =>
      further (snd run)
      = further x ++ [(length asked, CallUpsertDense collectionName (map densePoint documents))]
      /\ match svc_upsertDense svc asked (further x) collectionName (map densePoint documents)
         with
         | None => fst run = Returned tt /\ history (world (base (snd run))) = asked
         | Some thrown =>
             fst run = Raised thrown /\ history (world (base (snd run))) = asked ++ [failed]
         end
  end.
Proof.
  intros Hinit Hdocuments run asked failed. subst run asked failed.
  destruct x as [s calls]. cbn [base further] in *.
  destruct documents as [| doc rest]; [congruence |].
  rewrite (insert_run _ _ _ _ _ _ _ Hinit). cbv zeta.
  destruct (env_getCollection env (history (world s)) collectionName) as [thrown | info].
  - cbn. auto.
  - cbn [setWorld world record history].
    destruct (svc_upsertDense svc _ calls collectionName _); cbn; auto.
Qed.

Lemma insert_sends_one_dense_upsert_witness :
  initialized hybridState
  /\ [sampleDocument "d0" NotAnArray "hello world"] <> []
  /\ further (snd (insert healthy obliging "code_chunks_ab12cd34"
                     [sampleDocument "d0" NotAnArray "hello world"]
                     {| base := hybridState; further := [] |}))
     = [(2%nat, CallUpsertDense "code_chunks_ab12cd34"
                  [densePoint (sampleDocument "d0" NotAnArray "hello world")])].
Proof.
  assert (Hinit : initialized hybridState) by (split; [reflexivity | eexists; reflexivity]).
  assert (Hdocuments : [sampleDocument "d0" NotAnArray "hello world"] <> [])
    by discriminate.
  split; [exact Hinit |]. split; [exact Hdocuments |].
  exact (proj1 (insert_sends_one_dense_upsert healthy obliging "code_chunks_ab12cd34"
                  [sampleDocument "d0" NotAnArray "hello world"]
                  {| base := hybridState; further := [] |} Hinit Hdocuments)).
Defined.

(** The payloads of [insert] and of [insertHybrid] for the same document
    agree on every key but [sparseVector]: the hybrid payload never has
    that key, while the dense payload holds under it whatever the
    metadata holds, and nothing when the metadata has no such entry. *)
Theorem payloads_differ_in_sparseVector doc :
  (forall key,
     pointPayload doc !! key
     = if String.eqb key "sparseVector" then None else densePayload doc !! key)
  /\ densePayload doc !! "sparseVector" = doc_metadata doc !! "sparseVector".
Proof.
  split.
  - intros key. unfold pointPayload, densePayload. rewrite !lookup_union.
    destruct (String.eqb_spec key "sparseVector") as [-> | Hkey].
    + rewrite lookup_delete_eq.
      now rewrite !lookup_insert_ne, lookup_empty by discriminate.
    + now rewrite lookup_delete_ne by congruence.
  - unfold densePayload. rewrite lookup_union.
    rewrite !lookup_insert_ne, lookup_empty by discriminate.
    now destruct (doc_metadata doc !! "sparseVector").
Qed.

(** [delete] with no id does nothing at all, whatever state the database
    is in, initialized or not. With ids, on an initialized database, one
    delete call carries the ids as they came; a refusal of the service is
    logged once and raised. *)
Theorem deletePoints_passes_ids svc collectionName x :
  deletePoints svc collectionName [] x = (Returned tt, x)
  /\ (initialized (base x) ->
      forall id rest,
        let ids := id :: rest in
        let run := deletePoints svc collectionName ids x in
        further (snd run)
        = further x
          ++ [(length (history (world (base x))), CallDeletePoints collectionName ids)]
        /\ match svc_deletePoints svc (history (world (base x))) (further x) collectionName ids
           with
           | None =>
               fst run = Returned tt
               /\ history (world (base (snd run))) = history (world (base x))
           | Some thrown =>
               fst run = Raised thrown
               /\ history (world (base (snd run)))
                  = history (world (base x))
                    ++ [ConsoleError "[QdrantDB] Failed to delete documents from collection"]
           end).
Proof.
  split; [reflexivity |].
  intros Hinit id rest ids run. subst run ids.
  destruct x as [s calls]. cbn [base further] in *.
  rewrite (deletePoints_run _ _ _ _ _ _ Hinit). cbv zeta.
  destruct (svc_deletePoints svc (history (world s)) calls collectionName _); cbn; auto.
Qed.

Example deletePoints_on_a_broken_database :
  deletePoints unreachable "code_chunks_ab12cd34" [] {| base := brokenState; further := [] |}
  = (Returned tt, {| base := brokenState; further := [] |})
  /\ further (snd (deletePoints obliging "code_chunks_ab12cd34" ["d0"; "d1"]
                     {| base := hybridState; further := [] |}))
     = [(1%nat, CallDeletePoints "code_chunks_ab12cd34" ["d0"; "d1"])].
Proof. split; reflexivity. Qed.

(** ** Queries and filters *)

(** A record that [query] returns has the string form of the payload
    under [metadata], whatever the payload holds under that name; every
    other entry of the payload as it is; and the id of the point under
    [id] unless the payload has an [id] of its own, which wins. *)
Theorem queryRecord_members svc point key :
  queryRecord svc point !! key
  = if String.eqb key "metadata"
    then Some (QueryJson (svc_stringify svc (nullish (scp_payload point) ∅)))
    else match nullish (scp_payload point) ∅ !! key with
         | Some value => Some (QueryPayload value)
         | None => if String.eqb key "id" then Some (QueryId (scp_id point)) else None
         end.
Proof.
  unfold queryRecord.
  destruct (String.eqb_spec key "metadata") as [-> | Hmetadata].
  - apply lookup_insert_eq.
  - rewrite lookup_insert_ne by congruence. rewrite lookup_union, lookup_fmap.
    destruct (nullish (scp_payload point) ∅ !! key) as [value |]; cbn.
    + now destruct (_ !! key).
    + destruct (String.eqb_spec key "id") as [-> | Hid].
      * now rewrite lookup_singleton_eq.
      * now rewrite lookup_singleton_ne by congruence.
Qed.

(** [query] on an initialized database makes one scroll call. The
    request never asks for vectors; its limit is 100 when none or zero
    was given; it has a filter only when a filter with a key was given.
    The records of the answer follow the points one to one, the output
    fields asked for play no part, and a failure of the service is logged
    once and raised. *)
Theorem query_scrolls_once svc collectionName filter outputFields limit x :
  initialized (base x) ->
  let run := query svc collectionName filter outputFields limit x in
  let request := scrollParams filter limit in
  further (snd run)
  = further x ++ [(length (history (world (base x))), CallScroll collectionName request)]
  /\ sc_with_vector request = false
  /\ (limit = None \/ limit = Some 0 -> sc_limit request = 100)
  /\ (sc_filter request = None <-> filter = None \/ filter = Some NoConstraint)
  /\ (forall conditions, filter = Some (Must conditions) -> sc_filter request = filter)
  /\ (forall otherFields, query svc collectionName filter otherFields limit x = run)
  /\ match svc_scroll svc (history (world (base x))) (further x) collectionName request with
     | inr points =>
         fst run = Returned (map (queryRecord svc) points)
         /\ history (world (base (snd run))) = history (world (base x))
     | inl thrown =>
         fst run = Raised thrown
         /\ history (world (base (snd run)))
            = history (world (base x)) ++ [ConsoleError "[QdrantDB] Failed to query collection"]
     end.
Proof.
  intros Hinit run request. subst run request. destruct x as [s calls].
  cbn [base further] in *.
  rewrite (query_run _ _ _ _ _ _ _ Hinit). cbv zeta.
  split; [| split; [reflexivity | split; [| split; [| split; [| split]]]]].
  - now destruct (svc_scroll svc (history (world s)) calls collectionName _).
  - intros [-> | ->]; reflexivity.
  - destruct filter as [[| conditions] |]; cbn; split; auto; try discriminate.
    intros [H | H]; discriminate H.
  - now intros conditions ->.
  - intros otherFields. now rewrite (query_run _ _ _ otherFields _ _ _ Hinit).
  - destruct (svc_scroll svc (history (world s)) calls collectionName _); cbn; auto.
Qed.

Lemma query_scrolls_once_witness :
  initialized hybridState
  /\ further (snd (query obliging "code_chunks_ab12cd34" (Some NoConstraint) ["id"] (Some 0)
                     {| base := hybridState; further := [] |}))
     = [(1%nat,
         CallScroll "code_chunks_ab12cd34"
           {| sc_limit := 100; sc_with_payload := true; sc_with_vector := false;
              sc_filter := None |})].
Proof.
  assert (Hinit : initialized hybridState) by (split; [reflexivity | eexists; reflexivity]).
  split; [exact Hinit |].
  exact (proj1 (query_scrolls_once obliging "code_chunks_ab12cd34" (Some NoConstraint) ["id"]
                  (Some 0) {| base := hybridState; further := [] |} Hinit)).
Defined.

(** The filter builders feed [query]: no extensions, an empty list of
    extensions or an empty path build the empty filter, which [query]
    leaves out of its request; anything else builds a single [must]
    condition on [fileExtension] or [relativePath], which [query] sends
    as it is. *)
Theorem filter_builders_feed_query extensions relativePath limit :
  sc_filter (scrollParams (Some (buildExtensionFilter extensions)) limit)
  = match extensions with
    | Some (extension :: others) =>
        Some (Must [MatchAny "fileExtension" (extension :: others)])
    | _ => None
    end
  /\ sc_filter (scrollParams (Some (buildPathFilter relativePath)) limit)
     = if String.eqb relativePath "" then None
       else Some (Must [MatchValue "relativePath" relativePath]).
Proof.
  split.
  - destruct extensions as [[| extension others] |]; reflexivity.
  - unfold buildPathFilter. destruct (String.eqb relativePath ""); reflexivity.
Qed.

(** ** A database that failed to initialize *)

(** When the construction of the client has failed, each of the eleven
    asynchronous methods that begin by awaiting the initialization raises
    the reason of that failure and leaves database, world and service
    alone: nothing is called and nothing is logged. Three of them, the
    two inserts and the delete, return normally for an empty batch, which
    they test before they await. The twelfth asynchronous method,
    [checkCollectionLimit], awaits nothing and returns [true] all the
    same. *)
Theorem rejected_initialization_fails_every_call env svc s calls reason :
  initializationPromise (this s) = Rejected reason ->
  let x := {| base := s; further := calls |} in
  (forall name dimension, createCollection env name dimension s = (Raised reason, s))
  /\ (forall name dimension, createHybridCollection env name dimension s = (Raised reason, s))
  /\ (forall name, hasCollection env name s = (Raised reason, s))
  /\ (forall name doc rest, insertHybrid env name (doc :: rest) s = (Raised reason, s))
  /\ (forall name vector options, search env name vector options s = (Raised reason, s))
  /\ (forall name requests options,
        hybridSearch env name requests options s = (Raised reason, s))
  /\ (forall name, dropCollection svc name x = (Raised reason, x))
  /\ listCollections svc x = (Raised reason, x)
  /\ (forall name doc rest, insert env svc name (doc :: rest) x = (Raised reason, x))
  /\ (forall name id rest, deletePoints svc name (id :: rest) x = (Raised reason, x))
  /\ (forall name filter fields limit, query svc name filter fields limit x = (Raised reason, x))
  /\ (forall name,
        insertHybrid env name [] s = (Returned tt, s)
        /\ insert env svc name [] x = (Returned tt, x)
        /\ deletePoints svc name [] x = (Returned tt, x))
  /\ checkCollectionLimit x = (Returned true, x).
Proof.
  intros Hrejected x.
  assert (Hensure : ensureInitialized s = (Raised reason, s)).
  { unfold ensureInitialized. now rewrite Hrejected. }
  assert (Hlift : liftM ensureInitialized x = (Raised reason, x)).
  { unfold liftM, x. cbn [base further]. now rewrite Hensure. }
  assert (Hx : forall (B : Type) (k : MX B),
             (liftM ensureInitialized ;;; k) x = (Raised reason, x)).
  { intros B k. unfold bindX. now rewrite Hlift. }
  split; [intros; unfold createCollection, bind; now rewrite Hensure |].
  split; [intros; unfold createHybridCollection, bind; now rewrite Hensure |].
  split; [intros; unfold hasCollection, bind; now rewrite Hensure |].
  split; [intros; unfold insertHybrid, bind; cbn [length Nat.eqb]; now rewrite Hensure |].
  split; [intros; unfold search, bind; now rewrite Hensure |].
  split; [intros; unfold hybridSearch, bind; now rewrite Hensure |].
  split; [intros; apply Hx |].
  split; [apply Hx |].
  split; [intros; unfold insert; cbn [length Nat.eqb]; apply Hx |].
  split; [intros; unfold deletePoints; cbn [length Nat.eqb]; apply Hx |].
  split; [intros; apply Hx |].
  split; [| reflexivity].
  intros name. split; [reflexivity | split; reflexivity].
Qed.

Lemma rejected_initialization_fails_every_call_witness :
  initializationPromise (this brokenState)
  = Rejected (ErrorObject (mkError "The `url` param expects full URL with protocol"))
  /\ search healthy "code_chunks_ab12cd34" [1 # 2] None brokenState
     = (Raised (ErrorObject (mkError "The `url` param expects full URL with protocol")), brokenState).
Proof.
  split; [reflexivity |].
  destruct (rejected_initialization_fails_every_call healthy obliging brokenState []
              (ErrorObject (mkError "The `url` param expects full URL with protocol")) eq_refl)
    as (_ & _ & _ & _ & Hsearch & _).
  apply Hsearch.
Defined.

(** ** Assigned indices stay assigned *)

Lemma keeps_ret {A} R (a : A) : keeps R (ret a).
Proof. intros s Hs. exact Hs. Qed.

Lemma keeps_throw {A} R t : keeps R (throw (A := A) t).
Proof. intros s Hs. exact Hs. Qed.

Lemma keeps_bind {A B} R (m : M A) (k : A -> M B) :
  keeps R m -> (forall a, keeps R (k a)) -> keeps R (bind m k).
Proof.
  intros Hm Hk s Hs. unfold bind. specialize (Hm s Hs).
  destruct (m s) as [[a | t] s1]; cbn [snd] in *; [now apply Hk | assumption].
Qed.

Lemma keeps_tryCatch {A} R (body : M A) handler :
  keeps R body -> (forall t, keeps R (handler t)) -> keeps R (tryCatch body handler).
Proof.
  intros Hbody Hhandler s Hs. unfold tryCatch. specialize (Hbody s Hs).
  destruct (body s) as [[a | t] s1]; cbn [snd] in *; [assumption | now apply Hhandler].
Qed.

Section Extends.

Variables (name : string) (t0 : BM25Tokenizer).

Lemma extends_setWorld w s : extends name t0 s -> extends name t0 (setWorld w s).
Proof. intros Hs. exact Hs. Qed.

Lemma keeps_emit e : keeps (extends name t0) (emit e).
Proof. intros s Hs. exact Hs. Qed.

Lemma keeps_ensureInitialized : keeps (extends name t0) ensureInitialized.
Proof.
  intros s Hs. unfold ensureInitialized.
  destruct (initializationPromise (this s)); [| exact Hs].
  destruct (client (this s)); exact Hs.
Qed.

Lemma keeps_clientCall {A} e (reply : list Event -> Thrown + A) :
  keeps (extends name t0) (clientCall e reply).
Proof.
  intros s Hs. unfold clientCall. destruct (client (this s)); [| exact Hs].
  destruct (reply _); exact Hs.
Qed.

Lemma keeps_hasCollection env collectionName :
  keeps (extends name t0) (hasCollection env collectionName).
Proof.
  apply keeps_bind; [apply keeps_ensureInitialized | intros _].
  apply keeps_tryCatch; [| intros _; apply keeps_ret].
  apply keeps_bind; [apply keeps_clientCall | intros _; apply keeps_ret].
Qed.

Lemma keeps_getTokenizer env collectionName :
  keeps (extends name t0) (getTokenizer env collectionName).
Proof.
  intros s (t & Hlookup & Hsub & Hinv). unfold getTokenizer.
  destruct (tokenizers (this s) !! collectionName) as [t1 |] eqn:Hother;
    [exists t; auto |].
  destruct (newBM25Tokenizer _ (world s)) as [t1 w].
  exists t. cbn [snd this tokenizers setTokenizers setWorld]. split; [| auto].
  rewrite lookup_insert_ne; [assumption |]. intros ->. congruence.
Qed.

Lemma keeps_tokenizerGenerate env collectionName text :
  keeps (extends name t0) (tokenizerGenerate env collectionName text).
Proof.
  intros s Hs. unfold tokenizerGenerate, bind.
  pose proof (keeps_getTokenizer env collectionName s Hs) as Hs1.
  destruct (getTokenizer_run env collectionName s) as [_ (t1 & Hfst & Hregistered)].
  destruct (getTokenizer env collectionName s) as [r s1]. cbn [fst snd] in *. subst r.
  destruct (generateSparseVector_store env text t1 (world s1)) as (Hsub & _ & Hinv).
  destruct (generateSparseVector env text t1 (world s1)) as [[sparse t2] w].
  cbn [fst snd] in *.
  destruct Hs1 as (t & Hlookup & Hsub0 & Hinv0).
  destruct (String.eqb_spec name collectionName) as [-> | Hname].
  - exists t2. cbn [snd this tokenizers setTokenizers setWorld].
    rewrite lookup_insert_eq. split; [reflexivity |].
    assert (t = t1) as -> by congruence.
    split; [etransitivity; eassumption | auto].
  - exists t. cbn [snd this tokenizers setTokenizers setWorld].
    rewrite lookup_insert_ne by congruence. auto.
Qed.

Lemma keeps_tokenizerSave env collectionName :
  keeps (extends name t0) (tokenizerSave env collectionName).
Proof.
  apply keeps_bind; [apply keeps_getTokenizer | intros t s Hs; exact Hs].
Qed.

Lemma keeps_hybridPoints env collectionName documents : forall index,
  keeps (extends name t0) (hybridPoints env collectionName documents index).
Proof.
  induction documents as [| doc rest IH]; intros index; cbn [hybridPoints];
    [apply keeps_ret |].
  destruct (doc_vector doc) as [v |].
  - destruct (length v =? 0)%nat.
    + apply keeps_bind; [apply keeps_emit | intros _; apply keeps_throw].
    + apply keeps_bind; [apply keeps_tokenizerGenerate | intros sparse].
      apply keeps_bind; [apply IH | intros points; apply keeps_ret].
  - apply keeps_bind; [apply keeps_emit | intros _; apply keeps_throw].
Qed.

Lemma keeps_prefetchQueries env collectionName requests :
  keeps (extends name t0) (prefetchQueries env collectionName requests).
Proof.
  induction requests as [| request rest IH]; cbn [prefetchQueries]; [apply keeps_ret |].
  apply keeps_bind.
  - destruct (_ || _); [apply keeps_ret |].
    apply keeps_bind; [apply keeps_tokenizerGenerate | intros sparse; apply keeps_ret].
  - intros entry. apply keeps_bind; [exact IH | intros entries; apply keeps_ret].
Qed.

Lemma keeps_insertHybrid env collectionName documents :
  keeps (extends name t0) (insertHybrid env collectionName documents).
Proof.
  unfold insertHybrid. destruct (length documents =? 0)%nat; [apply keeps_ret |].
  apply keeps_bind; [apply keeps_ensureInitialized | intros _].
  apply keeps_tryCatch.
  - unfold insertHybridTry.
    apply keeps_bind; [apply keeps_hasCollection | intros collectionExists].
    apply keeps_bind; [destruct (negb _); [apply keeps_throw | apply keeps_ret] | intros _].
    apply keeps_bind; [apply keeps_clientCall | intros info].
    apply keeps_bind; [destruct (negb _); [apply keeps_throw | apply keeps_ret] | intros _].
    apply keeps_bind; [apply keeps_hybridPoints | intros points].
    apply keeps_bind; [apply keeps_clientCall | intros result].
    destruct (accepted result); [| apply keeps_emit].
    apply keeps_bind; [| intros _; apply keeps_tokenizerSave].
    apply keeps_tryCatch; [| intros _; apply keeps_emit].
    apply keeps_bind; [apply keeps_clientCall | intros _; apply keeps_ret].
  - intros error. unfold insertHybridCatch.
    apply keeps_bind; [apply keeps_emit | intros _].
    apply keeps_bind; [apply keeps_emit | intros _].
    apply keeps_bind; [destruct (0 <? _)%nat; [apply keeps_emit | apply keeps_ret] | intros _].
    apply keeps_throw.
Qed.

Lemma keeps_hybridSearch env collectionName requests options :
  keeps (extends name t0) (hybridSearch env collectionName requests options).
Proof.
  unfold hybridSearch.
  apply keeps_bind; [apply keeps_ensureInitialized | intros _].
  apply keeps_tryCatch.
  - destruct (length requests =? 0)%nat; [apply keeps_ret |].
    apply keeps_bind; [apply keeps_prefetchQueries | intros prefetch].
    apply keeps_bind; [apply keeps_clientCall | intros result; apply keeps_ret].
  - intros error. apply keeps_bind; [apply keeps_emit | intros _; apply keeps_throw].
Qed.

End Extends.

(** Once a word has an index in the tokenizer registered for a
    collection, no hybrid insert and no hybrid search, into or over
    whatever collection and however it ends, takes that index away or
    gives the word another: the tokenizer stays registered and its table
    only grows. If the tokenizer kept the invariant of the vocabulary
    before (indices at least 0, below [nextIndex] and distinct), it keeps
    it after. Distinct indices alone are not kept: see
    [hybridSearch_takes_the_counter]. *)
Theorem registry_keeps_assigned_indices env registeredName t s :
  tokenizers (this s) !! registeredName = Some t ->
  (forall collectionName documents,
     extends registeredName t (snd (insertHybrid env collectionName documents s)))
  /\ (forall collectionName requests options,
        extends registeredName t (snd (hybridSearch env collectionName requests options s))).
Proof.
  intros Hregistered.
  assert (Hs : extends registeredName t s) by (exists t; auto).
  split; intros.
  - now apply keeps_insertHybrid.
  - now apply keeps_hybridSearch.
Qed.

Lemma registry_keeps_assigned_indices_witness :
  tokenizers (this insertedState) !! "code_chunks_ab12cd34"
  = Some {| vocabulary := {["hello" := 0; "world" := 1]};
            nextIndex := 2;
            vocabularyPath := Some vocabularyFile |}
  /\ extends "code_chunks_ab12cd34"
       {| vocabulary := {["hello" := 0; "world" := 1]};
          nextIndex := 2;
          vocabularyPath := Some vocabularyFile |}
       (snd (hybridSearch healthy "code_chunks_ab12cd34"
               [{| hr_data := TextData "novel"; hr_anns_field := "sparse"; hr_limit := 10 |}]
               None insertedState)).
Proof.
  assert (Hregistered :
            tokenizers (this insertedState) !! "code_chunks_ab12cd34"
            = Some {| vocabulary := {["hello" := 0; "world" := 1]};
                      nextIndex := 2;
                      vocabularyPath := Some vocabularyFile |}).
  { vm_compute. reflexivity. }
  split; [exact Hregistered |].
  apply (proj2 (registry_keeps_assigned_indices healthy "code_chunks_ab12cd34" _ insertedState
                  Hregistered)).
Defined.

Example hybridSearch_takes_the_counter :
  tokenizers
    (this (snd (hybridSearch healthy "code_chunks_ab12cd34"
                  [{| hr_data := TextData "bb"; hr_anns_field := "sparse"; hr_limit := 10 |}]
                  None
                  (setTokenizers {["code_chunks_ab12cd34" := crowdedTokenizer]} hybridState))))
  !! "code_chunks_ab12cd34"
  = Some {| vocabulary := {["aa" := 5; "bb" := 5]}; nextIndex := 6; vocabularyPath := None |}.
Proof. vm_compute. reflexivity. Qed.

(** ** What the searches return *)

(** On an initialized database [search] returns one result per point of
    the service's answer, in the order of the answer, and raises what the
    service raises. [hybridSearch] without requests returns no result and
    calls nothing; with requests it reads the points off the answer,
    which may be an array, an object with a [points] array or an object
    without one (no result), and maps them as [search] does. *)
Theorem searches_return_mapped_points env collectionName s :
  initialized s ->
  (forall queryVector options,
     fst (search env collectionName queryVector options s)
     = match env_search env (history (world s)) collectionName
               (searchRequest collectionName queryVector options) with
       | inr points => Returned (map toResult points)
       | inl thrown => Raised thrown
       end)
  /\ (forall options, hybridSearch env collectionName [] options s = (Returned [], s))
  /\ (forall request rest options,
        match prefetchQueries env collectionName (request :: rest) s with
        | (Returned prefetch, s1) =>
            fst (hybridSearch env collectionName (request :: rest) options s)
            = match env_query env (history (world s1)) collectionName
                      (queryRequest prefetch options) with
              | inr (PointArray points) => Returned (map toResult points)
              | inr (PointsObject (Some points)) => Returned (map toResult points)
              | inr (PointsObject None) => Returned []
              | inl thrown => Raised thrown
              end
        | (Raised _, _) => False
        end).
Proof.
  intros Hinit. split; [| split].
  - intros queryVector options. unfold search, bind.
    rewrite (ensureInitialized_ready _ Hinit). unfold tryCatch, bind.
    rewrite (clientCall_ready _ _ _ Hinit).
    now destruct (env_search env (history (world s)) collectionName _).
  - intros options. unfold hybridSearch, bind.
    now rewrite (ensureInitialized_ready _ Hinit).
  - intros request rest options.
    destruct (prefetchQueries_run env collectionName (request :: rest) s)
      as [Hgrows (prefetch & Hfst & _)].
    unfold hybridSearch. unfold bind at 1.
    rewrite (ensureInitialized_ready _ Hinit).
    unfold tryCatch. cbn [length Nat.eqb]. unfold bind at 1.
    destruct (prefetchQueries env collectionName (request :: rest) s) as [r s1].
    cbn [fst snd] in Hgrows, Hfst. subst r.
    assert (Hinit1 : initialized s1) by (eapply grows_initialized; eassumption).
    unfold bind at 1. rewrite (clientCall_ready _ _ _ Hinit1).
    destruct (env_query env (history (world s1)) collectionName _)
      as [thrown | [points | [points |]]]; reflexivity.
Qed.

Lemma searches_return_mapped_points_witness :
  initialized hybridState
  /\ hybridSearch healthy "code_chunks_ab12cd34" [] None hybridState
     = (Returned [], hybridState).
Proof.
  assert (Hinit : initialized hybridState) by (split; [reflexivity | eexists; reflexivity]).
  split; [exact Hinit |].
  exact (proj1 (proj2 (searches_return_mapped_points healthy "code_chunks_ab12cd34"
                         hybridState Hinit)) None).
Defined.
